(** * auto-mock-tools: the mock-serving engine, embedded in Rocq

    A shallow embedding of the Go packages [pkg/storage] (record codec,
    index, scenario matcher) and [pkg/handlers] (mock HTTP handler), and
    the properties of the specification checked against them.

    Conventions.
    - A Go [string] is a [string]; a Go [[]byte] is a [list ascii]
      (abbreviated [bytes]); the conversions [[]byte(s)] and [string(b)]
      are written out.
    - A Go [float64] is a primitive binary64 [float]; a Go [int] is a [Z].
    - A Go [map[string]T] is a [gmap string T].  Go iterates over a map
      in an unspecified order; every [for k, v := range m] goes through
      [mapRange], which is only known to enumerate the map.
    - A value of type [interface{}] decoded from JSON is a [JSON] tree,
      the [nil] interface being [JNull].
    - Functions of Go's standard library and of third-party packages
      whose code is not part of the repository (encoding/json, net/url,
      encoding/base64, compress/gzip, strings.ToLower, jsonfilter, ...)
      are fields of the classes [GoRuntime] and [JsonFilter]. *)

From Stdlib Require Import Floats ZArith Ascii String.
From stdpp Require Import gmap strings list fin_maps.

Set Warnings "-register-all,-inexact-float".
Set Default Proof Using "Type".

Local Open Scope Z_scope.

Abbreviation bytes := (list ascii).

(** ** Go's built-in conversions and the standard-library functions that
       are simple enough to be written out *)
Module Go.

(** [[]byte(s)] *)
Definition bytes_of_string (s : string) : bytes := list_ascii_of_string s.

(** [string(b)] *)
Definition string_of_bytes (b : bytes) : string := string_of_list_ascii b.

(** [s[lo:hi]] for [0 <= lo <= hi <= len(s)] *)
Definition slice (s : bytes) (lo hi : nat) : bytes := take (hi - lo) (drop lo s).

(** [bytes.IndexByte(b, c)]: the index of the first [c] in [b], or -1. *)
Fixpoint indexByteFrom (b : bytes) (c : ascii) (i : Z) : Z :=
  match b with
  | [] => -1
  | x :: b' => if Ascii.eqb x c then i else indexByteFrom b' c (i + 1)
  end.

Definition IndexByte (b : bytes) (c : ascii) : Z := indexByteFrom b c 0.

(** [strings.Split(s, sep)[0]] for a one-byte separator: the part of [s]
    before the first [sep] (all of [s] when there is none). *)
Fixpoint splitFirst (sep : ascii) (s : string) : string :=
  match s with
  | EmptyString => EmptyString
  | String c s' => if Ascii.eqb c sep then EmptyString else String c (splitFirst sep s')
  end.

(** The white space of [unicode.IsSpace], as UTF-8 byte sequences:
    the six ASCII characters, U+0085, U+00A0 (two bytes), and U+1680,
    U+2000..U+200A, U+2028, U+2029, U+202F, U+205F, U+3000 (three bytes). *)
Definition isSpace1 (c : ascii) : bool :=
  match c with
  | "009" | "010" | "011" | "012" | "013" | " " => true
  | _ => false
  end%char.

Definition isSpace2 (c1 c2 : ascii) : bool :=
  match c1, c2 with
  | "194", "133" | "194", "160" => true
  | _, _ => false
  end%char.

Definition isSpace3 (c1 c2 c3 : ascii) : bool :=
  match N_of_ascii c1, N_of_ascii c2, N_of_ascii c3 with
  | 225, 154, 128 => true                                   (* U+1680 *)
  | 226, 128, n => (n <=? 138)%N && (128 <=? n)%N           (* U+2000..U+200A *)
                   || (n =? 168)%N || (n =? 169)%N || (n =? 175)%N
  | 226, 129, 159 => true                                   (* U+205F *)
  | 227, 128, 128 => true                                   (* U+3000 *)
  | _, _, _ => false
  end%N.

(** Leading white space removed, one code point at a time. *)
Fixpoint trimLeft (s : bytes) : bytes :=
  match s with
  | c1 :: s1 =>
      if isSpace1 c1 then trimLeft s1
      else match s1 with
           | c2 :: s2 =>
               if isSpace2 c1 c2 then trimLeft s2
               else match s2 with
                    | c3 :: s3 => if isSpace3 c1 c2 c3 then trimLeft s3 else s
                    | [] => s
                    end
           | [] => s
           end
  | [] => []
  end.

(** Trailing white space removed; [r] is the string reversed, so a code
    point's bytes come last byte first. *)
Fixpoint trimLeftRev (r : bytes) : bytes :=
  match r with
  | c1 :: r1 =>
      if isSpace1 c1 then trimLeftRev r1
      else match r1 with
           | c2 :: r2 =>
               if isSpace2 c2 c1 then trimLeftRev r2
               else match r2 with
                    | c3 :: r3 => if isSpace3 c3 c2 c1 then trimLeftRev r3 else r
                    | [] => r
                    end
           | [] => r
           end
  | [] => []
  end.

(** [strings.HasSuffix(s, suffix)] *)
Definition HasSuffix (s suffix : string) : bool :=
  bool_decide (bytes_of_string suffix `suffix_of` bytes_of_string s).

(** [strings.TrimSpace(s)] *)
Definition TrimSpace (s : string) : string :=
  string_of_bytes (rev (trimLeftRev (rev (trimLeft (bytes_of_string s))))).

End Go.

(** ** Values decoded from JSON, and the external functions *)

(** What [json.Unmarshal] stores in an [interface{}]: [nil], [bool],
    [float64], [string], [[]interface{}] or [map[string]interface{}]. *)
Inductive JSON : Type :=
| JNull
| JBool (b : bool)
| JNumber (f : float)
| JString (s : string)
| JArray (l : list JSON)
| JObject (m : gmap string JSON).

(** The type assertions [v.(string)], [v.(float64)],
    [v.([]interface{})] and [v.(map[string]interface{})]. *)
Definition asString (v : JSON) : option string :=
  match v with JString s => Some s | _ => None end.

Definition asFloat (v : JSON) : option float :=
  match v with JNumber f => Some f | _ => None end.

Definition asArray (v : JSON) : option (list JSON) :=
  match v with JArray l => Some l | _ => None end.

Definition asObject (v : JSON) : option (gmap string JSON) :=
  match v with JObject m => Some m | _ => None end.

(** [m[k]] on a [map[string]interface{}]: the [nil] interface when the
    key is absent. *)
Definition index (m : gmap string JSON) (k : string) : JSON :=
  default JNull (m !! k).

(** [m[k]] on a [map[string]string]: the empty string when absent. *)
Definition indexStr (m : gmap string string) (k : string) : string :=
  default EmptyString (m !! k).

(** An [os.DirEntry], as far as it is read. *)
Record DirEntry := {
  Name : string;
  IsDir : bool;
}.

(** The Go runtime and standard library, as far as the engine uses them. *)
Class GoRuntime := {
  (** [for k, v := range m]: some enumeration of the entries of [m] *)
  mapRange : ∀ V : Type, gmap string V → list (string * V);
  mapRange_perm : ∀ (V : Type) (m : gmap string V), mapRange V m ≡ₚ map_to_list m;
  (** [json.Unmarshal] into an [interface{}]; [None] is an error *)
  json_Unmarshal : bytes → option JSON;
  (** [json.Marshal] *)
  json_Marshal : JSON → option bytes;
  (** [url.Parse(s)], projected on the [Path] of the URL it returns *)
  url_Parse_Path : string → option string;
  (** [base64.StdEncoding.DecodeString] *)
  base64_DecodeString : string → option bytes;
  (** [gzip.NewReader] on a byte reader: the stream behind the header *)
  gzip_NewReader : bytes → option bytes;
  (** [io.ReadAll] on a gzip reader *)
  gzip_ReadAll : bytes → option bytes;
  (** [strings.ToLower], [strings.ToUpper] *)
  strings_ToLower : string → string;
  strings_ToUpper : string → string;
  (** the conversion [int(f)] of a [float64] *)
  int_of_float64 : float → Z;
  (** [os.ReadFile], [os.ReadDir], and [os.IsNotExist] of [os.Stat]'s error *)
  os_ReadFile : string → option bytes;
  os_ReadDir : string → option (list DirEntry);
  os_Stat_IsNotExist : string → bool;
  (** [filepath.Dir], [filepath.IsAbs], [filepath.Join] *)
  filepath_Dir : string → string;
  filepath_IsAbs : string → bool;
  filepath_Join : string → string → string;
}.

Arguments mapRange {_ _} _.

(** The package jsonfilter-go: compiled predicates over a JSON body. *)
Class JsonFilter := {
  (** a value decoded from YAML *)
  YamlValue : Type;
  (** [jsonfilter.Operator] *)
  Operator : Type;
  (** [parser.FromMap(map[string]interface{}{"jsonFilter": body})] *)
  parser_FromMap : gmap string YamlValue → option Operator;
  (** [operator.Validate().Valid] *)
  Validate_Valid : Operator → bool;
  (** [operator.Evaluate(body).Match] *)
  Evaluate_Match : Operator → bytes → bool;
}.

(** ** package storage: data model (storage.go, scenario.go) *)
Module Storage.

Record SSEEvent := {
  Data : JSON;
  Timestamp : float;
  SerializedData : bytes;
}.

Record MockResponse := {
  RequestID : string;
  Path : string;
  Method : string;
  MethodBytes : bytes;
  MockID : string;
  ContentType : string;
  StatusCode : Z;
  Headers : gmap string string;
  HeaderKeysLower : gmap string string;
  Body : bytes;
  OriginalBody : JSON;
  FullURL : string;
  Delay : float;
  SSEEvents : list SSEEvent;
  IsSSE : bool;
}.

Inductive error :=
| errInvalidRecord
| errJSON          (* json.Unmarshal failed *)
| errURL           (* url.Parse failed *)
| errMarshal       (* json.Marshal failed *)
| errReadFile      (* os.ReadFile failed *)
| errReadDir       (* os.ReadDir failed *)
| errScenarioRead                       (* "read scenario config: ..." *)
| errScenarioParse                      (* "parse scenario config: ..." *)
| errScenarioEmpty                      (* "... does not define any scenarios" *)
| errMissingName (idx : nat)            (* "scenario #idx is missing name" *)
| errMissingPath (name : string)        (* "scenario name is missing path" *)
| errMissingFile (name : string)        (* "... is missing response.file" *)
| errLoadResponse (name : string) (e : error)
| errFilter (name : string)             (* "scenario name filter: ..." *)
| errFilterInvalid (name : string).     (* "scenario name filter invalid: ..." *)

(** Go's [(value, error)] results. *)
Definition result (A : Type) : Type := error + A.

Definition bind {A B : Type} (x : result A) (f : A → result B) : result B :=
  match x with inl e => inl e | inr a => f a end.

Notation "'let*' x ':=' c1 'in' c2" := (bind c1 (fun x => c2))
  (at level 10, x pattern, c1 at level 100, c2 at level 200).

Definition orErr {A : Type} (e : error) (x : option A) : result A :=
  match x with Some a => inr a | None => inl e end.

(** *** Byte-level helpers of storage.go *)

Definition isSpaceASCII (c : ascii) : bool :=
  match c with
  | " " | "009" | "013" | "010" => true
  | _ => false
  end%char.

(** [s[i] == ' ' || s[i] == '\t' || s[i] == '\r' || s[i] == '\n'];
    the loops below only read inside the slice. *)
Definition spaceAt (s : bytes) (i : nat) : bool :=
  match s !! i with Some c => isSpaceASCII c | None => false end.

(** [for start < end && space(s[start]) { start++ }] *)
Fixpoint trimLeadingLoop (fuel : nat) (s : bytes) (start end_ : nat) : nat :=
  match fuel with
  | O => start
  | S fuel' =>
      if bool_decide (start < end_)%nat && spaceAt s start
      then trimLeadingLoop fuel' s (S start) end_
      else start
  end.

(** [for start < end && space(s[end-1]) { end-- }] *)
Fixpoint trimTrailingLoop (fuel : nat) (s : bytes) (start end_ : nat) : nat :=
  match fuel with
  | O => end_
  | S fuel' =>
      if bool_decide (start < end_)%nat && spaceAt s (end_ - 1)
      then trimTrailingLoop fuel' s start (end_ - 1)
      else end_
  end.

Definition trimSpaceASCII (s : bytes) : bytes :=
  let start := trimLeadingLoop (length s) s 0 (length s) in
  let end_ := trimTrailingLoop (length s) s start (length s) in
  Go.slice s start end_.

(** [c + ('a' - 'A')] when ['A' <= c <= 'Z'], else [c]. *)
Definition lowerByte (c : ascii) : ascii :=
  let n := N_of_ascii c in
  if (65 <=? n)%N && (n <=? 90)%N then ascii_of_N (n + 32) else c.

Fixpoint toLowerASCIISimple (s : string) : string :=
  match s with
  | EmptyString => EmptyString
  | String c s' => String (lowerByte c) (toLowerASCIISimple s')
  end.

Fixpoint equalFoldBytes (a b : bytes) : bool :=
  match a, b with
  | [], [] => true
  | ca :: a', cb :: b' =>
      if Ascii.eqb (lowerByte ca) (lowerByte cb) then equalFoldBytes a' b' else false
  | _, _ => false
  end.

(** *** The index key *)

Definition makeIndexKey (path mockID contentType : string) : string :=
  path +:+ "|" +:+ mockID +:+ "|" +:+ contentType.

Definition makeIndexKeyFromBytes (path mockID contentType : bytes) : string :=
  let buf := [] in
  let buf := buf ++ path in
  let buf := buf ++ ["|"%char] in
  let buf := buf ++ mockID in
  let buf := buf ++ ["|"%char] in
  let buf := buf ++ contentType in
  Go.string_of_bytes buf.

(** *** The record codec (part_004: loadResponseFromFile, parseMockRecord) *)
Section Codec.
Context {RT : GoRuntime}.

(** [for k, v := range headers { headersLower[strings.ToLower(k)] = v }] *)
Definition lowerKeys (headers : gmap string JSON) : gmap string JSON :=
  foldl (λ acc kv, <[strings_ToLower kv.1 := kv.2]> acc) ∅ (mapRange headers).

(** The loop over [responseHeaders]: the string-valued headers under
    their own name ([responseHeadersStr]) and under their lower-cased
    name ([responseHeadersLower]). *)
Definition responseHeaderMaps (responseHeaders : gmap string JSON)
  : gmap string string * gmap string string :=
  foldl (λ acc kv,
           match asString kv.2 with
           | Some str => (<[kv.1 := str]> acc.1, <[strings_ToLower kv.1 := str]> acc.2)
           | None => acc
           end)
        (∅, ∅) (mapRange responseHeaders).

(** Lines 68-74. *)
Definition normalizeContentType (contentType : string) : string :=
  if decide (contentType ≠ "")
  then Go.TrimSpace (Go.splitFirst ";" contentType)
  else "application/json".

(** Lines 76-96: the best-effort decoding of a gzip body. *)
Definition decodeGzipBody (responseHeadersLower : gmap string string) (body : JSON) : JSON :=
  match asString body with
  | Some bodyStr =>
      if decide (bodyStr ≠ "") then
        if decide (indexStr responseHeadersLower "content-encoding" = "gzip") then
          match base64_DecodeString bodyStr with
          | Some bodyBytes =>
              match gzip_NewReader bodyBytes with
              | Some gzReader =>
                  match gzip_ReadAll gzReader with
                  | Some decompressed =>
                      match json_Unmarshal decompressed with
                      | Some jsonBody => jsonBody
                      | None => JString (Go.string_of_bytes decompressed)
                      end
                  | None => body
                  end
              | None => body
              end
          | None => body
          end
        else body
      else body
  | None => body
  end.

Definition newlines : bytes := ["010"; "010"]%char.

(** ["data: " + payload + "\n\n"] *)
Definition sseFrame (payload : bytes) : bytes :=
  Go.bytes_of_string "data: " ++ payload ++ newlines.

(** Lines 115-142: what one array element adds to [sseBuilder]. *)
Definition sseEventBytes (event : JSON) : bytes :=
  match asObject event with
  | Some eventMap =>
      match eventMap !! "data" with
      | Some eventData =>
          if decide (asString eventData = Some "[DONE]")
          then Go.bytes_of_string "data: [DONE]" ++ newlines
          else match json_Marshal eventData with
               | Some eventJSON => sseFrame eventJSON
               | None => []
               end
      | None => []
      end
  | None =>
      match json_Marshal event with
      | Some eventJSON => sseFrame eventJSON
      | None => []
      end
  end.

(** Lines 110-164; the case [[]byte] of the type switch cannot arise
    from a decoded JSON value. *)
Definition materializeBody (contentType : string) (body : JSON) : result bytes :=
  if decide (contentType = "text/event-stream") then
    match body with
    | JArray arr => inr (foldl (λ sseBuilder event, sseBuilder ++ sseEventBytes event) [] arr)
    | JString str => inr (Go.bytes_of_string str)
    | _ => inr []
    end
  else
    match body with
    | JString v => inr (Go.bytes_of_string v)
    | v => orErr errMarshal (json_Marshal v)
    end.

(** Lines 183-203: the event an array element contributes, if any. *)
Definition sseEventOf (eventItem : JSON) : option SSEEvent :=
  match asObject eventItem with
  | Some eventMap =>
      let timestamp := default 0%float (asFloat (index eventMap "timestamp")) in
      match eventMap !! "data" with
      | Some eventData =>
          let serializedData :=
            if decide (asString eventData = Some "[DONE]")
            then Go.bytes_of_string "[DONE]"
            else default [] (json_Marshal eventData) in
          Some {| Data := eventData; Timestamp := timestamp;
                  SerializedData := serializedData |}
      | None => None
      end
  | None => None
  end.

(** Lines 179-206. *)
Definition collectSSEEvents (isSSE : bool) (body : JSON) : list SSEEvent :=
  if isSSE then
    match asArray body with
    | Some arr => omap sseEventOf arr
    | None => []
    end
  else [].

(** Lines 47-56. *)
Definition resolveMockID (requestData : gmap string JSON) (fallbackMockID : string) : string :=
  match asObject (index requestData "headers") with
  | Some headers =>
      let headersLower := lowerKeys headers in
      match asString (index headersLower "x-mock-id") with
      | Some id => if decide (id ≠ "") then id else fallbackMockID
      | None => fallbackMockID
      end
  | None => fallbackMockID
  end.

(** Lines 171-177. *)
Definition resolveDelay (responseData : gmap string JSON) : float :=
  match asFloat (index responseData "delay") with
  | Some d => d
  | None =>
      match asFloat (index responseData "elapsed_seconds") with
      | Some elapsed => elapsed
      | None => 0%float
      end
  end.

(** Lines 31-226, on the decoded record. *)
Definition parseRecordTree (record : gmap string JSON) (fallbackMockID : string)
  : result MockResponse :=
  match asObject (index record "request"), asObject (index record "response") with
  | Some requestData, Some responseData =>
      let urlStr := default "" (asString (index requestData "url")) in
      let* parsedPath := orErr errURL (url_Parse_Path urlStr) in
      let path := if decide (parsedPath = "") then "/" else parsedPath in
      let mockID := resolveMockID requestData fallbackMockID in
      let responseHeaders := default ∅ (asObject (index responseData "headers")) in
      let responseHeadersStr := (responseHeaderMaps responseHeaders).1 in
      let responseHeadersLower := (responseHeaderMaps responseHeaders).2 in
      let contentType := normalizeContentType (indexStr responseHeadersLower "content-type") in
      let body := decodeGzipBody responseHeadersLower (index responseData "body") in
      let method := default "" (asString (index requestData "method")) in
      let method := if decide (method = "") then "GET" else method in
      let statusCode :=
        match asFloat (index responseData "status_code") with
        | Some sc => int_of_float64 sc
        | None => 200
        end in
      let requestID := default "" (asString (index requestData "request_id")) in
      let* bodyBytes := materializeBody contentType body in
      let headerKeysLower :=
        foldl (λ acc kv, <[toLowerASCIISimple kv.1 := kv.1]> acc) ∅
              (mapRange responseHeadersStr) in
      let delay := resolveDelay responseData in
      let isSSE := bool_decide (contentType = "text/event-stream") in
      let sseEvents := collectSSEEvents isSSE body in
      inr {| RequestID := requestID; Path := path; Method := method;
             MethodBytes := Go.bytes_of_string method; MockID := mockID;
             ContentType := contentType; StatusCode := statusCode;
             Headers := responseHeadersStr; HeaderKeysLower := headerKeysLower;
             Body := bodyBytes; OriginalBody := body; FullURL := urlStr;
             Delay := delay; SSEEvents := sseEvents; IsSSE := isSSE |}
  | _, _ => inl errInvalidRecord
  end.

(** [json.Unmarshal(data, &record)] with [record] a
    [map[string]interface{}]: an object fills the map, [null] leaves it
    [nil], anything else is an error. *)
Definition unmarshalRecord (data : bytes) : result (gmap string JSON) :=
  match json_Unmarshal data with
  | Some (JObject m) => inr m
  | Some JNull => inr ∅
  | _ => inl errJSON
  end.

Definition parseMockRecord (data : bytes) (fallbackMockID : string) : result MockResponse :=
  let* record := unmarshalRecord data in
  parseRecordTree record fallbackMockID.

Definition loadResponseFromFile (filePath fallbackMockID : string) : result MockResponse :=
  let* data := orErr errReadFile (os_ReadFile filePath) in
  parseMockRecord data fallbackMockID.

End Codec.

(** *** The index and the scenario matcher (storage.go, scenario.go) *)
Section Engine.
Context {RT : GoRuntime} {JF : JsonFilter}.

Record scenarioFilterDefinition := {
  filterBody : gmap string YamlValue;        (* Body, yaml:"body" *)
}.

Record scenarioResponseDefinition := {
  defFile : string;                          (* File, yaml:"file" *)
  defDelay : option float;                   (* Delay *float64, yaml:"delay" *)
}.

Record scenarioDefinition := {
  defName : string;
  defMethod : string;
  defPath : string;
  defFilter : scenarioFilterDefinition;
  defResponse : scenarioResponseDefinition;
}.

Record scenarioFile := {
  Scenarios : list scenarioDefinition;
}.

Record mockScenario := {
  name : string;
  path : string;
  method : string;
  methodBytes : bytes;
  filter : option Operator;                  (* a nil interface is None *)
  response : MockResponse;
}.

(** The cached stats and mock list are not modelled. *)
Record MockStorage := {
  BaseDir : string;
  Responses : gmap string (list MockResponse);
  ReplayTiming : bool;
  Jitter : float;
  scenariosEnabled : bool;
  scenarioByPath : gmap string (list mockScenario);
  scenarioOrder : list mockScenario;
}.

Definition setResponses (s : MockStorage) (r : gmap string (list MockResponse)) : MockStorage :=
  {| BaseDir := BaseDir s; Responses := r; ReplayTiming := ReplayTiming s;
     Jitter := Jitter s; scenariosEnabled := scenariosEnabled s;
     scenarioByPath := scenarioByPath s; scenarioOrder := scenarioOrder s |}.

Definition setScenarios (s : MockStorage) (enabled : bool)
    (byPath : gmap string (list mockScenario)) (order : list mockScenario) : MockStorage :=
  {| BaseDir := BaseDir s; Responses := Responses s; ReplayTiming := ReplayTiming s;
     Jitter := Jitter s; scenariosEnabled := enabled;
     scenarioByPath := byPath; scenarioOrder := order |}.

Definition SetTimingConfig (s : MockStorage) (replayTiming : bool) (jitter : float) : MockStorage :=
  {| BaseDir := BaseDir s; Responses := Responses s; ReplayTiming := replayTiming;
     Jitter := jitter; scenariosEnabled := scenariosEnabled s;
     scenarioByPath := scenarioByPath s; scenarioOrder := scenarioOrder s |}.

(** [s.Responses[key] = append(s.Responses[key], mockResponse)] *)
Definition addResponse (s : MockStorage) (mockResponse : MockResponse) : MockStorage :=
  let key := makeIndexKey (Path mockResponse) (MockID mockResponse) (ContentType mockResponse) in
  setResponses s (<[key := default [] (Responses s !! key) ++ [mockResponse]]> (Responses s)).

(** Lines 149-162 of storage.go: one file of a mock-id directory. *)
Definition loadFile (mockDir folderMockID : string) (s : MockStorage) (file : DirEntry)
  : MockStorage :=
  if IsDir file || negb (Go.HasSuffix (Name file) ".json") then s
  else
    let filePath := mockDir +:+ "/" +:+ Name file in
    match loadResponseFromFile filePath folderMockID with
    | inl _ => s
    | inr mockResponse => addResponse s mockResponse
    end.

(** Lines 135-163: one entry of the base directory. *)
Definition loadEntry (s : MockStorage) (entry : DirEntry) : MockStorage :=
  if negb (IsDir entry) then s
  else
    let folderMockID := Name entry in
    let mockDir := BaseDir s +:+ "/" +:+ folderMockID in
    match os_ReadDir mockDir with
    | None => s
    | Some files => foldl (loadFile mockDir folderMockID) s files
    end.

Definition loadResponses (s : MockStorage) : result MockStorage :=
  if os_Stat_IsNotExist (BaseDir s) then inr s
  else
    let* entries := orErr errReadDir (os_ReadDir (BaseDir s)) in
    inr (foldl loadEntry s entries).

Definition NewMockStorage (baseDir : string) : result MockStorage :=
  loadResponses {| BaseDir := baseDir; Responses := ∅; ReplayTiming := false;
                   Jitter := 0%float; scenariosEnabled := false;
                   scenarioByPath := ∅; scenarioOrder := [] |}.

(** [for _, c := range candidates { if equalFoldBytes(c.MethodBytes, methodBytes) { return c } }] *)
Fixpoint firstByMethod (candidates : list MockResponse) (methodBytes : bytes)
  : option MockResponse :=
  match candidates with
  | [] => None
  | c :: rest =>
      if equalFoldBytes (MethodBytes c) methodBytes then Some c
      else firstByMethod rest methodBytes
  end.

Definition FindResponseBytes (s : MockStorage)
    (pathBytes mockIDBytes contentTypeBytes methodBytes : bytes) : option MockResponse :=
  let idx := Go.IndexByte contentTypeBytes ";" in
  let contentTypeBytes :=
    if bool_decide (0 ≤ idx) then take (Z.to_nat idx) contentTypeBytes
    else contentTypeBytes in
  let contentTypeBytes := trimSpaceASCII contentTypeBytes in
  let key := makeIndexKeyFromBytes pathBytes mockIDBytes contentTypeBytes in
  match Responses s !! key with
  | None => None
  | Some [] => None
  | Some (first :: rest) =>
      if bool_decide (length methodBytes = 0%nat) then Some first
      else firstByMethod (first :: rest) methodBytes
  end.

Definition FindResponse (s : MockStorage) (path mockID contentType method : string)
  : option MockResponse :=
  FindResponseBytes s (Go.bytes_of_string path) (Go.bytes_of_string mockID)
                    (Go.bytes_of_string contentType) (Go.bytes_of_string method).

(** Modelled from the spec: [FindResponseBytesAnyContentType], which
    handlers.go calls and storage_test.go tests, is declared in a
    version of storage.go that is not under src/.  The specification
    (4.B) describes it: "Scans all index entries and returns the first
    whose path and mock-id match (method-filtered when supplied)." *)
Definition FindResponseBytesAnyContentType (s : MockStorage)
    (pathBytes mockIDBytes methodBytes : bytes) : option MockResponse :=
  List.find
    (λ r, bool_decide (Path r = Go.string_of_bytes pathBytes)
          && bool_decide (MockID r = Go.string_of_bytes mockIDBytes)
          && (bool_decide (length methodBytes = 0%nat)
              || equalFoldBytes (MethodBytes r) methodBytes))
    (concat (snd <$> mapRange (Responses s))).

(** Lines 94-110 of scenario.go: the delay override. *)
Definition rescale (scale : float) (e : SSEEvent) : SSEEvent :=
  {| Data := Data e; Timestamp := (Timestamp e * scale)%float;
     SerializedData := SerializedData e |}.

Definition applyDelayOverride (newDelay : float) (r : MockResponse) : MockResponse :=
  let oldDelay := Delay r in
  let events :=
    if IsSSE r && bool_decide (0 < length (SSEEvents r))%nat && (0 <? oldDelay)%float
    then let scale := (newDelay / oldDelay)%float in rescale scale <$> SSEEvents r
    else SSEEvents r in
  {| RequestID := RequestID r; Path := Path r; Method := Method r;
     MethodBytes := MethodBytes r; MockID := MockID r; ContentType := ContentType r;
     StatusCode := StatusCode r; Headers := Headers r;
     HeaderKeysLower := HeaderKeysLower r; Body := Body r;
     OriginalBody := OriginalBody r; FullURL := FullURL r;
     Delay := newDelay; SSEEvents := events; IsSSE := IsSSE r |}.

(** Lines 134-138: the record takes the scenario's identity. *)
Definition renameResponse (path method name : string) (r : MockResponse) : MockResponse :=
  {| RequestID := RequestID r; Path := path; Method := method;
     MethodBytes := Go.bytes_of_string method; MockID := name;
     ContentType := ContentType r; StatusCode := StatusCode r; Headers := Headers r;
     HeaderKeysLower := HeaderKeysLower r; Body := Body r;
     OriginalBody := OriginalBody r; FullURL := path;
     Delay := Delay r; SSEEvents := SSEEvents r; IsSSE := IsSSE r |}.

(** Lines 120-132: compiling the body filter. *)
Definition compileFilter (name : string) (def : scenarioDefinition)
  : result (option Operator) :=
  if bool_decide (0 < size (filterBody (defFilter def)))%nat then
    let* operator := orErr (errFilter name) (parser_FromMap (filterBody (defFilter def))) in
    if Validate_Valid operator then inr (Some operator)
    else inl (errFilterInvalid name)
  else inr None.

(** Lines 68-147: the body of the loop over [file.Scenarios]. *)
Definition loadScenario (baseDir : string) (idx : nat) (def : scenarioDefinition)
  : result mockScenario :=
  let name := Go.TrimSpace (defName def) in
  if decide (name = "") then inl (errMissingName (idx + 1)) else
  let path := Go.TrimSpace (defPath def) in
  if decide (path = "") then inl (errMissingPath name) else
  let responseFile := Go.TrimSpace (defFile (defResponse def)) in
  if decide (responseFile = "") then inl (errMissingFile name) else
  let resolvedFile :=
    if negb (filepath_IsAbs responseFile) then filepath_Join baseDir responseFile
    else responseFile in
  match loadResponseFromFile resolvedFile name with
  | inl err => inl (errLoadResponse name err)
  | inr mockResponse =>
      let mockResponse :=
        match defDelay (defResponse def) with
        | Some newDelay => applyDelayOverride newDelay mockResponse
        | None => mockResponse
        end in
      let method := strings_ToUpper (Go.TrimSpace (defMethod def)) in
      let method := if decide (method = "") then strings_ToUpper (Method mockResponse) else method in
      let method := if decide (method = "") then "GET" else method in
      let* operator := compileFilter name def in
      let mockResponse := renameResponse path method name mockResponse in
      inr {| name := name; path := path; method := method;
             methodBytes := Go.bytes_of_string method; filter := operator;
             response := mockResponse |}
  end.

(** The loop of lines 67-151, from scenario number [idx] on; an error
    leaves the store as the scenarios before it made it. *)
Fixpoint loadScenarios (baseDir : string) (idx : nat) (defs : list scenarioDefinition)
    (s : MockStorage) : MockStorage * option error :=
  match defs with
  | [] => (s, None)
  | def :: rest =>
      match loadScenario baseDir idx def with
      | inl err => (s, Some err)
      | inr scenario =>
          let byPath :=
            <[path scenario := default [] (scenarioByPath s !! path scenario) ++ [scenario]]>
              (scenarioByPath s) in
          loadScenarios baseDir (S idx) rest
            (setScenarios s (scenariosEnabled s) byPath (scenarioOrder s ++ [scenario]))
      end
  end.

Section Config.
(** [yaml.Unmarshal(payload, &file)] *)
Variable yaml_Unmarshal : bytes → option scenarioFile.

(** The store is updated in place: it is returned beside the error. *)
Definition LoadScenarioConfig (s : MockStorage) (configPath : string)
  : MockStorage * option error :=
  match os_ReadFile configPath with
  | None => (s, Some errScenarioRead)
  | Some payload =>
      match yaml_Unmarshal payload with
      | None => (s, Some errScenarioParse)
      | Some file =>
          if bool_decide (length (Scenarios file) = 0%nat) then (s, Some errScenarioEmpty)
          else
            let baseDir := filepath_Dir configPath in
            let s := setScenarios s (scenariosEnabled s) ∅ [] in
            match loadScenarios baseDir 0 (Scenarios file) s with
            | (s, Some err) => (s, Some err)
            | (s, None) => (setScenarios s true (scenarioByPath s) (scenarioOrder s), None)
            end
      end
  end.
End Config.

Definition HasScenarios (s : MockStorage) : bool := scenariosEnabled s.

(** Whether the loop of [MatchScenarioResponse] skips [scenario]. *)
Definition skipsMethod (scenario : mockScenario) (requestMethod : bytes) : bool :=
  bool_decide (0 < length (methodBytes scenario))%nat
  && bool_decide (0 < length requestMethod)%nat
  && negb (equalFoldBytes (methodBytes scenario) requestMethod).

Definition skipsFilter (scenario : mockScenario) (body : bytes) : bool :=
  match filter scenario with
  | Some f => negb (Evaluate_Match f body)
  | None => false
  end.

Fixpoint matchLoop (scenarios : list mockScenario) (methodBytes body : bytes)
  : option MockResponse :=
  match scenarios with
  | [] => None
  | scenario :: rest =>
      if skipsMethod scenario methodBytes then matchLoop rest methodBytes body
      else if skipsFilter scenario body then matchLoop rest methodBytes body
      else Some (response scenario)
  end.

Definition MatchScenarioResponse (s : MockStorage) (pathBytes methodBytes body : bytes)
  : option MockResponse :=
  if negb (scenariosEnabled s) then None
  else
    let scenarios := default [] (scenarioByPath s !! Go.string_of_bytes pathBytes) in
    if bool_decide (length scenarios = 0%nat) then None
    else matchLoop scenarios methodBytes body.

End Engine.
End Storage.

(** ** package handlers (handlers.go) *)
Module Handlers.
Import Storage.

(** What the handler reads of a [fasthttp.RequestCtx]. *)
Record RequestCtx := {
  ctxPath : bytes;                           (* ctx.Path() *)
  ctxMethod : bytes;                         (* ctx.Method() *)
  ctxPeekBytes : bytes → bytes;              (* ctx.Request.Header.PeekBytes *)
  ctxPostBody : bytes;                       (* ctx.PostBody() *)
}.

(** What the handler does to the response, in order. *)
Inductive headerOp :=
| HeaderSet (key value : string)             (* ctx.Response.Header.Set *)
| HeaderSetContentType (contentType : string).

Inductive bodyOp :=
| SetBody (body : bytes)
| SetBodyStreamWriter (events : list SSEEvent) (jitterScale : float).

Record Reply := {
  replyStatus : Z;                           (* ctx.SetStatusCode *)
  replyHeaders : list headerOp;
  replyBody : bodyOp;
  replySleep : option float;                 (* time.Sleep, in seconds *)
  replyLogged : bool;                        (* logger.LogNotFound was called *)
}.

Definition defaultMockID : string := "default".
Definition defaultContentType : string := "application/json".
Definition acceptAny : bytes := Go.bytes_of_string "*/*".
Definition headerXMockID : bytes := Go.bytes_of_string "x-mock-id".
Definition headerAccept : bytes := Go.bytes_of_string "Accept".
Definition headerContentType : bytes := Go.bytes_of_string "Content-Type".
Definition errorNotFound : bytes :=
  let quote := "034"%char in
  Go.bytes_of_string "{" ++ [quote] ++ Go.bytes_of_string "error" ++ [quote]
  ++ Go.bytes_of_string ":" ++ [quote] ++ Go.bytes_of_string "No mock found"
  ++ [quote] ++ Go.bytes_of_string "}".

(** handlers.go has its own copy of [trimSpaceASCII], the same text as
    the one of storage.go. *)
Definition trimSpaceASCII (s : bytes) : bytes := Storage.trimSpaceASCII s.

Definition excludeHeadersLower : gmap string bool :=
  list_to_map
    [ ("connection", true); ("keep-alive", true); ("proxy-authenticate", true);
      ("proxy-authorization", true); ("te", true); ("trailers", true);
      ("transfer-encoding", true); ("upgrade", true); ("content-encoding", true);
      ("content-length", true); ("x-mock-id", true) ].

(** [excludeHeadersLower[keyLower]]: [false] for an absent key. *)
Definition excluded (keyLower : string) : bool :=
  default false (excludeHeadersLower !! keyLower).

(** [if idx := bytes.IndexByte(b, c); idx >= 0 { b = b[:idx] }] *)
Definition cutAt (c : ascii) (b : bytes) : bytes :=
  let idx := Go.IndexByte b c in
  if bool_decide (0 ≤ idx) then take (Z.to_nat idx) b else b.

Section Handler.
Context {RT : GoRuntime} {JF : JsonFilter}.

(** Lines 121-146: which record answers the request. *)
Definition lookupMock (store : MockStorage) (ctx : RequestCtx) : option MockResponse :=
  let pathBytes := ctxPath ctx in
  let methodBytes := ctxMethod ctx in
  if HasScenarios store then
    MatchScenarioResponse store pathBytes methodBytes (ctxPostBody ctx)
  else
    let mockIDBytes := ctxPeekBytes ctx headerXMockID in
    let mockIDBytes :=
      if bool_decide (length mockIDBytes = 0%nat) then Go.bytes_of_string defaultMockID
      else mockIDBytes in
    let acceptBytes := ctxPeekBytes ctx headerAccept in
    if bool_decide (length acceptBytes = 0%nat) then
      FindResponseBytes store pathBytes mockIDBytes
                        (Go.bytes_of_string defaultContentType) methodBytes
    else if bool_decide (acceptBytes = acceptAny) then
      FindResponseBytesAnyContentType store pathBytes mockIDBytes methodBytes
    else
      let acceptBytes := cutAt "," acceptBytes in
      let acceptBytes := cutAt ";" acceptBytes in
      let acceptBytes := trimSpaceASCII acceptBytes in
      FindResponseBytes store pathBytes mockIDBytes acceptBytes methodBytes.

(** Lines 148-160. *)
Definition notFound (logger : bool) : Reply :=
  {| replyStatus := 404;
     replyHeaders := [HeaderSet (Go.string_of_bytes headerContentType) defaultContentType];
     replyBody := SetBody errorNotFound;
     replySleep := None;
     replyLogged := logger |}.

(** Lines 163-177; [rnd] is the result of [rand.Float64()]. *)
Definition replayDelay (store : MockStorage) (mockResponse : MockResponse) (rnd : float)
  : option float :=
  if ReplayTiming store && negb (IsSSE mockResponse) && (0 <? Delay mockResponse)%float then
    let delay := Delay mockResponse in
    let delay :=
      if (0 <? Jitter store)%float then
        let jitterRange := (delay * Jitter store)%float in
        let jitterAmount := ((rnd * 2 - 1) * jitterRange)%float in
        let delay := (delay + jitterAmount)%float in
        if (delay <? 0)%float then 0%float else delay
      else delay in
    Some delay
  else None.

(** Lines 183-191: the headers copied from the record, and whether one
    of them was the content type. *)
Definition copyHeaders (mockResponse : MockResponse) : list headerOp * bool :=
  foldl (λ acc entry,
           let keyLower := entry.1 in
           let key := entry.2 in
           if negb (excluded keyLower) then
             (acc.1 ++ [HeaderSet key (indexStr (Headers mockResponse) key)],
              if decide (keyLower = "content-type") then true else acc.2)
           else acc)
        ([], false) (mapRange (HeaderKeysLower mockResponse)).

(** Lines 194-200. *)
Definition contentTypeHeader (mockResponse : MockResponse) (contentTypeSet : bool)
  : list headerOp :=
  if negb contentTypeSet then
    if decide (ContentType mockResponse ≠ "")
    then [HeaderSetContentType (ContentType mockResponse)]
    else [HeaderSetContentType defaultContentType]
  else [].

(** Lines 203-233. *)
Definition replyBodyOf (store : MockStorage) (mockResponse : MockResponse) (rnd : float)
  : bodyOp :=
  if IsSSE mockResponse && bool_decide (0 < length (SSEEvents mockResponse))%nat then
    if ReplayTiming store then
      let jitterScale :=
        if (0 <? Jitter store)%float then
          let jitterAmount := ((rnd * 2 - 1) * Jitter store)%float in
          let jitterScale := (1 + jitterAmount)%float in
          if (jitterScale <? 0)%float then 0%float else jitterScale
        else 1%float in
      SetBodyStreamWriter (SSEEvents mockResponse) jitterScale
    else SetBody (Body mockResponse)
  else SetBody (Body mockResponse).

(** [logger] tells whether a 404 logger is configured; [rnd] is what
    [rand.Float64()] returns if it is called. *)
Definition MockHandler (store : MockStorage) (logger : bool) (rnd : float) (ctx : RequestCtx)
  : Reply :=
  match lookupMock store ctx with
  | None => notFound logger
  | Some mockResponse =>
      let copied := copyHeaders mockResponse in
      {| replyStatus := StatusCode mockResponse;
         replyHeaders := copied.1 ++ contentTypeHeader mockResponse copied.2;
         replyBody := replyBodyOf store mockResponse rnd;
         replySleep := replayDelay store mockResponse rnd;
         replyLogged := false |}
  end.

End Handler.
End Handlers.

(** ** package main (cmd/auto-mock-server, part_009): building the store *)
Module Main.
Import Storage.

Section Startup.
Context {RT : GoRuntime} {JF : JsonFilter}.
Variable yaml_Unmarshal : bytes → option scenarioFile.

(** [main] up to the creation of the router: the store that serves the
    requests, unless start-up ends in [log.Fatalf]. *)
Definition startup (mockDir scenarioConfig : string) (replayTiming : bool) (jitter : float)
  : result MockStorage :=
  let* store := NewMockStorage mockDir in
  let* store :=
    if decide (scenarioConfig ≠ "") then
      match LoadScenarioConfig yaml_Unmarshal store scenarioConfig with
      | (_, Some err) => inl err
      | (store, None) => inr store
      end
    else inr store in
  inr (SetTimingConfig store replayTiming jitter).

End Startup.
End Main.

(** ** package storage: statistics and listings (storage.go) *)
Module Listing.
Import Storage.

(** The [map[string]interface{}] that [computeStats] and
    [computeScenarioStats] return. *)
Record Stats := {
  total_responses : Z;
  unique_paths : Z;
  unique_mock_ids : Z;
  paths : list string;
}.




Section Listing.
Context {RT : GoRuntime} {JF : JsonFilter}.

(** Lines 205-215 of storage.go: one entry of [s.Responses]. *)
Definition countResponses (acc : Z * gmap string bool * gmap string bool)
    (responses : list MockResponse) : Z * gmap string bool * gmap string bool :=
  let total := acc.1.1 + Z.of_nat (length responses) in
  match responses with
  | resp :: _ =>
      (total, <[Path resp := true]> acc.1.2,
       if decide (MockID resp ≠ "") then <[MockID resp := true]> acc.2 else acc.2)
  | [] => (total, acc.1.2, acc.2)
  end.

Definition computeStats (s : MockStorage) : Stats :=
  let counted :=
    foldl (λ acc entry, countResponses acc entry.2) (0, ∅, ∅) (mapRange (Responses s)) in
  let uniquePaths := counted.1.2 in
  let uniqueMockIDs := counted.2 in
  let paths := foldl (λ paths entry, paths ++ [entry.1]) [] (mapRange uniquePaths) in
  {| total_responses := counted.1.1;
     unique_paths := Z.of_nat (size uniquePaths);
     unique_mock_ids := Z.of_nat (size uniqueMockIDs);
     paths := paths |}.

Definition computeScenarioStats (s : MockStorage) : Stats :=
  let total := Z.of_nat (length (scenarioOrder s)) in
  let uniquePaths :=
    foldl (λ acc scenario, <[path scenario := true]> acc) (∅ : gmap string bool)
          (scenarioOrder s) in
  let uniqueMockIDs :=
    foldl (λ acc scenario, <[name scenario := true]> acc) (∅ : gmap string bool)
          (scenarioOrder s) in
  let paths := foldl (λ paths entry, paths ++ [entry.1]) [] (mapRange uniquePaths) in
  {| total_responses := total;
     unique_paths := Z.of_nat (size uniquePaths);
     unique_mock_ids := Z.of_nat (size uniqueMockIDs);
     paths := paths |}.

(** [for _, responses := range s.Responses { allResponses = append(allResponses, responses...) }] *)
Definition allResponses (s : MockStorage) : list MockResponse :=
  foldl (λ all entry, all ++ entry.2) [] (mapRange (Responses s)).



Definition ListAllMocks (s : MockStorage) : list MockResponse :=
  if scenariosEnabled s
  then foldl (λ responses scenario, responses ++ [response scenario]) [] (scenarioOrder s)
  else allResponses s.

Definition GetStats (s : MockStorage) : Stats :=
  if scenariosEnabled s then computeScenarioStats s else computeStats s.


End Listing.
End Listing.

(** ** package handlers: the stream writer (handlers.go, lines 55-90) *)
Module Replay.
Import Storage.

Definition sseDataPrefix : bytes := Go.bytes_of_string "data: ".
Definition sseDataSuffix : bytes := ["010"; "010"]%char.

(** What [StreamTo] does for one event: it sleeps until [flushAt]
    seconds after the start of the stream, then writes [flushed] (three
    writes) and flushes. *)
Record flush := {
  flushAt : float;
  flushed : bytes;
}.

Definition StreamTo (events : list SSEEvent) (jitterScale : float) : list flush :=
  (λ event,
     let effectiveTimestamp := (Timestamp event * jitterScale)%float in
     {| flushAt := effectiveTimestamp;
        flushed := sseDataPrefix ++ SerializedData event ++ sseDataSuffix |}) <$> events.

End Replay.

(** ** package storage: the 404 logger (part_005), as far as it names
       its files *)
Module NotFound.

(** [strings.ReplaceAll(s, old, new)] for one-byte [old] and [new]. *)
Fixpoint replaceByte (old new : ascii) (s : string) : string :=
  match s with
  | EmptyString => EmptyString
  | String c s' => String (if Ascii.eqb c old then new else c) (replaceByte old new s')
  end.

(** [if idx := strings.IndexByte(s, c); idx >= 0 { s = s[:idx] }] *)
Definition cutString (c : ascii) (s : string) : string :=
  let idx := Go.IndexByte (Go.bytes_of_string s) c in
  if bool_decide (0 ≤ idx)
  then Go.string_of_bytes (take (Z.to_nat idx) (Go.bytes_of_string s))
  else s.

Definition sanitizeContentType (contentType : string) : string :=
  let contentType := cutString ";" contentType in
  let contentType := Go.TrimSpace contentType in
  let contentType := replaceByte "/" "_" contentType in
  let contentType := replaceByte "+" "_" contentType in
  let contentType := replaceByte "." "_" contentType in
  if decide (contentType = "") then "unknown" else contentType.

(** [LogNotFound], lines 121-140: the name of the file, from the
    [Accept] header of the request, the time stamp and the random hex
    string. *)
Definition logFileName (accept ts randomHex : string) : string :=
  let contentType :=
    if decide (accept = "" ∨ accept = "*/*") then "application/json"
    else Go.TrimSpace (cutString ";" (cutString "," accept)) in
  let safeContentType := sanitizeContentType contentType in
  safeContentType +:+ "_" +:+ ts +:+ "_" +:+ randomHex +:+ ".json".

End NotFound.

(** ** Fixtures: a runtime for the examples

    A small file system and the values of the library functions on the
    inputs that the examples below use.  The decoders are tables over
    those inputs; base64 is the standard alphabet with padding. *)
Module Fixture.
Import Storage.

Definition quote : ascii := "034"%char.

(** The pieces joined by double quotes: the JSON text
    [{"a":"b"}] is [jsonText ["{"; "a"; ":"; "b"; "}"]]. *)
Fixpoint jsonText (pieces : list string) : bytes :=
  match pieces with
  | [] => []
  | [p] => Go.bytes_of_string p
  | p :: rest => Go.bytes_of_string p ++ quote :: jsonText rest
  end.

Definition upperByte (c : ascii) : ascii :=
  let n := N_of_ascii c in
  if (97 <=? n)%N && (n <=? 122)%N then ascii_of_N (n - 32) else c.

(** [strings.ToLower] and [strings.ToUpper] on ASCII strings. *)
Definition toLowerASCII (s : string) : string := toLowerASCIISimple s.

Fixpoint toUpperASCII (s : string) : string :=
  match s with
  | EmptyString => EmptyString
  | String c s' => String (upperByte c) (toUpperASCII s')
  end.

(** [int(f)] for a finite [f] within the range of [int]: truncation. *)
Definition truncate (f : float) : Z :=
  match Prim2SF f with
  | S754_finite sign m e =>
      let v := if (0 <=? e)%Z then (Z.pos m * 2 ^ e)%Z else (Z.pos m / 2 ^ (- e))%Z in
      if sign then (- v)%Z else v
  | _ => 0
  end.

(** The path of an [http://host/path] URL without query or fragment,
    and of the empty URL. *)
Fixpoint afterHost (b : bytes) : bytes :=
  match b with
  | [] => []
  | c :: b' => if Ascii.eqb c "/" then b else afterHost b'
  end.

Definition urlPath (s : string) : option string :=
  match s with
  | EmptyString => Some EmptyString
  | _ =>
      let b := Go.bytes_of_string s in
      let scheme := Go.bytes_of_string "http://" in
      if bool_decide (take 7 b = scheme)
      then Some (Go.string_of_bytes (afterHost (drop 7 b)))
      else None
  end.

Definition b64value (c : ascii) : option N :=
  let n := N_of_ascii c in
  if (65 <=? n)%N && (n <=? 90)%N then Some (n - 65)%N
  else if (97 <=? n)%N && (n <=? 122)%N then Some (n - 71)%N
  else if (48 <=? n)%N && (n <=? 57)%N then Some (n + 4)%N
  else if (n =? 43)%N then Some 62%N
  else if (n =? 47)%N then Some 63%N
  else None.

(** Four characters of base64 are three bytes; [=] pads the last group. *)
Fixpoint base64Decode (s : bytes) : option bytes :=
  match s with
  | [] => Some []
  | a :: b :: c :: d :: rest =>
      va ← b64value a; vb ← b64value b;
      let x := ascii_of_N (va * 4 + vb / 16) in
      if Ascii.eqb d "=" then
        match rest with
        | [] =>
            if Ascii.eqb c "=" then Some [x]
            else vc ← b64value c; Some [x; ascii_of_N ((vb mod 16) * 16 + vc / 4)]
        | _ => None
        end
      else
        vc ← b64value c; vd ← b64value d;
        tail ← base64Decode rest;
        Some (x :: ascii_of_N ((vb mod 16) * 16 + vc / 4)
                :: ascii_of_N ((vc mod 4) * 64 + vd) :: tail)
  | _ => None
  end.

Definition bytesOfCodes (l : list N) : bytes := ascii_of_N <$> l.

(** A gzip stream with a ten-byte header (deflate, no flags). *)
Definition gzipHeader (b : bytes) : option bytes :=
  if bool_decide (take 4 b = bytesOfCodes [31; 139; 8; 0]%N) && bool_decide (10 ≤ length b)%nat
  then Some (drop 10 b) else None.

(** The deflate streams of [hello] and of [{"a":1}], with their trailers. *)
Definition deflated : list (bytes * bytes) :=
  [ (bytesOfCodes [203; 72; 205; 201; 201; 7; 0; 134; 166; 16; 54; 5; 0; 0; 0]%N,
     Go.bytes_of_string "hello");
    (bytesOfCodes [171; 86; 74; 84; 178; 50; 172; 5; 0; 175; 172; 27; 86; 7; 0; 0; 0]%N,
     jsonText ["{"; "a"; ":1}"]) ].

Definition lookupBytes {A : Type} (table : list (bytes * A)) (key : bytes) : option A :=
  snd <$> List.find (λ entry, bool_decide (entry.1 = key)) table.

(** The files of the examples. *)
Definition recordText (url body : string) : bytes :=
  jsonText ["{"; "request"; ":{"; "method"; ":"; "GET"; ","; "url"; ":"; url;
            "},"; "response"; ":{"; "status_code"; ":200,"; "body"; ":"; body; "}}"].

Definition recordTree (url body : string) : JSON :=
  JObject (list_to_map
    [ ("request", JObject (list_to_map [("method", JString "GET"); ("url", JString url)]));
      ("response", JObject (list_to_map [("status_code", JNumber 200); ("body", JString body)])) ]).

Definition event (data : string) (timestamp : float) : JSON :=
  JObject (list_to_map [("data", JString data); ("timestamp", JNumber timestamp)]).

(** The record of example E of the specification: five events at
    0.1, ..., 0.5 seconds, and a delay of 5 seconds. *)
Definition streamText : bytes :=
  jsonText ["{"; "request"; ":{"; "method"; ":"; "GET"; ","; "url"; ":"; "http://u/stream";
            "},"; "response"; ":{"; "status_code"; ":200,"; "headers"; ":{"; "Content-Type";
            ":"; "text/event-stream"; "},"; "delay"; ":5.0,"; "body"; ":[{"; "data"; ":"; "a";
            ","; "timestamp"; ":0.1},{"; "data"; ":"; "b"; ","; "timestamp"; ":0.2},{";
            "data"; ":"; "c"; ","; "timestamp"; ":0.3},{"; "data"; ":"; "d"; ",";
            "timestamp"; ":0.4},{"; "data"; ":"; "[DONE]"; ","; "timestamp"; ":0.5}]}}"].

Definition streamTree : JSON :=
  JObject (list_to_map
    [ ("request", JObject (list_to_map [("method", JString "GET");
                                         ("url", JString "http://u/stream")]));
      ("response", JObject (list_to_map
         [ ("status_code", JNumber 200);
           ("headers", JObject (list_to_map [("Content-Type", JString "text/event-stream")]));
           ("delay", JNumber 5.0);
           ("body", JArray [event "a" 0.1; event "b" 0.2; event "c" 0.3; event "d" 0.4;
                            event "[DONE]" 0.5]) ])) ]).

(** A stream whose last event comes when the recorded delay is over:
    three events at 1, 2.5 and 5 seconds, and a delay of 5 seconds. *)
Definition pacedText : bytes :=
  jsonText ["{"; "request"; ":{"; "method"; ":"; "GET"; ","; "url"; ":"; "http://u/paced";
            "},"; "response"; ":{"; "status_code"; ":200,"; "headers"; ":{"; "Content-Type";
            ":"; "text/event-stream"; "},"; "delay"; ":5.0,"; "body"; ":[{"; "data"; ":"; "a";
            ","; "timestamp"; ":1.0},{"; "data"; ":"; "b"; ","; "timestamp"; ":2.5},{";
            "data"; ":"; "[DONE]"; ","; "timestamp"; ":5.0}]}}"].

Definition pacedTree : JSON :=
  JObject (list_to_map
    [ ("request", JObject (list_to_map [("method", JString "GET");
                                         ("url", JString "http://u/paced")]));
      ("response", JObject (list_to_map
         [ ("status_code", JNumber 200);
           ("headers", JObject (list_to_map [("Content-Type", JString "text/event-stream")]));
           ("delay", JNumber 5.0);
           ("body", JArray [event "a" 1.0; event "b" 2.5; event "[DONE]" 5.0]) ])) ]).

(** A record without [status_code] and without [method]. *)
Definition bareText : bytes :=
  jsonText ["{"; "request"; ":{"; "url"; ":"; "http://u/ping"; "},"; "response"; ":{";
            "body"; ":"; "pong"; "}}"].

Definition bareRequest : gmap string JSON := {["url" := JString "http://u/ping"]}.
Definition bareResponse : gmap string JSON := {["body" := JString "pong"]}.
Definition bareRecord : gmap string JSON :=
  list_to_map [("request", JObject bareRequest); ("response", JObject bareResponse)].

(** An event stream recorded as one string. *)
Definition textStreamText : bytes :=
  jsonText ["{"; "request"; ":{"; "method"; ":"; "GET"; ","; "url"; ":"; "http://u/events";
            "},"; "response"; ":{"; "status_code"; ":200,"; "headers"; ":{"; "Content-Type";
            ":"; "text/event-stream; charset=utf-8"; "},"; "body"; ":"; "data: hi"; "}}"].

Definition textStreamRecord : gmap string JSON :=
  list_to_map
    [ ("request", JObject (list_to_map [("method", JString "GET");
                                         ("url", JString "http://u/events")]));
      ("response", JObject (list_to_map
         [ ("status_code", JNumber 200);
           ("headers", JObject (list_to_map
              [("Content-Type", JString "text/event-stream; charset=utf-8")]));
           ("body", JString "data: hi") ])) ].

(** A record with a gzip body, given in base64. *)
Definition gzipHeaders : gmap string JSON := {["Content-Encoding" := JString "gzip"]}.

Definition gzipResponse (body : string) : gmap string JSON :=
  list_to_map [ ("status_code", JNumber 200); ("headers", JObject gzipHeaders);
                ("body", JString body) ].

Definition gzipRecord (body : string) : gmap string JSON :=
  list_to_map
    [ ("request", JObject (list_to_map [("method", JString "GET");
                                         ("url", JString "http://u/greeting")]));
      ("response", JObject (gzipResponse body)) ].

(** [hello], gzipped, in base64. *)
Definition helloGzipBase64 : string := "H4sIAAAAAAAC/8tIzcnJBwCGphA2BQAAAA==".

(** A record with response headers, one of them [Content-Length]. *)
Definition helloText : bytes :=
  jsonText ["{"; "request"; ":{"; "method"; ":"; "GET"; ","; "url"; ":"; "http://u/hello";
            "},"; "response"; ":{"; "status_code"; ":200,"; "headers"; ":{"; "Content-Type";
            ":"; "text/plain"; ","; "Content-Length"; ":"; "5"; ","; "X-Trace"; ":"; "abc";
            "},"; "body"; ":"; "hello"; "}}"].

Definition helloRecord : gmap string JSON :=
  list_to_map
    [ ("request", JObject (list_to_map [("method", JString "GET");
                                         ("url", JString "http://u/hello")]));
      ("response", JObject (list_to_map
         [ ("status_code", JNumber 200);
           ("headers", JObject (list_to_map
              [ ("Content-Type", JString "text/plain"); ("Content-Length", JString "5");
                ("X-Trace", JString "abc") ]));
           ("body", JString "hello") ])) ].

Definition files : list (string * bytes) :=
  [ ("mocks/default/a.json", recordText "http://u/users/1" "first");
    ("mocks/api/hello.json", helloText);
    ("mocks/default/b.json", recordText "http://u/users/1" "second");
    ("mocks/default/notes.txt", Go.bytes_of_string "not a record");
    ("fixtures/stream.json", streamText);
    ("fixtures/a.json", recordText "http://u/users/1" "first");
    ("fixtures/paced.json", pacedText);
    ("fixtures/scenarios.yml",
       Go.bytes_of_string
         "scenarios: [{name: ready, path: /api, method: post, filter: {body: {equals: ok}}, response: {file: stream.json, delay: 1.0}}, {name: fallback, path: /api, method: post, response: {file: a.json}}]") ].

Definition directories : list (string * list DirEntry) :=
  [ ("mocks", [ {| Name := "default"; IsDir := true |};
                {| Name := "README.md"; IsDir := false |};
                {| Name := "api"; IsDir := true |} ]);
    ("mocks/api", [ {| Name := "hello.json"; IsDir := false |} ]);
    ("mocks/default", [ {| Name := "a.json"; IsDir := false |};
                        {| Name := "b.json"; IsDir := false |};
                        {| Name := "notes.txt"; IsDir := false |} ]) ].

Definition lookupString {A : Type} (table : list (string * A)) (key : string) : option A :=
  snd <$> List.find (λ entry, bool_decide (entry.1 = key)) table.

Definition decoded : list (bytes * JSON) :=
  [ (recordText "http://u/users/1" "first", recordTree "http://u/users/1" "first");
    (recordText "http://u/users/1" "second", recordTree "http://u/users/1" "second");
    (streamText, streamTree);
    (pacedText, pacedTree);
    (bareText, JObject bareRecord);
    (helloText, JObject helloRecord);
    (textStreamText, JObject textStreamRecord);
    (jsonText ["{"; "a"; ":1}"], JObject (list_to_map [("a", JNumber 1)])) ].

(** [json.Marshal] of a string without characters to escape, of a
    Boolean and of [nil]. *)
Definition marshal (v : JSON) : option bytes :=
  match v with
  | JString s => Some (quote :: Go.bytes_of_string s ++ [quote])
  | JBool true => Some (Go.bytes_of_string "true")
  | JBool false => Some (Go.bytes_of_string "false")
  | JNull => Some (Go.bytes_of_string "null")
  | _ => None
  end.

#[export] Instance runtime : GoRuntime := {|
  mapRange := λ V m, map_to_list m;
  mapRange_perm := λ V m, reflexivity (map_to_list m);
  json_Unmarshal := lookupBytes decoded;
  json_Marshal := marshal;
  url_Parse_Path := urlPath;
  base64_DecodeString := λ s, base64Decode (Go.bytes_of_string s);
  gzip_NewReader := gzipHeader;
  gzip_ReadAll := lookupBytes deflated;
  strings_ToLower := toLowerASCII;
  strings_ToUpper := toUpperASCII;
  int_of_float64 := truncate;
  os_ReadFile := lookupString files;
  os_ReadDir := lookupString directories;
  os_Stat_IsNotExist := λ p, bool_decide (lookupString directories p = None);
  filepath_Dir := λ p, "fixtures";
  filepath_IsAbs := λ p, false;
  filepath_Join := λ dir file, dir +:+ "/" +:+ file;
|}.

(** A stand-in for jsonfilter: the one predicate [equals], which holds
    of the body that is the given text. *)
#[export] Instance equalsFilter : JsonFilter := {|
  YamlValue := string;
  Operator := bytes;
  parser_FromMap := λ m, Go.bytes_of_string <$> (m !! "equals");
  Validate_Valid := λ _, true;
  Evaluate_Match := λ operator body, bool_decide (body = operator);
|}.

(** The scenario of example E: the recorded stream, with the delay
    overridden to one second. *)
Definition readyDefinition : scenarioDefinition :=
  {| defName := "ready"; defMethod := "post"; defPath := "/api";
     defFilter := {| filterBody := {["equals" := "ok"]} |};
     defResponse := {| defFile := "stream.json"; defDelay := Some 1.0%float |} |}.

Definition fallbackDefinition : scenarioDefinition :=
  {| defName := "fallback"; defMethod := "post"; defPath := "/api";
     defFilter := {| filterBody := ∅ |};
     defResponse := {| defFile := "a.json"; defDelay := None |} |}.

(** Scenarios without a filter: example E, and the paced stream, both
    with the delay overridden to one second. *)
Definition streamDefinition : scenarioDefinition :=
  {| defName := "stream"; defMethod := "get"; defPath := "/stream";
     defFilter := {| filterBody := ∅ |};
     defResponse := {| defFile := "stream.json"; defDelay := Some 1.0%float |} |}.

Definition pacedDefinition : scenarioDefinition :=
  {| defName := "paced"; defMethod := "get"; defPath := "/paced";
     defFilter := {| filterBody := ∅ |};
     defResponse := {| defFile := "paced.json"; defDelay := Some 1.0%float |} |}.

Definition scenarios : scenarioFile :=
  {| Scenarios := [readyDefinition; fallbackDefinition] |}.

Definition yaml (payload : bytes) : option scenarioFile :=
  if bool_decide (Some payload = lookupString files "fixtures/scenarios.yml")
  then Some scenarios else None.

(** The store of the directory [mocks], and the same store with the
    scenarios of [fixtures/scenarios.yml]. *)
Definition emptyStore : MockStorage :=
  {| BaseDir := "mocks"; Responses := ∅; ReplayTiming := false; Jitter := 0%float;
     scenariosEnabled := false; scenarioByPath := ∅; scenarioOrder := [] |}.

Definition mockStore : MockStorage :=
  match NewMockStorage "mocks" with
  | inr store => store
  | inl _ => emptyStore
  end.

Definition scenarioStore : MockStorage :=
  (LoadScenarioConfig yaml mockStore "fixtures/scenarios.yml").1.

(** Requests: [GET path] with the given [x-mock-id] and [Accept]
    headers, and with the given body. *)
Definition request (method path mockID accept body : string) : Handlers.RequestCtx :=
  {| Handlers.ctxPath := Go.bytes_of_string path;
     Handlers.ctxMethod := Go.bytes_of_string method;
     Handlers.ctxPeekBytes := λ header,
       if bool_decide (header = Handlers.headerXMockID) then Go.bytes_of_string mockID
       else if bool_decide (header = Handlers.headerAccept) then Go.bytes_of_string accept
       else [];
     Handlers.ctxPostBody := Go.bytes_of_string body |}.

End Fixture.

(** ** The specification's words, as definitions of their own *)
Module Spec.

(** The white space of the specification's "trim": space, tab, CR, LF. *)
Definition isBlank (c : ascii) : bool :=
  match c with
  | " " | "009" | "013" | "010" => true
  | _ => false
  end%char.

Fixpoint dropBlanks (s : bytes) : bytes :=
  match s with
  | c :: s' => if isBlank c then dropBlanks s' else s
  | [] => []
  end.

(** "whitespace trimmed": blanks removed at both ends *)
Definition trimmed (s : bytes) : bytes := rev (dropBlanks (rev (dropBlanks s))).

(** "parameters after [;] stripped" *)
Fixpoint stripParameters (s : bytes) : bytes :=
  match s with
  | [] => []
  | c :: s' => if Ascii.eqb c ";" then [] else c :: stripParameters s'
  end.

(** A content type, normalized. *)
Definition normalized (contentType : bytes) : bytes := trimmed (stripParameters contentType).

(** "approximately", up to a tolerance *)
Definition approx (tolerance a b : float) : bool := (abs (a - b) <=? tolerance)%float.

(** "the maximum event timestamp" of a non-negative list *)
Definition maximum (timestamps : list float) : float :=
  foldr (λ t m, if (m <? t)%float then t else m) 0%float timestamps.

(** "non-negative and finite": [0 ≤ t < ∞] *)
Definition finiteNonNegative (t : float) : bool := ((0 <=? t) && (t <? infinity))%float.

(** "an ordinary delay": between 1e-100 and 1e100 seconds *)
Definition ordinary (t : float) : bool := ((1e-100 <=? t) && (t <=? 1e100))%float.

(** "approximately", with a relative tolerance: [a] lies between
    [b * (1 - tolerance)] and [b * (1 + tolerance)] *)
Definition approxRelative (tolerance a b : float) : bool :=
  ((b * (1 - tolerance) <=? a) && (a <=? b * (1 + tolerance)))%float.

(** "case-insensitively": an upper-case ASCII letter counts as its
    lower-case letter *)
Definition foldCase (c : ascii) : ascii :=
  match c with
  | "A" => "a" | "B" => "b" | "C" => "c" | "D" => "d" | "E" => "e" | "F" => "f"
  | "G" => "g" | "H" => "h" | "I" => "i" | "J" => "j" | "K" => "k" | "L" => "l"
  | "M" => "m" | "N" => "n" | "O" => "o" | "P" => "p" | "Q" => "q" | "R" => "r"
  | "S" => "s" | "T" => "t" | "U" => "u" | "V" => "v" | "W" => "w" | "X" => "x"
  | "Y" => "y" | "Z" => "z"
  | _ => c
  end%char.

Definition sameIgnoringCase (a b : bytes) : Prop := foldCase <$> a = foldCase <$> b.

Section Matching.
Context {JF : JsonFilter}.

(** "Skip a scenario if both method bytes are non-empty and differ
    case-insensitively": the request method matches the scenario's
    method when one of them is empty or they are the same up to case. *)
Definition methodMatches (scenario : Storage.mockScenario) (requestMethod : bytes) : Prop :=
  Storage.method scenario = EmptyString ∨ requestMethod = []
  ∨ sameIgnoringCase (Go.bytes_of_string (Storage.method scenario)) requestMethod.

(** "If the scenario has a predicate, evaluate it against the body
    bytes; skip on no-match": the body satisfies the scenario's
    predicate, if it has one. *)
Definition predicateHolds (scenario : Storage.mockScenario) (body : bytes) : Prop :=
  ∀ predicate, Storage.filter scenario = Some predicate → Evaluate_Match predicate body = true.

(** "the scenario matches" a request method and body *)
Definition matches (scenario : Storage.mockScenario) (requestMethod body : bytes) : Prop :=
  methodMatches scenario requestMethod ∧ predicateHolds scenario body.

End Matching.

(** The header names that are never to reach the client. *)
Definition neverCopied : list string :=
  [ "x-mock-id"; "content-length"; "content-encoding"; "connection"; "keep-alive";
    "proxy-authenticate"; "proxy-authorization"; "te"; "trailers"; "transfer-encoding";
    "upgrade" ].

(** "missing or non-numeric", "missing or non-string" *)
Definition notNumber (v : option JSON) : Prop := ∀ f, v ≠ Some (JNumber f).
Definition notString (v : option JSON) : Prop := ∀ s, v ≠ Some (JString s).

End Spec.

(** * Properties *)

Import Storage.

(** ** Conversions between strings and byte slices *)

Lemma bytes_of_string_of_bytes (b : bytes) :
  Go.bytes_of_string (Go.string_of_bytes b) = b.
Proof. apply list_ascii_of_string_of_list_ascii. Qed.

Lemma string_of_bytes_of_string (s : string) :
  Go.string_of_bytes (Go.bytes_of_string s) = s.
Proof. apply string_of_list_ascii_of_string. Qed.

Lemma string_of_bytes_app (a b : bytes) :
  Go.string_of_bytes (a ++ b) = Go.string_of_bytes a +:+ Go.string_of_bytes b.
Proof.
  induction a as [|c a IH]; simpl; [done|].
  unfold Go.string_of_bytes in *. simpl. by rewrite IH.
Qed.

Lemma bytes_of_string_inj (s t : string) :
  Go.bytes_of_string s = Go.bytes_of_string t → s = t.
Proof.
  intros E. rewrite <- (string_of_bytes_of_string s), <- (string_of_bytes_of_string t).
  by rewrite E.
Qed.

Lemma string_app_assoc (a b c : string) : (a +:+ b) +:+ c = a +:+ (b +:+ c).
Proof.
  induction a as [|x a IH]; [done|].
  change (String x (a +:+ b) +:+ c = String x (a +:+ (b +:+ c))).
  change (String x ((a +:+ b) +:+ c) = String x (a +:+ (b +:+ c))).
  by rewrite IH.
Qed.

Lemma makeIndexKeyFromBytes_of_strings (p m c : string) :
  makeIndexKeyFromBytes (Go.bytes_of_string p) (Go.bytes_of_string m) (Go.bytes_of_string c)
  = makeIndexKey p m c.
Proof.
  unfold makeIndexKeyFromBytes, makeIndexKey. simpl.
  rewrite !string_of_bytes_app, !string_of_bytes_of_string.
  change (Go.string_of_bytes ["|"%char]) with "|".
  by rewrite !string_app_assoc.
Qed.

(** ** [bytes.IndexByte] and cutting at a separator *)

Lemma indexByteFrom_absent (b : bytes) (c : ascii) (i : Z) :
  c ∉ b → Go.indexByteFrom b c i = -1.
Proof.
  revert i. induction b as [|x b IH]; intros i Hc; simpl; [done|].
  apply not_elem_of_cons in Hc as [Hx Hb].
  destruct (Ascii.eqb_spec x c) as [->|_]; [done|]. by apply IH.
Qed.

Lemma indexByteFrom_present (b : bytes) (c : ascii) (i : Z) :
  c ∈ b → i ≤ Go.indexByteFrom b c i.
Proof.
  revert i. induction b as [|x b IH]; intros i Hc; [by apply elem_of_nil in Hc|].
  simpl. destruct (Ascii.eqb_spec x c) as [->|Hne]; [lia|].
  apply elem_of_cons in Hc as [->|Hc]; [done|].
  specialize (IH (i + 1) Hc). lia.
Qed.

Lemma indexByteFrom_prefix (b : bytes) (c : ascii) (i : Z) :
  c ∈ b → c ∉ take (Z.to_nat (Go.indexByteFrom b c i - i)) b.
Proof.
  revert i. induction b as [|x b IH]; intros i Hc; [by apply elem_of_nil in Hc|].
  simpl. destruct (Ascii.eqb_spec x c) as [->|Hne].
  - replace (i - i) with 0 by lia. apply not_elem_of_nil.
  - apply elem_of_cons in Hc as [->|Hc]; [done|].
    pose proof (indexByteFrom_present b c (i + 1) Hc) as Hle.
    replace (Z.to_nat (Go.indexByteFrom b c (i + 1) - i))
      with (S (Z.to_nat (Go.indexByteFrom b c (i + 1) - (i + 1)))) by lia.
    simpl. apply not_elem_of_cons. split; [congruence|by apply IH].
Qed.

Lemma cutAt_absent (c : ascii) (b : bytes) : c ∉ Handlers.cutAt c b.
Proof.
  unfold Handlers.cutAt, Go.IndexByte.
  destruct (decide (c ∈ b)) as [Hin|Hout].
  - pose proof (indexByteFrom_present b c 0 Hin).
    rewrite bool_decide_eq_true_2 by done.
    pose proof (indexByteFrom_prefix b c 0 Hin) as H1. by rewrite Z.sub_0_r in H1.
  - rewrite indexByteFrom_absent by done. by rewrite bool_decide_eq_false_2 by lia.
Qed.

Lemma cutAt_id (c : ascii) (b : bytes) : c ∉ b → Handlers.cutAt c b = b.
Proof.
  intros Hout. unfold Handlers.cutAt, Go.IndexByte.
  rewrite indexByteFrom_absent by done. by rewrite bool_decide_eq_false_2 by lia.
Qed.

(** ** [trimSpaceASCII]: the two index loops against the structural trim *)

Lemma dropBlanks_suffix (s : bytes) : Spec.dropBlanks s `suffix_of` s.
Proof.
  induction s as [|c s IH]; simpl; [done|].
  destruct (Spec.isBlank c); [by apply suffix_cons_r|done].
Qed.

Lemma dropBlanks_head (s : bytes) (c : ascii) :
  head (Spec.dropBlanks s) = Some c → Spec.isBlank c = false.
Proof.
  induction s as [|x s IH]; simpl; [done|].
  destruct (Spec.isBlank x) eqn:E; [done|]. simpl. by intros [= <-].
Qed.

Lemma dropBlanks_fix (s : bytes) :
  (∀ c, head s = Some c → Spec.isBlank c = false) → Spec.dropBlanks s = s.
Proof.
  destruct s as [|x s]; simpl; [done|]. intros H. by rewrite (H x).
Qed.

Lemma trimLeadingLoop_spec (fuel : nat) (s : bytes) (start : nat) :
  (start ≤ length s)%nat → (length s - start ≤ fuel)%nat →
  (start ≤ trimLeadingLoop fuel s start (length s) ≤ length s)%nat
  ∧ drop (trimLeadingLoop fuel s start (length s)) s = Spec.dropBlanks (drop start s).
Proof.
  revert start. induction fuel as [|fuel IH]; intros start Hle Hfuel; simpl.
  - split; [lia|]. by rewrite drop_ge by lia.
  - case_bool_decide as Hlt; simpl.
    + destruct (lookup_lt_is_Some_2 s start Hlt) as [c Hc].
      unfold spaceAt. rewrite Hc, (drop_S s c start Hc). simpl.
      change (isSpaceASCII c) with (Spec.isBlank c).
      destruct (Spec.isBlank c).
      * destruct (IH (S start)) as [? ?]; [lia..|]. split; [lia|done].
      * split; [lia|]. by apply drop_S.
    + split; [lia|]. by rewrite drop_ge by lia.
Qed.

Lemma slice_snoc (s : bytes) (a e : nat) (c : ascii) :
  (a < e)%nat → s !! (e - 1)%nat = Some c →
  Go.slice s a e = Go.slice s a (e - 1) ++ [c].
Proof.
  intros Hlt Hc. unfold Go.slice.
  replace (e - a)%nat with (S (e - 1 - a)) by lia.
  apply take_S_r. rewrite lookup_drop. by replace (a + (e - 1 - a))%nat with (e - 1)%nat by lia.
Qed.

Lemma trimTrailingLoop_spec (fuel : nat) (s : bytes) (a e : nat) :
  (a ≤ e ≤ length s)%nat → (e - a ≤ fuel)%nat →
  (a ≤ trimTrailingLoop fuel s a e ≤ e)%nat
  ∧ rev (Go.slice s a (trimTrailingLoop fuel s a e)) = Spec.dropBlanks (rev (Go.slice s a e)).
Proof.
  revert e. induction fuel as [|fuel IH]; intros e Hle Hfuel; simpl.
  - split; [lia|]. unfold Go.slice. by replace (e - a)%nat with 0%nat by lia.
  - case_bool_decide as Hlt; simpl.
    + destruct (lookup_lt_is_Some_2 s (e - 1)) as [c Hc]; [lia|].
      unfold spaceAt. rewrite Hc, (slice_snoc s a e c Hlt Hc), rev_unit. simpl.
      change (isSpaceASCII c) with (Spec.isBlank c).
      destruct (Spec.isBlank c).
      * destruct (IH (e - 1)%nat) as [? ?]; [lia..|]. split; [lia|done].
      * split; [lia|]. by rewrite (slice_snoc s a e c Hlt Hc), rev_unit.
    + split; [lia|]. unfold Go.slice. by replace (e - a)%nat with 0%nat by lia.
Qed.

(** The loops of [trimSpaceASCII] run to their exit condition within
    [len(s)] steps each, and what they cut out is the structural trim. *)
Lemma trimSpaceASCII_trimmed (s : bytes) : trimSpaceASCII s = Spec.trimmed s.
Proof.
  unfold trimSpaceASCII, Spec.trimmed.
  destruct (trimLeadingLoop_spec (length s) s 0) as [Ha Hdrop]; [lia..|].
  set (a := trimLeadingLoop (length s) s 0 (length s)) in *.
  destruct (trimTrailingLoop_spec (length s) s a (length s)) as [_ Hrev]; [lia..|].
  rewrite <- (rev_involutive (Go.slice s a _)), Hrev. do 2 f_equal.
  unfold Go.slice. rewrite take_ge by (rewrite length_drop; lia). by rewrite Hdrop.
Qed.

(** Any two functions that cut blanks off the front, one applied to the
    string and one to its reversal, leave a string that the structural
    trim does not change. *)
Lemma trimmed_fix_of_trimmers (f g : bytes → bytes) :
  (∀ s, f s `suffix_of` s) → (∀ s c, head (f s) = Some c → Spec.isBlank c = false) →
  (∀ s, g s `suffix_of` s) → (∀ s c, head (g s) = Some c → Spec.isBlank c = false) →
  ∀ s, Spec.trimmed (rev (g (rev (f s)))) = rev (g (rev (f s))).
Proof.
  intros Hf1 Hf2 Hg1 Hg2 s. unfold Spec.trimmed.
  set (t := f s). set (u := g (rev t)).
  assert (Spec.dropBlanks (rev u) = rev u) as ->.
  { apply dropBlanks_fix. intros c Hc. apply (Hf2 s c). fold t.
    destruct (Hg1 (rev t)) as [k Hk]. fold u in Hk.
    apply (f_equal (@rev ascii)) in Hk. rewrite rev_involutive, rev_app_distr in Hk.
    rewrite Hk. destruct (rev u); [done|]. done. }
  rewrite rev_involutive. f_equal. apply dropBlanks_fix. intros c Hc. by apply (Hg2 (rev t)).
Qed.

Lemma trimmed_idemp (s : bytes) : Spec.trimmed (Spec.trimmed s) = Spec.trimmed s.
Proof.
  change (Spec.trimmed s) with (rev (Spec.dropBlanks (rev (Spec.dropBlanks s)))).
  apply (trimmed_fix_of_trimmers Spec.dropBlanks Spec.dropBlanks);
    eauto using dropBlanks_suffix, dropBlanks_head.
Qed.

Lemma elem_of_rev (s : bytes) (c : ascii) : c ∈ rev s ↔ c ∈ s.
Proof. rewrite !list_elem_of_In. symmetry. apply in_rev. Qed.

Lemma dropBlanks_elem (s : bytes) (c : ascii) : c ∈ Spec.dropBlanks s → c ∈ s.
Proof.
  intros H. destruct (dropBlanks_suffix s) as [k Hk]. rewrite Hk.
  apply elem_of_app. by right.
Qed.

Lemma trimmed_elem (s : bytes) (c : ascii) : c ∈ Spec.trimmed s → c ∈ s.
Proof.
  unfold Spec.trimmed. rewrite elem_of_rev. intros H.
  apply dropBlanks_elem in H. rewrite elem_of_rev in H. by apply dropBlanks_elem.
Qed.

Lemma cutAt_stripParameters (b : bytes) : Handlers.cutAt ";" b = Spec.stripParameters b.
Proof.
  unfold Handlers.cutAt, Go.IndexByte.
  assert (∀ i, 0 ≤ i →
            (if bool_decide (0 ≤ Go.indexByteFrom b ";" i)
             then take (Z.to_nat (Go.indexByteFrom b ";" i - i)) b else b)
            = Spec.stripParameters b) as G.
  { induction b as [|x b IH]; intros i Hi; simpl.
    - done.
    - destruct (Ascii.eqb x ";") eqn:E.
      + rewrite bool_decide_eq_true_2 by done. by replace (i - i) with 0 by lia.
      + specialize (IH (i + 1) ltac:(lia)). case_bool_decide as Hidx.
        * destruct (decide (";"%char ∈ b)) as [Hin|Hout].
          -- pose proof (indexByteFrom_present b ";" (i + 1) Hin).
             replace (Z.to_nat (Go.indexByteFrom b ";" (i + 1) - i))
               with (S (Z.to_nat (Go.indexByteFrom b ";" (i + 1) - (i + 1)))) by lia.
             simpl. by rewrite IH.
          -- rewrite indexByteFrom_absent in Hidx by done. lia.
        * by rewrite <- IH. }
  specialize (G 0 ltac:(lia)). by rewrite Z.sub_0_r in G.
Qed.

Lemma normalized_idemp (ct : bytes) : Spec.normalized (Spec.normalized ct) = Spec.normalized ct.
Proof.
  unfold Spec.normalized at 1.
  rewrite <- cutAt_stripParameters, cutAt_id; [apply trimmed_idemp|].
  intros Hin. apply trimmed_elem in Hin. rewrite <- cutAt_stripParameters in Hin.
  by apply cutAt_absent in Hin.
Qed.

(** ** The index lookup *)

(** What [FindResponseBytes] returns among the candidates of a key. *)
Definition pick (candidates : list MockResponse) (methodBytes : bytes) : option MockResponse :=
  match candidates with
  | [] => None
  | first :: rest =>
      if bool_decide (length methodBytes = 0%nat) then Some first
      else firstByMethod (first :: rest) methodBytes
  end.

Lemma FindResponseBytes_key {JF : JsonFilter} (s : MockStorage)
    (pathBytes mockIDBytes contentTypeBytes methodBytes : bytes) :
  FindResponseBytes s pathBytes mockIDBytes contentTypeBytes methodBytes
  = pick (default [] (Responses s !! makeIndexKeyFromBytes pathBytes mockIDBytes
                                      (Spec.normalized contentTypeBytes)))
         methodBytes.
Proof.
  unfold FindResponseBytes.
  change (if bool_decide (0 ≤ Go.IndexByte contentTypeBytes ";")
          then take (Z.to_nat (Go.IndexByte contentTypeBytes ";")) contentTypeBytes
          else contentTypeBytes) with (Handlers.cutAt ";" contentTypeBytes).
  rewrite trimSpaceASCII_trimmed, cutAt_stripParameters. fold (Spec.normalized contentTypeBytes).
  destruct (Responses s !! _) as [[|first rest]|]; done.
Qed.

(** C9.  [FindResponseBytes] normalizes its content-type argument
    itself: for every store, path, mock id, method and content type, the
    lookup on the content type as given equals the lookup on the content
    type with its [;...] parameters removed and the blanks (space, tab,
    CR, LF) around it trimmed. *)
Theorem FindResponseBytes_normalizes_content_type {JF : JsonFilter} (s : MockStorage)
    (pathBytes mockIDBytes contentTypeBytes methodBytes : bytes) :
  FindResponseBytes s pathBytes mockIDBytes contentTypeBytes methodBytes
  = FindResponseBytes s pathBytes mockIDBytes (Spec.normalized contentTypeBytes) methodBytes.
Proof.
  rewrite !FindResponseBytes_key. by rewrite normalized_idemp.
Qed.

(** ** The scenario matcher *)

Lemma equalFoldBytes_refl (a : bytes) : equalFoldBytes a a = true.
Proof. induction a as [|c a IH]; simpl; [done|]. by rewrite Ascii.eqb_refl. Qed.

Section Scenarios.
Context {RT : GoRuntime} {JF : JsonFilter}.

(** [scenarioByPath] lists, for every path, the scenarios of
    [scenarioOrder] on that path, in the same order. *)
Definition byPathConsistent (s : MockStorage) : Prop :=
  ∀ p, default [] (scenarioByPath s !! p) = base.filter (λ sc, path sc = p) (scenarioOrder s).

(** A scenario that the loop made from one of the definitions. *)
Definition loadedFrom (baseDir : string) (def : scenarioDefinition) (sc : mockScenario) : Prop :=
  ∃ idx, loadScenario baseDir idx def = inr sc.

Lemma loadScenarios_inv (baseDir : string) (defs : list scenarioDefinition) :
  ∀ (idx : nat) (s s' : MockStorage) (err : option error),
    loadScenarios baseDir idx defs s = (s', err) →
    byPathConsistent s →
    byPathConsistent s'
    ∧ scenariosEnabled s' = scenariosEnabled s
    ∧ Responses s' = Responses s
    ∧ ReplayTiming s' = ReplayTiming s
    ∧ (err = None → ∃ scs, scenarioOrder s' = scenarioOrder s ++ scs
                           ∧ Forall2 (loadedFrom baseDir) defs scs).
Proof.
  induction defs as [|def rest IH]; intros idx s s' err Hload Hcons; simpl in Hload.
  - injection Hload as <- <-. repeat split; try done.
    intros _. exists []. by rewrite app_nil_r.
  - destruct (loadScenario baseDir idx def) as [e|sc] eqn:Hsc.
    + injection Hload as <- <-. repeat split; try done.
    + apply IH in Hload as (Hc & He & Hr & Ht & Ho).
      * repeat split; try done. intros ->. destruct (Ho eq_refl) as (scs & Hord & Hall).
        exists (sc :: scs). simpl in Hord. rewrite <- app_assoc in Hord. split; [done|].
        constructor; [by exists idx|done].
      * intros p. simpl. rewrite filter_app, filter_cons, filter_nil.
        destruct (decide (path sc = p)) as [<-|Hne].
        -- by rewrite lookup_insert_eq, Hcons.
        -- by rewrite lookup_insert_ne, Hcons, app_nil_r.
Qed.

Lemma LoadScenarioConfig_inv (yaml_Unmarshal : bytes → option scenarioFile)
    (s0 s : MockStorage) (configPath : string) :
  LoadScenarioConfig yaml_Unmarshal s0 configPath = (s, None) →
  byPathConsistent s ∧ scenariosEnabled s = true ∧ Responses s = Responses s0
  ∧ ReplayTiming s = ReplayTiming s0
  ∧ ∃ payload file, os_ReadFile configPath = Some payload
      ∧ yaml_Unmarshal payload = Some file
      ∧ Forall2 (loadedFrom (filepath_Dir configPath)) (Scenarios file) (scenarioOrder s).
Proof.
  unfold LoadScenarioConfig. intros H.
  destruct (os_ReadFile configPath) as [payload|] eqn:Hread; [|done].
  destruct (yaml_Unmarshal payload) as [file|] eqn:Hyaml; [|done].
  case_bool_decide; [done|].
  destruct (loadScenarios _ _ _ _) as [s1 [err|]] eqn:Hload; [done|].
  injection H as <-.
  apply loadScenarios_inv in Hload as (Hc & He & Hr & Ht & Ho); [|by intros p].
  destruct (Ho eq_refl) as (scs & Hord & Hall). simpl in Hord. subst scs.
  repeat split; try done. by exists payload, file.
Qed.

Lemma matchLoop_None (l : list mockScenario) (m b : bytes) :
  matchLoop l m b = None ↔ ∀ sc, sc ∈ l → skipsMethod sc m = true ∨ skipsFilter sc b = true.
Proof.
  induction l as [|x l IH]; simpl.
  - split; [|done]. intros _ sc Hin. by apply elem_of_nil in Hin.
  - destruct (skipsMethod x m) eqn:Hm; [|destruct (skipsFilter x b) eqn:Hf].
    + rewrite IH. split; intros H sc Hin.
      * apply elem_of_cons in Hin as [->|Hin]; auto.
      * apply H. by right.
    + rewrite IH. split; intros H sc Hin.
      * apply elem_of_cons in Hin as [->|Hin]; auto.
      * apply H. by right.
    + split; [done|]. intros H. destruct (H x) as [?|?]; [by left|congruence..].
Qed.

(** The walk over the scenarios of one path stops at the first one that
    is not skipped, which is declared no later than any other one that
    is not skipped. *)
Lemma matchLoop_first (p : string) (m b : bytes) (order : list mockScenario) :
  ∀ (i : nat) (s_i : mockScenario),
    order !! i = Some s_i → path s_i = p →
    skipsMethod s_i m = false → skipsFilter s_i b = false →
    ∃ (j : nat) (s_j : mockScenario),
      (j ≤ i)%nat ∧ order !! j = Some s_j ∧ path s_j = p
      ∧ skipsMethod s_j m = false ∧ skipsFilter s_j b = false
      ∧ matchLoop (base.filter (λ sc, path sc = p) order) m b = Some (response s_j).
Proof.
  induction order as [|x rest IH]; intros i s_i Hi Hp Hm Hf; [done|].
  rewrite filter_cons. destruct i as [|i]; simpl in Hi.
  - injection Hi as ->. rewrite decide_True by done. simpl. rewrite Hm, Hf.
    exists 0%nat, s_i. repeat split; done || lia.
  - destruct (IH i s_i Hi Hp Hm Hf) as (j & s_j & Hj & Hlk & Hpj & Hmj & Hfj & Hres).
    destruct (decide (path x = p)) as [Hx|Hx]; simpl.
    + destruct (skipsMethod x m) eqn:Hxm; [|destruct (skipsFilter x b) eqn:Hxf].
      * exists (S j), s_j. repeat split; done || lia.
      * exists (S j), s_j. repeat split; done || lia.
      * exists 0%nat, x. repeat split; done || lia.
    + exists (S j), s_j. repeat split; done || lia.
Qed.

Lemma MatchScenarioResponse_enabled (s : MockStorage) (pathBytes m b : bytes) :
  scenariosEnabled s = true → byPathConsistent s →
  MatchScenarioResponse s pathBytes m b
  = matchLoop (base.filter (λ sc, path sc = Go.string_of_bytes pathBytes) (scenarioOrder s)) m b.
Proof.
  intros He Hc. unfold MatchScenarioResponse. rewrite He. simpl. rewrite Hc.
  case_bool_decide as Hlen; [|done].
  by destruct (base.filter _ _).
Qed.

Lemma lowerByte_foldCase (c : ascii) : lowerByte c = Spec.foldCase c.
Proof. destruct c as [[] [] [] [] [] [] [] []]; reflexivity. Qed.

Lemma equalFoldBytes_sameIgnoringCase (a b : bytes) :
  equalFoldBytes a b = true ↔ Spec.sameIgnoringCase a b.
Proof.
  unfold Spec.sameIgnoringCase. revert b.
  induction a as [|x a IH]; intros [|y b]; cbn [equalFoldBytes];
    rewrite ?fmap_nil, ?fmap_cons; try (split; intros; congruence).
  rewrite <- !lowerByte_foldCase.
  destruct (Ascii.eqb_spec (lowerByte x) (lowerByte y)) as [E|N].
  - rewrite IH, E. split; [intros ->; reflexivity|intros [= E']; exact E'].
  - split; [discriminate|intros [= E' _]; contradiction].
Qed.

(** On a scenario whose method bytes are the bytes of its method, the
    loop skips exactly the scenarios that do not match in the words of
    the specification. *)
Lemma skipsMethod_methodMatches (sc : mockScenario) (m : bytes) :
  methodBytes sc = Go.bytes_of_string (method sc) →
  skipsMethod sc m = false ↔ Spec.methodMatches sc m.
Proof.
  intros Hmb. unfold skipsMethod, Spec.methodMatches.
  rewrite <- equalFoldBytes_sameIgnoringCase, Hmb. split.
  - intros H. destruct (method sc) as [|c rest] eqn:Hmeth; [by left|]. right.
    destruct m as [|c' m]; [by left|]. right.
    rewrite !bool_decide_eq_true_2 in H
      by (unfold Go.bytes_of_string; cbn [list_ascii_of_string length]; lia).
    cbn [andb] in H. by apply negb_false_iff in H.
  - intros [Hmeth|[Hm|Hfold]].
    + rewrite Hmeth. reflexivity.
    + rewrite Hm. cbn [length]. rewrite (bool_decide_eq_false_2 (0 < 0)%nat) by lia.
      by rewrite andb_false_r.
    + rewrite Hfold. by rewrite andb_false_r.
Qed.

Lemma skipsFilter_predicateHolds (sc : mockScenario) (b : bytes) :
  skipsFilter sc b = false ↔ Spec.predicateHolds sc b.
Proof.
  unfold skipsFilter, Spec.predicateHolds. destruct (filter sc) as [f|].
  - rewrite negb_false_iff. split; [by intros H predicate [= <-]|intros H; by apply H].
  - split; [intros _ predicate; discriminate|reflexivity].
Qed.

Lemma not_skipped_matches (sc : mockScenario) (m b : bytes) :
  methodBytes sc = Go.bytes_of_string (method sc) →
  (skipsMethod sc m = false ∧ skipsFilter sc b = false ↔ Spec.matches sc m b)
  ∧ (skipsMethod sc m = true ∨ skipsFilter sc b = true ↔ ¬ Spec.matches sc m b).
Proof.
  intros Hmb. unfold Spec.matches.
  rewrite <- (skipsMethod_methodMatches sc m Hmb), <- (skipsFilter_predicateHolds sc b).
  split; [reflexivity|].
  destruct (skipsMethod sc m), (skipsFilter sc b); split; try (intros [H|H]; discriminate H);
    try (intros _ [H1 H2]; discriminate); try (intros _; by left); try (intros _; by right).
  intros H. destruct H. by split.
Qed.

(** The walk stops at the first scenario that is not skipped: the one
    it returns is not skipped, and every scenario before it is. *)
Lemma matchLoop_first_declared (p : string) (m b : bytes) (order : list mockScenario) :
  ∀ (i : nat) (s_i : mockScenario),
    order !! i = Some s_i → path s_i = p →
    skipsMethod s_i m = false → skipsFilter s_i b = false →
    ∃ (j : nat) (s_j : mockScenario),
      (j ≤ i)%nat ∧ order !! j = Some s_j ∧ path s_j = p
      ∧ skipsMethod s_j m = false ∧ skipsFilter s_j b = false
      ∧ (∀ (k : nat) (s_k : mockScenario),
           (k < j)%nat → order !! k = Some s_k → path s_k = p →
           skipsMethod s_k m = true ∨ skipsFilter s_k b = true)
      ∧ matchLoop (base.filter (λ sc, path sc = p) order) m b = Some (response s_j).
Proof.
  induction order as [|x rest IH]; intros i s_i Hi Hp Hm Hf; [done|].
  rewrite filter_cons.
  assert (Hhead : path x = p → skipsMethod x m = false → skipsFilter x b = false →
            ∃ (j : nat) (s_j : mockScenario),
              (j ≤ i)%nat ∧ (x :: rest) !! j = Some s_j ∧ path s_j = p
              ∧ skipsMethod s_j m = false ∧ skipsFilter s_j b = false
              ∧ (∀ (k : nat) (s_k : mockScenario),
                   (k < j)%nat → (x :: rest) !! k = Some s_k → path s_k = p →
                   skipsMethod s_k m = true ∨ skipsFilter s_k b = true)
              ∧ matchLoop (x :: base.filter (λ sc, path sc = p) rest) m b
                = Some (response s_j)).
  { intros Hx Hxm Hxf. exists 0%nat, x. simpl. rewrite Hxm, Hxf.
    repeat split; try done; [lia|]. intros k s_k Hk. lia. }
  destruct i as [|i]; simpl in Hi.
  - injection Hi as ->. rewrite decide_True by done. by apply Hhead.
  - destruct (IH i s_i Hi Hp Hm Hf) as (j & s_j & Hj & Hlk & Hpj & Hmj & Hfj & Hmin & Hres).
    assert (Htail : (path x = p → skipsMethod x m = true ∨ skipsFilter x b = true) →
              ∀ (k : nat) (s_k : mockScenario),
                (k < S j)%nat → (x :: rest) !! k = Some s_k → path s_k = p →
                skipsMethod s_k m = true ∨ skipsFilter s_k b = true).
    { intros Hx [|k] s_k Hk Hlk'; simpl in Hlk'.
      - injection Hlk' as <-. exact Hx.
      - apply (Hmin k s_k); [lia|exact Hlk']. }
    destruct (decide (path x = p)) as [Hx|Hx].
    + destruct (skipsMethod x m) eqn:Hxm; [|destruct (skipsFilter x b) eqn:Hxf].
      * exists (S j), s_j. simpl. rewrite Hxm.
        repeat split; try done; [lia|]. apply Htail. intros _. by left.
      * exists (S j), s_j. simpl. rewrite Hxm, Hxf.
        repeat split; try done; [lia|]. apply Htail. intros _. by right.
      * by apply Hhead.
    + exists (S j), s_j. repeat split; try done; [lia|]. apply Htail. intros E. by destruct Hx.
Qed.

Lemma matchLoop_Some (l : list mockScenario) (m b : bytes) (r : MockResponse) :
  matchLoop l m b = Some r →
  ∃ sc, sc ∈ l ∧ r = response sc ∧ skipsMethod sc m = false ∧ skipsFilter sc b = false.
Proof.
  induction l as [|x l IH]; cbn [matchLoop]; [discriminate|].
  destruct (skipsMethod x m) eqn:Hm; [|destruct (skipsFilter x b) eqn:Hf].
  - intros H. destruct (IH H) as (sc & Hin & Hr). exists sc. split; [by right|exact Hr].
  - intros H. destruct (IH H) as (sc & Hin & Hr). exists sc. split; [by right|exact Hr].
  - intros [= <-]. exists x. split; [by left|]. by repeat split.
Qed.

Lemma loaded_methodBytes (baseDir : string) (defs : list scenarioDefinition)
    (order : list mockScenario) :
  Forall2 (loadedFrom baseDir) defs order →
  ∀ sc, sc ∈ order → methodBytes sc = Go.bytes_of_string (method sc) ∧ method sc ≠ "".
Proof.
  intros Hall sc Hsc. apply list_elem_of_lookup_1 in Hsc as [i Hi].
  destruct (Forall2_lookup_r _ _ _ _ _ Hall Hi) as (def & _ & idx & Hdef).
  clear Hall Hi. unfold loadScenario, compileFilter in Hdef.
  destruct (decide (Go.TrimSpace (defName def) = "")); [discriminate Hdef|].
  destruct (decide (Go.TrimSpace (defPath def) = "")); [discriminate Hdef|].
  destruct (decide (Go.TrimSpace (defFile (defResponse def)) = "")); [discriminate Hdef|].
  destruct (loadResponseFromFile _ _) as [e|recorded]; [discriminate Hdef|].
  match type of Hdef with
  | context [decide (?m = "")] =>
      assert (Hm : (if decide (m = "") then "GET" else m) ≠ "")
        by (destruct (decide (m = "")); [discriminate|assumption])
  end.
  case_bool_decide.
  - destruct (parser_FromMap _) as [operator|]; cbn [orErr bind] in Hdef; [|discriminate Hdef].
    destruct (Validate_Valid operator); [|discriminate Hdef]. cbn [bind] in Hdef.
    injection Hdef as <-. by split.
  - cbn [bind] in Hdef. injection Hdef as <-. by split.
Qed.

(** C2.  After a scenario configuration has been loaded, the scenarios
    are those made from the definitions of the file, in their order,
    each with a non-empty method.  Matching is in the words of the
    specification: a scenario matches a request when the request method
    is empty or is the scenario's method up to the case of ASCII
    letters, and the body satisfies the scenario's predicate if it has
    one.  For every scenario [s_i], every body [b] and request method
    [m] that [s_i] matches, [MatchScenarioResponse] on the path of [s_i]
    returns the response of the first declared scenario on that path
    that matches: a scenario [s_j] declared at or before [s_i], on the
    same path, that matches too, no matching scenario on the path
    being declared before [s_j].  Whatever it returns is the response
    of a matching scenario on exactly the requested path, and it
    returns no match exactly when no scenario on that path matches. *)
Theorem scenario_match_first_declared (yaml_Unmarshal : bytes → option scenarioFile)
    (s0 s : MockStorage) (configPath : string) :
  LoadScenarioConfig yaml_Unmarshal s0 configPath = (s, None) →
  (∃ payload file, os_ReadFile configPath = Some payload
     ∧ yaml_Unmarshal payload = Some file
     ∧ Forall2 (loadedFrom (filepath_Dir configPath)) (Scenarios file) (scenarioOrder s))
  ∧ (∀ sc, sc ∈ scenarioOrder s → method sc ≠ "")
  ∧ (∀ (i : nat) (s_i : mockScenario) (b m : bytes),
       scenarioOrder s !! i = Some s_i →
       Spec.matches s_i m b →
       ∃ (j : nat) (s_j : mockScenario),
         (j ≤ i)%nat ∧ scenarioOrder s !! j = Some s_j ∧ path s_j = path s_i
         ∧ Spec.matches s_j m b
         ∧ (∀ (k : nat) (s_k : mockScenario),
              (k < j)%nat → scenarioOrder s !! k = Some s_k → path s_k = path s_i →
              ¬ Spec.matches s_k m b)
         ∧ MatchScenarioResponse s (Go.bytes_of_string (path s_i)) m b
           = Some (response s_j))
  ∧ (∀ (pathBytes m b : bytes) (r : MockResponse),
       MatchScenarioResponse s pathBytes m b = Some r →
       ∃ sc, sc ∈ scenarioOrder s ∧ r = response sc
             ∧ path sc = Go.string_of_bytes pathBytes ∧ Spec.matches sc m b)
  ∧ (∀ (pathBytes m b : bytes),
       MatchScenarioResponse s pathBytes m b = None
       ↔ ∀ sc, sc ∈ scenarioOrder s → path sc = Go.string_of_bytes pathBytes →
               ¬ Spec.matches sc m b).
Proof.
  intros Hload. apply LoadScenarioConfig_inv in Hload as (Hc & He & _ & _ & Hfile).
  assert (Hmb : ∀ sc, sc ∈ scenarioOrder s →
                      methodBytes sc = Go.bytes_of_string (method sc) ∧ method sc ≠ "").
  { destruct Hfile as (payload & file & _ & _ & Hall).
    exact (loaded_methodBytes _ _ _ Hall). }
  split; [done|]. split; [intros sc Hsc; by apply Hmb|]. split; [|split].
  - intros i s_i b m Hi Hmatch.
    assert (Hin : s_i ∈ scenarioOrder s) by (by eapply list_elem_of_lookup_2).
    apply (not_skipped_matches s_i m b (proj1 (Hmb s_i Hin))) in Hmatch as [Hm Hf].
    rewrite MatchScenarioResponse_enabled, string_of_bytes_of_string by done.
    destruct (matchLoop_first_declared (path s_i) m b (scenarioOrder s) i s_i Hi eq_refl Hm Hf)
      as (j & s_j & Hj & Hlk & Hpj & Hmj & Hfj & Hmin & Hres).
    exists j, s_j. split; [exact Hj|]. split; [exact Hlk|]. split; [exact Hpj|].
    assert (Hinj : s_j ∈ scenarioOrder s) by (by eapply list_elem_of_lookup_2).
    split; [by apply (not_skipped_matches s_j m b (proj1 (Hmb s_j Hinj)))|].
    split; [|exact Hres].
    intros k s_k Hk Hlk' Hpk.
    assert (Hink : s_k ∈ scenarioOrder s) by (by eapply list_elem_of_lookup_2).
    apply (not_skipped_matches s_k m b (proj1 (Hmb s_k Hink))).
    by apply (Hmin k s_k).
  - intros pathBytes m b r Hr. rewrite MatchScenarioResponse_enabled in Hr by done.
    apply matchLoop_Some in Hr as (sc & Hin & -> & Hm & Hf).
    apply list_elem_of_filter in Hin as [Hp Hin].
    exists sc. split; [exact Hin|]. split; [reflexivity|]. split; [exact Hp|].
    by apply (not_skipped_matches sc m b (proj1 (Hmb sc Hin))).
  - intros pathBytes m b. rewrite MatchScenarioResponse_enabled, matchLoop_None by done.
    split; intros H sc Hin.
    + intros Hp. apply (not_skipped_matches sc m b (proj1 (Hmb sc Hin))).
      apply H. by apply list_elem_of_filter.
    + apply list_elem_of_filter in Hin as [Hp Hin].
      apply (not_skipped_matches sc m b (proj1 (Hmb sc Hin))). by apply H.
Qed.

End Scenarios.

Section ScenarioExamples.
#[local] Existing Instances Fixture.runtime Fixture.equalsFilter.

(** The two scenarios of [fixtures/scenarios.yml] are both on [/api]
    and ask for the method [POST]: [ready] asks for the body [ok],
    [fallback] for nothing.  A [GET] request matches neither. *)
Lemma scenario_match_witness :
  LoadScenarioConfig Fixture.yaml Fixture.mockStore "fixtures/scenarios.yml"
  = (Fixture.scenarioStore, None)
  ∧ (name <$> scenarioOrder Fixture.scenarioStore = ["ready"; "fallback"]
     ∧ MockID <$> MatchScenarioResponse Fixture.scenarioStore (Go.bytes_of_string "/api")
                    (Go.bytes_of_string "POST") (Go.bytes_of_string "ok") = Some "ready"
     ∧ MockID <$> MatchScenarioResponse Fixture.scenarioStore (Go.bytes_of_string "/api")
                    (Go.bytes_of_string "post") (Go.bytes_of_string "other") = Some "fallback"
     ∧ MatchScenarioResponse Fixture.scenarioStore (Go.bytes_of_string "/api")
         (Go.bytes_of_string "GET") (Go.bytes_of_string "ok") = None)
  ∧ (∀ (i : nat) (s_i : mockScenario) (b m : bytes),
      scenarioOrder Fixture.scenarioStore !! i = Some s_i →
      Spec.matches s_i m b →
      ∃ (j : nat) (s_j : mockScenario),
        (j ≤ i)%nat ∧ scenarioOrder Fixture.scenarioStore !! j = Some s_j
        ∧ Spec.matches s_j m b
        ∧ MatchScenarioResponse Fixture.scenarioStore (Go.bytes_of_string (path s_i)) m b
          = Some (response s_j))
  ∧ ∀ sc, sc ∈ scenarioOrder Fixture.scenarioStore →
          path sc = Go.string_of_bytes (Go.bytes_of_string "/api") →
          ¬ Spec.matches sc (Go.bytes_of_string "GET") (Go.bytes_of_string "ok").
Proof.
  assert (LoadScenarioConfig Fixture.yaml Fixture.mockStore "fixtures/scenarios.yml"
          = (Fixture.scenarioStore, None)) as Hload by (vm_compute; reflexivity).
  destruct (scenario_match_first_declared Fixture.yaml Fixture.mockStore
              Fixture.scenarioStore "fixtures/scenarios.yml" Hload)
    as (_ & _ & Hmatch & _ & Hnone).
  split; [exact Hload|]. split; [vm_compute; repeat split; reflexivity|]. split.
  - intros i s_i b m Hi Hm.
    destruct (Hmatch i s_i b m Hi Hm) as (j & s_j & Hj & Hlk & _ & Hmj & _ & Hres).
    exists j, s_j. split; [exact Hj|]. split; [exact Hlk|]. split; [exact Hmj|exact Hres].
  - apply (proj1 (Hnone (Go.bytes_of_string "/api") (Go.bytes_of_string "GET")
                    (Go.bytes_of_string "ok"))).
    vm_compute. reflexivity.
Defined.

End ScenarioExamples.


(** ** The record codec *)

Section CodecFacts.
Context {RT : GoRuntime}.

(** The fields of a record that [parseRecordTree] returns, from the
    [request] and [response] objects of the tree. *)
Record parsedFrom (requestData responseData : gmap string JSON) (fallbackMockID : string)
    (r : MockResponse) : Prop := {
  pf_headers : Headers r
    = (responseHeaderMaps (default ∅ (asObject (index responseData "headers")))).1;
  pf_keys : HeaderKeysLower r
    = foldl (λ acc kv, <[toLowerASCIISimple kv.1 := kv.1]> acc) ∅ (mapRange (Headers r));
  pf_contentType : ContentType r
    = normalizeContentType
        (indexStr (responseHeaderMaps (default ∅ (asObject (index responseData "headers")))).2
                  "content-type");
  pf_body : OriginalBody r
    = decodeGzipBody (responseHeaderMaps (default ∅ (asObject (index responseData "headers")))).2
                     (index responseData "body");
  pf_bytes : materializeBody (ContentType r) (OriginalBody r) = inr (Body r);
  pf_isSSE : IsSSE r = bool_decide (ContentType r = "text/event-stream");
  pf_events : SSEEvents r = collectSSEEvents (IsSSE r) (OriginalBody r);
  pf_method : Method r
    = (if decide (default "" (asString (index requestData "method")) = "") then "GET"
       else default "" (asString (index requestData "method")));
  pf_methodBytes : MethodBytes r = Go.bytes_of_string (Method r);
  pf_status : StatusCode r
    = match asFloat (index responseData "status_code") with
      | Some sc => int_of_float64 sc
      | None => 200
      end;
  pf_mockID : MockID r = resolveMockID requestData fallbackMockID;
  pf_delay : Delay r = resolveDelay responseData;
  pf_path : ∃ parsedPath,
      url_Parse_Path (default "" (asString (index requestData "url"))) = Some parsedPath
      ∧ Path r = (if decide (parsedPath = "") then "/" else parsedPath);
}.

Lemma parseRecordTree_inr (record : gmap string JSON) (fallbackMockID : string)
    (r : MockResponse) :
  parseRecordTree record fallbackMockID = inr r →
  ∃ requestData responseData,
    asObject (index record "request") = Some requestData
    ∧ asObject (index record "response") = Some responseData
    ∧ parsedFrom requestData responseData fallbackMockID r.
Proof.
  unfold parseRecordTree.
  destruct (asObject (index record "request")) as [requestData|]; [|done].
  destruct (asObject (index record "response")) as [responseData|]; [|done].
  destruct (url_Parse_Path _) as [parsedPath|] eqn:Hurl; [|done]. simpl.
  destruct (materializeBody _ _) as [e|bodyBytes] eqn:Hbody; [done|]. simpl.
  intros [= <-]. exists requestData, responseData. do 2 (split; [done|]).
  constructor; simpl; try done. by exists parsedPath.
Qed.

(** The presence check is the only source of [errInvalidRecord]; past
    it, parsing fails only on the URL or on serializing the body. *)
Lemma parseRecordTree_inl (record : gmap string JSON) (fallbackMockID : string) (e : error) :
  parseRecordTree record fallbackMockID = inl e →
  is_Some (asObject (index record "request")) →
  is_Some (asObject (index record "response")) →
  e = errURL ∨ e = errMarshal.
Proof.
  unfold parseRecordTree. intros H [requestData Hq] [responseData Hp].
  rewrite Hq, Hp in H.
  destruct (url_Parse_Path _) as [parsedPath|]; simpl in H; [|left; congruence].
  destruct (materializeBody _ _) as [e'|bodyBytes] eqn:Hbody; simpl in H; [|done].
  injection H as <-. unfold materializeBody in Hbody.
  destruct (decide _), (decodeGzipBody _ _); simpl in Hbody; try done;
    destruct (json_Marshal _); simpl in Hbody; try done; right; congruence.
Qed.

Lemma parseRecordTree_total (record : gmap string JSON) (fallbackMockID : string)
    (requestData responseData : gmap string JSON) (parsedPath : string) (bodyBytes : bytes) :
  asObject (index record "request") = Some requestData →
  asObject (index record "response") = Some responseData →
  url_Parse_Path (default "" (asString (index requestData "url"))) = Some parsedPath →
  materializeBody
    (normalizeContentType
       (indexStr (responseHeaderMaps (default ∅ (asObject (index responseData "headers")))).2
                 "content-type"))
    (decodeGzipBody (responseHeaderMaps (default ∅ (asObject (index responseData "headers")))).2
                    (index responseData "body")) = inr bodyBytes →
  ∃ r, parseRecordTree record fallbackMockID = inr r.
Proof.
  intros Hq Hp Hurl Hbody. unfold parseRecordTree. rewrite Hq, Hp, Hurl. simpl.
  rewrite Hbody. simpl. eauto.
Qed.

End CodecFacts.

(** ** [strings.TrimSpace] and the stored content type *)

Lemma isBlank_isSpace1 (c : ascii) : Go.isSpace1 c = false → Spec.isBlank c = false.
Proof. destruct c as [[] [] [] [] [] [] [] []]; by cbv. Qed.

Lemma trimLeft_spec (n : nat) :
  ∀ s : bytes, (length s ≤ n)%nat →
    Go.trimLeft s `suffix_of` s
    ∧ ∀ c, head (Go.trimLeft s) = Some c → Spec.isBlank c = false.
Proof.
  induction n as [|n IH]; intros s Hn.
  - destruct s; [|simpl in Hn; lia]. by split.
  - destruct s as [|c1 s1]; [by split|]. simpl in Hn. simpl.
    destruct (Go.isSpace1 c1) eqn:E1.
    { destruct (IH s1) as [Hs Hh]; [lia|]. split; [by apply suffix_cons_r|done]. }
    assert (∀ c, head (c1 :: s1) = Some c → Spec.isBlank c = false) as Hkeep.
    { intros c [= <-]. by apply isBlank_isSpace1. }
    destruct s1 as [|c2 s2]; [by split|]. simpl in Hn.
    destruct (Go.isSpace2 c1 c2).
    { destruct (IH s2) as [Hs Hh]; [lia|]. split; [by do 2 apply suffix_cons_r|done]. }
    destruct s2 as [|c3 s3]; [by split|]. simpl in Hn.
    destruct (Go.isSpace3 c1 c2 c3); [|by split].
    destruct (IH s3) as [Hs Hh]; [lia|]. split; [by do 3 apply suffix_cons_r|done].
Qed.

Lemma trimLeftRev_spec (n : nat) :
  ∀ s : bytes, (length s ≤ n)%nat →
    Go.trimLeftRev s `suffix_of` s
    ∧ ∀ c, head (Go.trimLeftRev s) = Some c → Spec.isBlank c = false.
Proof.
  induction n as [|n IH]; intros s Hn.
  - destruct s; [|simpl in Hn; lia]. by split.
  - destruct s as [|c1 s1]; [by split|]. simpl in Hn. simpl.
    destruct (Go.isSpace1 c1) eqn:E1.
    { destruct (IH s1) as [Hs Hh]; [lia|]. split; [by apply suffix_cons_r|done]. }
    assert (∀ c, head (c1 :: s1) = Some c → Spec.isBlank c = false) as Hkeep.
    { intros c [= <-]. by apply isBlank_isSpace1. }
    destruct s1 as [|c2 s2]; [by split|]. simpl in Hn.
    destruct (Go.isSpace2 c2 c1).
    { destruct (IH s2) as [Hs Hh]; [lia|]. split; [by do 2 apply suffix_cons_r|done]. }
    destruct s2 as [|c3 s3]; [by split|]. simpl in Hn.
    destruct (Go.isSpace3 c3 c2 c1); [|by split].
    destruct (IH s3) as [Hs Hh]; [lia|]. split; [by do 3 apply suffix_cons_r|done].
Qed.

Lemma splitFirst_no_sep (sep : ascii) (s : string) :
  sep ∉ Go.bytes_of_string (Go.splitFirst sep s).
Proof.
  induction s as [|c s IH]; simpl; [apply not_elem_of_nil|].
  destruct (Ascii.eqb_spec c sep) as [->|Hne]; simpl; [apply not_elem_of_nil|].
  apply not_elem_of_cons. split; [congruence|done].
Qed.

Lemma TrimSpace_bytes (s : string) :
  Go.bytes_of_string (Go.TrimSpace s)
  = rev (Go.trimLeftRev (rev (Go.trimLeft (Go.bytes_of_string s)))).
Proof. unfold Go.TrimSpace. by rewrite bytes_of_string_of_bytes. Qed.

Lemma TrimSpace_elem (s : string) (c : ascii) :
  c ∈ Go.bytes_of_string (Go.TrimSpace s) → c ∈ Go.bytes_of_string s.
Proof.
  rewrite TrimSpace_bytes, elem_of_rev. intros H.
  destruct (trimLeftRev_spec _ (rev (Go.trimLeft (Go.bytes_of_string s))) (le_n _)) as [[k Hk] _].
  assert (c ∈ rev (Go.trimLeft (Go.bytes_of_string s))) as H1.
  { rewrite Hk. apply elem_of_app. by right. }
  rewrite elem_of_rev in H1.
  destruct (trimLeft_spec _ (Go.bytes_of_string s) (le_n _)) as [[k' Hk'] _].
  rewrite Hk'. apply elem_of_app. by right.
Qed.

Lemma TrimSpace_trimmed (s : string) :
  Spec.trimmed (Go.bytes_of_string (Go.TrimSpace s)) = Go.bytes_of_string (Go.TrimSpace s).
Proof.
  rewrite TrimSpace_bytes.
  apply (trimmed_fix_of_trimmers Go.trimLeft Go.trimLeftRev); intros t.
  - apply (trimLeft_spec _ t (le_n _)).
  - apply (trimLeft_spec _ t (le_n _)).
  - apply (trimLeftRev_spec _ t (le_n _)).
  - apply (trimLeftRev_spec _ t (le_n _)).
Qed.

(** The content type that the codec stores is a fixed point of the
    normalization that [FindResponseBytes] applies. *)
Lemma normalizeContentType_normalized (contentType : string) :
  Spec.normalized (Go.bytes_of_string (normalizeContentType contentType))
  = Go.bytes_of_string (normalizeContentType contentType).
Proof.
  unfold normalizeContentType. case_decide as Hct; [|by vm_compute].
  unfold Spec.normalized. rewrite <- cutAt_stripParameters, cutAt_id.
  - apply TrimSpace_trimmed.
  - intros Hin. apply TrimSpace_elem in Hin. by apply splitFirst_no_sep in Hin.
Qed.

(** ** Loading the index *)

Section IndexFacts.
Context {RT : GoRuntime} {JF : JsonFilter}.

Definition keyOf (r : MockResponse) : string :=
  makeIndexKey (Path r) (MockID r) (ContentType r).

(** The record that a file of a mock-id directory yields, if any. *)
Definition recordOfFile (mockDir folderMockID : string) (file : DirEntry)
  : option MockResponse :=
  if IsDir file || negb (Go.HasSuffix (Name file) ".json") then None
  else match loadResponseFromFile (mockDir +:+ "/" +:+ Name file) folderMockID with
       | inr r => Some r
       | inl _ => None
       end.

(** The records of one entry of the base directory, in the order of
    its files. *)
Definition recordsOfEntry (baseDir : string) (entry : DirEntry) : list MockResponse :=
  if negb (IsDir entry) then []
  else match os_ReadDir (baseDir +:+ "/" +:+ Name entry) with
       | None => []
       | Some files =>
           omap (recordOfFile (baseDir +:+ "/" +:+ Name entry) (Name entry)) files
       end.

(** Every record that loading encounters, in the order of loading. *)
Definition loadedRecords (baseDir : string) (entries : list DirEntry) : list MockResponse :=
  entries ≫= recordsOfEntry baseDir.

Lemma foldl_addResponse_BaseDir (rs : list MockResponse) (s : MockStorage) :
  BaseDir (foldl addResponse s rs) = BaseDir s.
Proof. revert s. induction rs as [|r rs IH]; intros s; simpl; [done|]. by rewrite IH. Qed.

Lemma foldl_loadFile (mockDir folderMockID : string) (files : list DirEntry) (s : MockStorage) :
  foldl (loadFile mockDir folderMockID) s files
  = foldl addResponse s (omap (recordOfFile mockDir folderMockID) files).
Proof.
  revert s. induction files as [|file files IH]; intros s; simpl; [done|].
  rewrite IH. unfold loadFile, recordOfFile.
  destruct (IsDir file || negb (Go.HasSuffix (Name file) ".json")); [done|].
  by destruct (loadResponseFromFile _ _).
Qed.

Lemma loadEntry_records (s : MockStorage) (entry : DirEntry) :
  loadEntry s entry = foldl addResponse s (recordsOfEntry (BaseDir s) entry).
Proof.
  unfold loadEntry, recordsOfEntry. destruct (negb (IsDir entry)); [done|].
  destruct (os_ReadDir _); [apply foldl_loadFile|done].
Qed.

Lemma foldl_loadEntry (entries : list DirEntry) (s : MockStorage) :
  foldl loadEntry s entries = foldl addResponse s (loadedRecords (BaseDir s) entries).
Proof.
  revert s. induction entries as [|entry entries IH]; intros s; [done|].
  unfold loadedRecords. simpl. rewrite foldl_app, IH, loadEntry_records.
  by rewrite foldl_addResponse_BaseDir.
Qed.

(** The list of a key holds the records of that key in the order of
    loading. *)
Lemma foldl_addResponse_Responses (rs : list MockResponse) (s : MockStorage) (key : string) :
  default [] (Responses (foldl addResponse s rs) !! key)
  = default [] (Responses s !! key) ++ base.filter (λ r, keyOf r = key) rs.
Proof.
  revert s. induction rs as [|r rs IH]; intros s; simpl.
  - by rewrite filter_nil, app_nil_r.
  - rewrite IH, filter_cons. simpl. fold (keyOf r).
    destruct (decide (keyOf r = key)) as [<-|Hne].
    + rewrite lookup_insert_eq. simpl. by rewrite <- app_assoc.
    + by rewrite lookup_insert_ne.
Qed.

Lemma foldl_addResponse_scenarios (rs : list MockResponse) (s : MockStorage) :
  scenariosEnabled (foldl addResponse s rs) = scenariosEnabled s
  ∧ scenarioByPath (foldl addResponse s rs) = scenarioByPath s
  ∧ scenarioOrder (foldl addResponse s rs) = scenarioOrder s.
Proof.
  revert s. induction rs as [|r rs IH]; intros s; simpl; [done|].
  destruct (IH (addResponse s r)) as (-> & -> & ->). done.
Qed.

Lemma NewMockStorage_loaded (baseDir : string) (entries : list DirEntry) :
  os_Stat_IsNotExist baseDir = false → os_ReadDir baseDir = Some entries →
  ∃ s, NewMockStorage baseDir = inr s
       ∧ (∀ key, default [] (Responses s !! key)
                 = base.filter (λ r, keyOf r = key) (loadedRecords baseDir entries))
       ∧ scenariosEnabled s = false ∧ scenarioByPath s = ∅ ∧ scenarioOrder s = [].
Proof.
  intros Hstat Hdir. unfold NewMockStorage, loadResponses. simpl. rewrite Hstat, Hdir. simpl.
  eexists. split; [done|]. rewrite foldl_loadEntry. simpl. split.
  - intros key. by rewrite foldl_addResponse_Responses.
  - by destruct (foldl_addResponse_scenarios (loadedRecords baseDir entries)
                  {| BaseDir := baseDir; Responses := ∅; ReplayTiming := false;
                     Jitter := 0%float; scenariosEnabled := false;
                     scenarioByPath := ∅; scenarioOrder := [] |}) as (-> & -> & ->).
Qed.

(** Every loaded record was parsed from a record tree. *)
Lemma loadedRecords_parsed (baseDir : string) (entries : list DirEntry) (r : MockResponse) :
  r ∈ loadedRecords baseDir entries →
  ∃ requestData responseData fallbackMockID,
    parsedFrom requestData responseData fallbackMockID r.
Proof.
  unfold loadedRecords. rewrite list_elem_of_bind. intros (entry & Hr & _).
  unfold recordsOfEntry in Hr. destruct (negb (IsDir entry)); [by apply elem_of_nil in Hr|].
  destruct (os_ReadDir _) as [files|]; [|by apply elem_of_nil in Hr].
  apply list_elem_of_omap in Hr as (file & _ & Hfile). unfold recordOfFile in Hfile.
  destruct (_ || _); [done|].
  destruct (loadResponseFromFile _ _) as [e|r'] eqn:Hload; [done|]. injection Hfile as ->.
  unfold loadResponseFromFile in Hload. destruct (os_ReadFile _); [|done]. simpl in Hload.
  unfold parseMockRecord in Hload. destruct (unmarshalRecord _) as [e|record]; [done|].
  simpl in Hload. apply parseRecordTree_inr in Hload as (q & p & _ & _ & Hpf). eauto.
Qed.

(** The first element of a list that has a property, among those that
    pass a filter. *)
Lemma find_filter_first {A : Type} (P : A → Prop) `{!∀ x, Decision (P x)} (q : A → bool)
    (l : list A) :
  ∀ (i : nat) (x : A), l !! i = Some x → P x → q x = true →
    ∃ (j : nat) (y : A),
      (j ≤ i)%nat ∧ l !! j = Some y ∧ P y ∧ q y = true
      ∧ List.find q (base.filter P l) = Some y
      ∧ ∀ (k : nat) (z : A), (k < j)%nat → l !! k = Some z → P z → q z = false.
Proof.
  induction l as [|a l IH]; intros i x Hi HP Hq; [done|].
  rewrite filter_cons. destruct (decide (P a)) as [Ha|Ha]; simpl.
  - destruct (q a) eqn:Hqa.
    + exists 0%nat, a. repeat split; try done; lia.
    + destruct i as [|i]; simpl in Hi; [congruence|].
      destruct (IH i x Hi HP Hq) as (j & y & Hj & Hy & HPy & Hqy & Hfind & Hfirst).
      exists (S j), y. repeat split; try done; [lia|].
      intros [|k] z Hk Hz HPz; simpl in Hz; [congruence|]. apply (Hfirst k z); [lia|done..].
  - destruct i as [|i]; simpl in Hi; [congruence|].
    destruct (IH i x Hi HP Hq) as (j & y & Hj & Hy & HPy & Hqy & Hfind & Hfirst).
    exists (S j), y. repeat split; try done; [lia|].
    intros [|k] z Hk Hz HPz; simpl in Hz; [congruence|]. apply (Hfirst k z); [lia|done..].
Qed.

Lemma firstByMethod_find (candidates : list MockResponse) (methodBytes : bytes) :
  firstByMethod candidates methodBytes
  = List.find (λ c, equalFoldBytes (MethodBytes c) methodBytes) candidates.
Proof. induction candidates as [|c l IH]; simpl; [done|]. by rewrite IH. Qed.

(** The lookup on the stored fields of a record goes to the list of its
    key and, the method of a record not being empty, through the method
    filter. *)
Lemma FindResponseBytes_stored (s : MockStorage) (r : MockResponse)
    (requestData responseData : gmap string JSON) (fallbackMockID : string) :
  parsedFrom requestData responseData fallbackMockID r →
  FindResponseBytes s (Go.bytes_of_string (Path r)) (Go.bytes_of_string (MockID r))
                    (Go.bytes_of_string (ContentType r)) (Go.bytes_of_string (Method r))
  = List.find (λ c, equalFoldBytes (MethodBytes c) (Go.bytes_of_string (Method r)))
              (default [] (Responses s !! keyOf r)).
Proof.
  intros Hpf. rewrite FindResponseBytes_key.
  rewrite (pf_contentType _ _ _ _ Hpf) at 1. rewrite normalizeContentType_normalized.
  rewrite <- (pf_contentType _ _ _ _ Hpf), makeIndexKeyFromBytes_of_strings.
  fold (keyOf r). unfold pick. destruct (default [] _) as [|first rest]; [done|].
  rewrite bool_decide_eq_false_2; [apply firstByMethod_find|].
  rewrite (pf_method _ _ _ _ Hpf). case_decide as Hm; [done|].
  destruct (default "" _); [done|]. simpl. lia.
Qed.

End IndexFacts.

(** ** C1: looking a loaded record up *)

Section FindLoaded.
Context {RT : GoRuntime} {JF : JsonFilter}.

(** C1 (as amended).  When the mock directory is loaded, the index
    holds under every key the loaded records of that key in the order
    of loading, and a lookup with [FindResponseBytes] on exactly the
    path, mock id, content type and method of a loaded record [r]
    returns the first-loaded record that has the index key of [r] and,
    up to case, the method of [r]; it returns [r] itself, hence the body
    and the status code of [r], when no record loaded before [r] has
    that key and that method. *)
Theorem find_returns_first_loaded (baseDir : string) (entries : list DirEntry) :
  os_Stat_IsNotExist baseDir = false → os_ReadDir baseDir = Some entries →
  ∃ s, NewMockStorage baseDir = inr s
    ∧ (∀ key, default [] (Responses s !! key)
              = base.filter (λ r, keyOf r = key) (loadedRecords baseDir entries))
    ∧ ∀ (i : nat) (r : MockResponse),
        loadedRecords baseDir entries !! i = Some r →
        let found := FindResponseBytes s (Go.bytes_of_string (Path r))
                       (Go.bytes_of_string (MockID r)) (Go.bytes_of_string (ContentType r))
                       (Go.bytes_of_string (Method r)) in
        let shadows (z : MockResponse) :=
          keyOf z = keyOf r
          ∧ equalFoldBytes (MethodBytes z) (Go.bytes_of_string (Method r)) = true in
        (∃ (j : nat) (r' : MockResponse),
            (j ≤ i)%nat ∧ loadedRecords baseDir entries !! j = Some r' ∧ shadows r'
            ∧ (∀ k z, (k < j)%nat → loadedRecords baseDir entries !! k = Some z → ¬ shadows z)
            ∧ found = Some r')
        ∧ ((∀ k z, (k < i)%nat → loadedRecords baseDir entries !! k = Some z → ¬ shadows z) →
           ∃ r', found = Some r' ∧ r' = r ∧ Body r' = Body r ∧ StatusCode r' = StatusCode r).
Proof.
  intros Hstat Hdir.
  destruct (NewMockStorage_loaded baseDir entries Hstat Hdir) as (s & Hs & Hidx & _).
  exists s. split; [done|]. split; [exact Hidx|]. intros i r Hi. simpl.
  destruct (loadedRecords_parsed baseDir entries r) as (q & p & fb & Hpf).
  { by apply list_elem_of_lookup_2 in Hi. }
  rewrite (FindResponseBytes_stored s r q p fb Hpf), Hidx.
  destruct (find_filter_first (λ z, keyOf z = keyOf r)
              (λ c, equalFoldBytes (MethodBytes c) (Go.bytes_of_string (Method r)))
              (loadedRecords baseDir entries) i r Hi eq_refl)
    as (j & r' & Hj & Hr' & Hkey & Hfold & Hfind & Hfirst).
  { rewrite (pf_methodBytes _ _ _ _ Hpf). apply equalFoldBytes_refl. }
  split.
  - exists j, r'. repeat split; try done. intros k z Hk Hz [Hzk Hzm].
    specialize (Hfirst k z Hk Hz Hzk). congruence.
  - intros Hnone. exists r'. destruct (decide (j = i)) as [->|Hne].
    + assert (r' = r) as -> by congruence. done.
    + destruct (Hnone j r'); [lia|done|done].
Qed.

End FindLoaded.

Section FindLoadedExamples.
#[local] Existing Instances Fixture.runtime Fixture.equalsFilter.

(** The directory [mocks] of the fixtures holds two recordings of the
    same request, [a.json] with the body [first] and [b.json] with the
    body [second]; every lookup on the fields of a loaded record finds
    a record loaded no later. *)
Lemma find_loaded_witness :
  os_Stat_IsNotExist "mocks" = false
  ∧ os_ReadDir "mocks" = Some (default [] (os_ReadDir "mocks"))
  ∧ ∃ s, NewMockStorage "mocks" = inr s
      ∧ ∀ (i : nat) (r : MockResponse),
          loadedRecords "mocks" (default [] (os_ReadDir "mocks")) !! i = Some r →
          ∃ (j : nat) (r' : MockResponse),
            (j ≤ i)%nat
            ∧ loadedRecords "mocks" (default [] (os_ReadDir "mocks")) !! j = Some r'
            ∧ FindResponseBytes s (Go.bytes_of_string (Path r))
                (Go.bytes_of_string (MockID r)) (Go.bytes_of_string (ContentType r))
                (Go.bytes_of_string (Method r)) = Some r'.
Proof.
  assert (os_Stat_IsNotExist "mocks" = false) as Hstat by (vm_compute; reflexivity).
  assert (os_ReadDir "mocks" = Some (default [] (os_ReadDir "mocks"))) as Hdir
    by (vm_compute; reflexivity).
  do 2 (split; [assumption|]).
  destruct (find_returns_first_loaded "mocks" (default [] (os_ReadDir "mocks")) Hstat Hdir)
    as (s & Hs & _ & Hfind).
  exists s. split; [exact Hs|]. intros i r Hi.
  destruct (Hfind i r Hi) as [(j & r' & Hj & Hr' & _ & _ & Hf) _].
  exists j, r'. split; [exact Hj|]. split; [exact Hr'|exact Hf].
Defined.

(** The claim as stated fails there: the record [second] is loaded into
    the index, and the lookup on its own path, mock id, content type and
    method returns a record whose body is not the body of [second]. *)
Lemma second_recording_not_found :
  ∃ s key candidates r found,
    NewMockStorage "mocks" = inr s
    ∧ Responses s !! key = Some candidates ∧ r ∈ candidates
    ∧ FindResponseBytes s (Go.bytes_of_string (Path r)) (Go.bytes_of_string (MockID r))
        (Go.bytes_of_string (ContentType r)) (Go.bytes_of_string (Method r)) = Some found
    ∧ Body r = Go.bytes_of_string "second"
    ∧ Body found = Go.bytes_of_string "first"
    ∧ Body found ≠ Body r.
Proof.
  eexists _, "/users/1|default|application/json", _, _, _.
  split; [by vm_compute|].
  split; [by vm_compute|].
  split; [apply list_elem_of_lookup_2 with 1%nat; by vm_compute|].
  split; [by vm_compute|].
  split; [by vm_compute|].
  split; [by vm_compute|].
  by vm_compute.
Qed.

End FindLoadedExamples.

(** ** The codec: defaults, event streams, gzip bodies *)

Section CodecClaims.
Context {RT : GoRuntime}.

Lemma parseMockRecord_inr (data : bytes) (fallbackMockID : string) (r : MockResponse) :
  parseMockRecord data fallbackMockID = inr r →
  ∃ record, unmarshalRecord data = inr record
            ∧ parseRecordTree record fallbackMockID = inr r.
Proof.
  unfold parseMockRecord. destruct (unmarshalRecord data) as [e|record]; [done|].
  simpl. eauto.
Qed.

Lemma asFloat_notNumber (m : gmap string JSON) (k : string) :
  Spec.notNumber (m !! k) → asFloat (index m k) = None.
Proof.
  unfold Spec.notNumber, index. destruct (m !! k) as [[]|]; simpl; try done.
  intros H. by destruct (H f).
Qed.

Lemma asString_notString (m : gmap string JSON) (k : string) :
  Spec.notString (m !! k) → asString (index m k) = None.
Proof.
  unfold Spec.notString, index. destruct (m !! k) as [[]|]; simpl; try done.
  intros H. by destruct (H s).
Qed.

(** C10.  For every record that passes the presence check (its
    [request] and [response] are objects), the record the codec returns
    has the status code 200 when [response.status_code] is missing or
    not a number, and the method [GET] when [request.method] is missing
    or not a string; and the codec fails on such a record only on its
    URL or on serializing its body. *)
Theorem codec_defaults (data : bytes) (record requestData responseData : gmap string JSON)
    (fallbackMockID : string) :
  unmarshalRecord data = inr record →
  record !! "request" = Some (JObject requestData) →
  record !! "response" = Some (JObject responseData) →
  (∀ r, parseMockRecord data fallbackMockID = inr r →
        (Spec.notNumber (responseData !! "status_code") → StatusCode r = 200)
        ∧ (Spec.notString (requestData !! "method") → Method r = "GET"))
  ∧ (∀ e, parseMockRecord data fallbackMockID = inl e → e = errURL ∨ e = errMarshal).
Proof.
  intros Hdata Hq Hp. unfold parseMockRecord. rewrite Hdata. simpl.
  assert (asObject (index record "request") = Some requestData) as Hq'
    by (unfold index; by rewrite Hq).
  assert (asObject (index record "response") = Some responseData) as Hp'
    by (unfold index; by rewrite Hp).
  split.
  - intros r Hr. apply parseRecordTree_inr in Hr as (q & p & Hq2 & Hp2 & Hpf).
    assert (q = requestData) as -> by congruence.
    assert (p = responseData) as -> by congruence.
    split; intros Hmiss.
    + by rewrite (pf_status _ _ _ _ Hpf), asFloat_notNumber.
    + by rewrite (pf_method _ _ _ _ Hpf), asString_notString.
  - intros e He. apply (parseRecordTree_inl _ _ _ He); by eexists.
Qed.

(** C5 (as amended).  For every record the codec returns, [IsSSE] is
    true exactly when the normalized content type is
    [text/event-stream]; [SSEEvents] is non-empty only if [IsSSE] is
    true, and exactly when moreover the body is an array with an element
    that is an object with a [data] field. *)
Theorem sse_events_imply_sse (data : bytes) (fallbackMockID : string) (r : MockResponse) :
  parseMockRecord data fallbackMockID = inr r →
  (IsSSE r = true ↔ ContentType r = "text/event-stream")
  ∧ (SSEEvents r ≠ [] → IsSSE r = true)
  ∧ (SSEEvents r ≠ []
     ↔ IsSSE r = true
       ∧ ∃ arr eventMap eventData,
           OriginalBody r = JArray arr ∧ JObject eventMap ∈ arr
           ∧ eventMap !! "data" = Some eventData).
Proof.
  intros Hr. apply parseMockRecord_inr in Hr as (record & _ & Hr).
  apply parseRecordTree_inr in Hr as (q & p & _ & _ & Hpf).
  pose proof (pf_isSSE _ _ _ _ Hpf) as Hsse. pose proof (pf_events _ _ _ _ Hpf) as Hev.
  assert (SSEEvents r ≠ []
          ↔ IsSSE r = true
            ∧ ∃ arr eventMap eventData,
                OriginalBody r = JArray arr ∧ JObject eventMap ∈ arr
                ∧ eventMap !! "data" = Some eventData) as Hiff.
  { rewrite Hev. unfold collectSSEEvents. destruct (IsSSE r).
    - destruct (OriginalBody r) as [| | | |arr|]; simpl;
        try (split; [done|by intros (_ & ? & ? & ? & ? & _)]).
      split.
      + intros Hne. split; [done|].
        destruct (omap sseEventOf arr) as [|ev evs] eqn:Hom; [done|].
        assert (ev ∈ omap sseEventOf arr) as Hin by (rewrite Hom; left).
        apply list_elem_of_omap in Hin as (item & Hitem & Hof).
        unfold sseEventOf in Hof. destruct item as [| | | | |eventMap]; try done. simpl in Hof.
        destruct (eventMap !! "data") as [eventData|] eqn:Hd; [|done].
        by exists arr, eventMap, eventData.
      + intros (_ & arr' & eventMap & eventData & [= <-] & Hin & Hd) Hnil.
        assert (∃ ev, sseEventOf (JObject eventMap) = Some ev) as [ev Hev'].
        { unfold sseEventOf. simpl. rewrite Hd. eauto. }
        assert (ev ∈ omap sseEventOf arr) as Hin'.
        { apply list_elem_of_omap. eauto. }
        rewrite Hnil in Hin'. by apply elem_of_nil in Hin'.
    - split; [done|]. by intros [? _]. }
  split; [|split; [|done]].
  - rewrite Hsse. apply bool_decide_eq_true.
  - intros Hne. by apply Hiff in Hne as [? _].
Qed.

(** The lower-cased header table has the value of a header name when
    every header with that name, whatever its case, has that value. *)
Lemma responseHeaderMaps_lower (headers : gmap string JSON) (keyLower value : string) :
  (∃ k, headers !! k = Some (JString value) ∧ strings_ToLower k = keyLower) →
  (∀ k v, headers !! k = Some v → strings_ToLower k = keyLower →
          asString v = Some value ∨ asString v = None) →
  (responseHeaderMaps headers).2 !! keyLower = Some value.
Proof.
  intros (k0 & Hk0 & Hl0) Hall. unfold responseHeaderMaps.
  assert (∀ k v, (k, v) ∈ mapRange headers ↔ headers !! k = Some v) as Hrange.
  { intros k v. rewrite (mapRange_perm _ headers). apply elem_of_map_to_list. }
  assert ((k0, JString value) ∈ mapRange headers) as Hin by by apply Hrange.
  assert (∀ k v, (k, v) ∈ mapRange headers → strings_ToLower k = keyLower →
                 asString v = Some value ∨ asString v = None) as Hall'.
  { intros k v Hkv. apply Hall. by apply Hrange. }
  clear Hrange Hall Hk0. revert Hin Hall'.
  generalize (mapRange headers). intros l.
  assert (∀ (acc : gmap string string * gmap string string),
            ((k0, JString value) ∈ l ∨ acc.2 !! keyLower = Some value) →
            (∀ k v, (k, v) ∈ l → strings_ToLower k = keyLower →
                    asString v = Some value ∨ asString v = None) →
            (foldl (λ acc kv,
                      match asString kv.2 with
                      | Some str => (<[kv.1 := str]> acc.1, <[strings_ToLower kv.1 := str]> acc.2)
                      | None => acc
                      end) acc l).2 !! keyLower = Some value) as G.
  { induction l as [|[k v] l IH]; intros acc Hor Hall; simpl.
    - destruct Hor as [Hin|Hacc]; [by apply elem_of_nil in Hin|done].
    - apply IH; [|intros k' v' Hin'; apply Hall; by right].
      destruct (asString v) as [str|] eqn:Hv; simpl.
      + destruct (decide (strings_ToLower k = keyLower)) as [Hk|Hk].
        * right. destruct (Hall k v) as [Hs|Hs]; [by left|done| |congruence].
          rewrite Hk, lookup_insert_eq. congruence.
        * destruct Hor as [Hin|Hacc].
          -- apply elem_of_cons in Hin as [[= -> <-]|Hin]; [done|by left].
          -- right. by rewrite lookup_insert_ne.
      + destruct Hor as [Hin|Hacc]; [|by right].
        apply elem_of_cons in Hin as [[= -> <-]|Hin]; [done|by left]. }
  intros Hin Hall. apply G; [by left|done].
Qed.

(** C8 (as amended).  For every record whose response headers contain
    [Content-Encoding] (in any case) with the value [gzip] and whose
    body is a non-empty string, the codec decodes the body from base64,
    gunzips it and parses it as JSON, in that order: when all three
    succeed the decoded JSON replaces the body; when base64 decoding or
    gunzip fails the original string is kept; when only the JSON parse
    fails the decompressed text replaces the body, as a string.  In
    every case the body bytes are those of the resulting body. *)
Theorem gzip_body_best_effort (record responseData headers : gmap string JSON)
    (fallbackMockID bodyStr : string) (r : MockResponse) :
  parseRecordTree record fallbackMockID = inr r →
  record !! "response" = Some (JObject responseData) →
  responseData !! "headers" = Some (JObject headers) →
  (∃ k, headers !! k = Some (JString "gzip") ∧ strings_ToLower k = "content-encoding") →
  (∀ k v, headers !! k = Some v → strings_ToLower k = "content-encoding" →
          asString v = Some "gzip" ∨ asString v = None) →
  responseData !! "body" = Some (JString bodyStr) → bodyStr ≠ "" →
  materializeBody (ContentType r) (OriginalBody r) = inr (Body r)
  ∧ match base64_DecodeString bodyStr with
    | None => OriginalBody r = JString bodyStr
    | Some bodyBytes =>
        match gzip_NewReader bodyBytes with
        | None => OriginalBody r = JString bodyStr
        | Some gzReader =>
            match gzip_ReadAll gzReader with
            | None => OriginalBody r = JString bodyStr
            | Some decompressed =>
                match json_Unmarshal decompressed with
                | Some jsonBody => OriginalBody r = jsonBody
                | None => OriginalBody r = JString (Go.string_of_bytes decompressed)
                end
            end
        end
    end.
Proof.
  intros Hr Hp Hh Hgz Hall Hbody Hne.
  apply parseRecordTree_inr in Hr as (q & p & _ & Hp2 & Hpf).
  assert (p = responseData) as ->.
  { unfold index in Hp2. rewrite Hp in Hp2. simpl in Hp2. congruence. }
  split; [apply (pf_bytes _ _ _ _ Hpf)|].
  pose proof (pf_body _ _ _ _ Hpf) as Hob. unfold index in Hob. rewrite Hh, Hbody in Hob.
  unfold decodeGzipBody in Hob. cbn [from_option asObject asString id] in Hob.
  rewrite decide_True in Hob by done. unfold indexStr in Hob.
  rewrite (responseHeaderMaps_lower headers "content-encoding" "gzip" Hgz Hall) in Hob.
  cbn [from_option id] in Hob. rewrite decide_True in Hob by done.
  destruct (base64_DecodeString bodyStr) as [bodyBytes|]; [|done].
  destruct (gzip_NewReader bodyBytes) as [gzReader|]; [|done].
  destruct (gzip_ReadAll gzReader) as [decompressed|]; [|done].
  by destruct (json_Unmarshal decompressed).
Qed.

End CodecClaims.

Section CodecExamples.
#[local] Existing Instances Fixture.runtime Fixture.equalsFilter.

(** A record with neither [status_code] nor [method] is served with
    the status 200 and has the method [GET]. *)
Lemma codec_defaults_witness :
  unmarshalRecord Fixture.bareText = inr Fixture.bareRecord
  ∧ Fixture.bareRecord !! "request" = Some (JObject Fixture.bareRequest)
  ∧ Fixture.bareRecord !! "response" = Some (JObject Fixture.bareResponse)
  ∧ ∃ r, parseMockRecord Fixture.bareText "default" = inr r
         ∧ StatusCode r = 200 ∧ Method r = "GET".
Proof.
  assert (unmarshalRecord Fixture.bareText = inr Fixture.bareRecord) as H1
    by (vm_compute; reflexivity).
  assert (Fixture.bareRecord !! "request" = Some (JObject Fixture.bareRequest)) as H2
    by (vm_compute; reflexivity).
  assert (Fixture.bareRecord !! "response" = Some (JObject Fixture.bareResponse)) as H3
    by (vm_compute; reflexivity).
  do 3 (split; [assumption|]).
  destruct (codec_defaults Fixture.bareText Fixture.bareRecord Fixture.bareRequest
              Fixture.bareResponse "default" H1 H2 H3) as [Hok _].
  clear H1 H2 H3.
  destruct (parseMockRecord Fixture.bareText "default") as [e|r] eqn:Hr;
    [vm_compute in Hr; discriminate Hr|].
  clear Hr. exists r. split; [reflexivity|].
  destruct (Hok r eq_refl) as [Hs Hm].
  split; [apply Hs|apply Hm]; intros x Hx; vm_compute in Hx; discriminate Hx.
Defined.

(** The record of example E has five events and is an event stream. *)
Lemma sse_events_witness :
  ∃ r, parseMockRecord Fixture.streamText "default" = inr r
       ∧ length (SSEEvents r) = 5%nat
       ∧ (IsSSE r = true ↔ ContentType r = "text/event-stream")
       ∧ (SSEEvents r ≠ [] → IsSSE r = true).
Proof.
  destruct (parseMockRecord Fixture.streamText "default") as [e|r] eqn:Hr;
    [vm_compute in Hr; discriminate Hr|].
  exists r. split; [reflexivity|].
  destruct (sse_events_imply_sse Fixture.streamText "default" r Hr) as (H1 & H2 & _).
  split; [|split; assumption].
  vm_compute in Hr. injection Hr as <-. reflexivity.
Defined.

(** The claim as stated fails on an event stream that was recorded as
    one string: the record is an event stream, and it has no events. *)
Lemma event_stream_without_events :
  ∃ r, parseMockRecord Fixture.textStreamText "default" = inr r
       ∧ ContentType r = "text/event-stream"
       ∧ IsSSE r = true
       ∧ SSEEvents r = [].
Proof.
  eexists. split; [vm_compute; reflexivity|].
  vm_compute. repeat split; reflexivity.
Qed.

(** The body [hello], gzipped and in base64, is decoded and
    decompressed; [hello] is not JSON. *)
Lemma gzip_body_witness :
  ∃ r, parseRecordTree (Fixture.gzipRecord Fixture.helloGzipBase64) "default" = inr r
       ∧ json_Unmarshal (Go.bytes_of_string "hello") = None
       ∧ OriginalBody r = JString "hello"
       ∧ materializeBody (ContentType r) (OriginalBody r) = inr (Body r).
Proof.
  destruct (parseRecordTree (Fixture.gzipRecord Fixture.helloGzipBase64) "default")
    as [e|r] eqn:Hr; [vm_compute in Hr; discriminate Hr|].
  exists r. split; [reflexivity|]. split; [vm_compute; reflexivity|].
  destruct (gzip_body_best_effort (Fixture.gzipRecord Fixture.helloGzipBase64)
              (Fixture.gzipResponse Fixture.helloGzipBase64) Fixture.gzipHeaders
              "default" Fixture.helloGzipBase64 r Hr) as [Hbytes Hbody].
  - vm_compute. reflexivity.
  - vm_compute. reflexivity.
  - exists "Content-Encoding". split; vm_compute; reflexivity.
  - intros k v Hkv _. unfold Fixture.gzipHeaders in Hkv.
    apply lookup_singleton_Some in Hkv as [_ <-]. left. reflexivity.
  - vm_compute. reflexivity.
  - intros Hx. vm_compute in Hx. discriminate Hx.
  - split; [|exact Hbytes]. vm_compute in Hbody. exact Hbody.
Defined.

(** The claim as stated fails on that record: its headers have
    [Content-Encoding: gzip], its body is a string, the JSON parse of
    the decompressed bytes fails, and the original string is not kept. *)
Lemma gzip_text_replaces_body :
  ∃ r, parseRecordTree (Fixture.gzipRecord Fixture.helloGzipBase64) "default" = inr r
       ∧ Fixture.gzipHeaders !! "Content-Encoding" = Some (JString "gzip")
       ∧ Fixture.gzipResponse Fixture.helloGzipBase64 !! "body"
         = Some (JString Fixture.helloGzipBase64)
       ∧ json_Unmarshal (Go.bytes_of_string "hello") = None
       ∧ OriginalBody r = JString "hello"
       ∧ OriginalBody r ≠ JString Fixture.helloGzipBase64
       ∧ Body r = Go.bytes_of_string "hello".
Proof.
  eexists. split; [vm_compute; reflexivity|].
  do 4 (split; [vm_compute; reflexivity|]).
  split; [|vm_compute; reflexivity].
  vm_compute. intros Hx. discriminate Hx.
Qed.

End CodecExamples.


(** ** binary64 products and quotients

    Rocq's primitive floats come with the specification of the IEEE 754
    operations on [spec_float] (module [SpecFloat]) and the axioms that
    the primitive operations compute them.  This section derives from
    these that the product by a non-negative finite float is monotone
    on the non-negative finite floats, and that the quotient of two
    ordinary floats is off the real quotient by at most [2^-52] of
    it. *)
Module Binary64.

(** *** Shifting right with a round and a sticky bit *)

Lemma digits2_pos_bounds (m : positive) :
  2 ^ (Z.pos (digits2_pos m) - 1) ≤ Z.pos m < 2 ^ Z.pos (digits2_pos m).
Proof.
  induction m as [m IH|m IH|]; cbn [digits2_pos].
  - rewrite Pos2Z.inj_succ. replace (Z.succ (Z.pos (digits2_pos m)) - 1)
      with (Z.succ (Z.pos (digits2_pos m) - 1)) by lia.
    rewrite !Z.pow_succ_r by lia. lia.
  - rewrite Pos2Z.inj_succ. replace (Z.succ (Z.pos (digits2_pos m)) - 1)
      with (Z.succ (Z.pos (digits2_pos m) - 1)) by lia.
    rewrite !Z.pow_succ_r by lia. lia.
  - cbn. lia.
Qed.

Lemma digits2_pos_log2 (m : positive) : Z.pos (digits2_pos m) = Z.log2 (Z.pos m) + 1.
Proof.
  pose proof (digits2_pos_bounds m) as [Hlo Hhi].
  symmetry. rewrite (Z.log2_unique (Z.pos m) (Z.pos (digits2_pos m) - 1)); [lia| |].
  - lia.
  - split; [exact Hlo|]. replace (Z.succ (Z.pos (digits2_pos m) - 1))
      with (Z.pos (digits2_pos m)) by lia. exact Hhi.
Qed.

(** The record that [k ≥ 1] steps of [shr_1] make of the integer [M]:
    the quotient by [2^k], whether the remainder reaches the half, and
    whether anything lies below the half bit. *)
Definition shifted (M k : Z) : shr_record :=
  {| shr_m := M / 2 ^ k;
     shr_r := 2 ^ (k - 1) <=? M mod 2 ^ k;
     shr_s := negb (M mod 2 ^ (k - 1) =? 0) |}.

Lemma shr_1_nonneg (m : Z) (r s : bool) :
  0 ≤ m → shr_1 {| shr_m := m; shr_r := r; shr_s := s |}
          = {| shr_m := m / 2; shr_r := Z.odd m; shr_s := r || s |}.
Proof.
  intros Hm. rewrite <- Z.div2_div. destruct m as [|[p|p|]|p]; try reflexivity. lia.
Qed.

Lemma mod_pow2_succ (M k : Z) :
  0 ≤ k → M mod 2 ^ (k + 1) = M mod 2 ^ k + 2 ^ k * ((M / 2 ^ k) mod 2).
Proof.
  intros Hk. rewrite Z.pow_add_r, Z.pow_1_r by lia.
  apply Z.rem_mul_r; [|lia]. apply Z.pow_nonzero; lia.
Qed.

Lemma odd_mod2 (q : Z) : Z.odd q = (1 <=? q mod 2).
Proof.
  rewrite Zmod_odd. destruct (Z.odd q); reflexivity.
Qed.

Lemma shr_1_exact (M : Z) :
  0 ≤ M → shr_1 {| shr_m := M; shr_r := false; shr_s := false |} = shifted M 1.
Proof.
  intros HM. rewrite shr_1_nonneg by exact HM. unfold shifted.
  change (2 ^ (1 - 1)) with 1. change (2 ^ 1) with 2.
  rewrite Z.mod_1_r. f_equal. apply odd_mod2.
Qed.

Lemma shr_1_shifted (M k : Z) :
  0 ≤ M → 1 ≤ k → shr_1 (shifted M k) = shifted M (k + 1).
Proof.
  intros HM Hk. unfold shifted at 1.
  rewrite shr_1_nonneg by (apply Z.div_pos; [exact HM|apply Z.pow_pos_nonneg; lia]).
  unfold shifted. replace (k + 1 - 1) with k by lia.
  assert (H2k : 0 < 2 ^ k) by (apply Z.pow_pos_nonneg; lia).
  assert (H2k1 : 0 < 2 ^ (k - 1)) by (apply Z.pow_pos_nonneg; lia).
  pose proof (mod_pow2_succ M k ltac:(lia)) as Hsucc.
  pose proof (mod_pow2_succ M (k - 1) ltac:(lia)) as Hpred.
  replace (k - 1 + 1) with k in Hpred by lia.
  pose proof (Z.mod_pos_bound M (2 ^ k) H2k) as Hb.
  pose proof (Z.mod_pos_bound M (2 ^ (k - 1)) H2k1) as Hb1.
  pose proof (Z.mod_pos_bound (M / 2 ^ k) 2 ltac:(lia)) as Hbit.
  pose proof (Z.mod_pos_bound (M / 2 ^ (k - 1)) 2 ltac:(lia)) as Hbit1.
  assert (Hcase : (M / 2 ^ k) mod 2 = 0 ∨ (M / 2 ^ k) mod 2 = 1) by lia.
  assert (Hcase1 : (M / 2 ^ (k - 1)) mod 2 = 0 ∨ (M / 2 ^ (k - 1)) mod 2 = 1) by lia.
  f_equal.
  - rewrite Z.div_div by lia. rewrite <- (Z.pow_1_r 2) at 2.
    rewrite <- Z.pow_add_r by lia. reflexivity.
  - rewrite odd_mod2, Hsucc.
    destruct Hcase as [-> | ->];
      destruct (Z.leb_spec 1 0), (Z.leb_spec 1 1),
        (Z.leb_spec (2 ^ k) (M mod 2 ^ k + 2 ^ k * 0)),
        (Z.leb_spec (2 ^ k) (M mod 2 ^ k + 2 ^ k * 1)); try reflexivity; lia.
  - rewrite Hpred.
    destruct Hcase1 as [-> | ->];
      destruct (Z.leb_spec (2 ^ (k - 1)) (M mod 2 ^ (k - 1) + 2 ^ (k - 1) * 0)),
        (Z.leb_spec (2 ^ (k - 1)) (M mod 2 ^ (k - 1) + 2 ^ (k - 1) * 1)),
        (Z.eqb_spec (M mod 2 ^ (k - 1)) 0),
        (Z.eqb_spec (M mod 2 ^ (k - 1) + 2 ^ (k - 1) * 0) 0),
        (Z.eqb_spec (M mod 2 ^ (k - 1) + 2 ^ (k - 1) * 1) 0); try reflexivity; lia.
Qed.

Lemma iter_shr_1_shifted (M : Z) (p : positive) :
  0 ≤ M → ∀ k, 1 ≤ k → SpecFloat.iter_pos shr_1 p (shifted M k) = shifted M (k + Z.pos p).
Proof.
  intros HM. induction p as [p IH|p IH|]; intros k Hk; cbn [SpecFloat.iter_pos].
  - rewrite shr_1_shifted, IH, IH by lia. f_equal. lia.
  - rewrite IH, IH by lia. f_equal. lia.
  - by apply shr_1_shifted.
Qed.

Lemma iter_shr_1_exact (M : Z) (p : positive) :
  0 ≤ M →
  SpecFloat.iter_pos shr_1 p {| shr_m := M; shr_r := false; shr_s := false |} = shifted M (Z.pos p).
Proof.
  intros HM. induction p as [p IH|p IH|]; cbn [SpecFloat.iter_pos].
  - rewrite shr_1_exact, !iter_shr_1_shifted by lia. f_equal. lia.
  - rewrite IH, iter_shr_1_shifted by lia. f_equal. lia.
  - by apply shr_1_exact.
Qed.


(** *** Rounding to nearest, ties to even *)

(** [M / 2^k], rounded to the nearest integer, to the even one at a tie. *)
Definition nearest (M k : Z) : Z :=
  let q := M / 2 ^ k in
  let r := M mod 2 ^ k in
  if 2 ^ k <? 2 * r then q + 1
  else if (2 * r =? 2 ^ k) && Z.odd q then q + 1
  else q.

Lemma nearest_bounds (M k : Z) : M / 2 ^ k ≤ nearest M k ≤ M / 2 ^ k + 1.
Proof.
  unfold nearest. destruct (_ <? _); [lia|]. destruct (_ && _); lia.
Qed.

Lemma nearest_mono (M1 M2 k : Z) : 0 ≤ k → M1 ≤ M2 → nearest M1 k ≤ nearest M2 k.
Proof.
  intros Hk HM.
  assert (HD : 0 < 2 ^ k) by (apply Z.pow_pos_nonneg; lia).
  pose proof (Z.div_le_mono M1 M2 (2 ^ k) HD HM) as Hq.
  pose proof (nearest_bounds M1 k) as B1. pose proof (nearest_bounds M2 k) as B2.
  destruct (Z.eq_dec (M1 / 2 ^ k) (M2 / 2 ^ k)) as [E|N]; [|lia].
  pose proof (Z.div_mod M1 (2 ^ k) ltac:(lia)) as D1.
  pose proof (Z.div_mod M2 (2 ^ k) ltac:(lia)) as D2.
  unfold nearest. rewrite <- E in *.
  destruct (Z.ltb_spec (2 ^ k) (2 * (M1 mod 2 ^ k))),
    (Z.ltb_spec (2 ^ k) (2 * (M2 mod 2 ^ k))),
    (Z.eqb_spec (2 * (M1 mod 2 ^ k)) (2 ^ k)),
    (Z.eqb_spec (2 * (M2 mod 2 ^ k)) (2 ^ k)),
    (Z.odd (M1 / 2 ^ k)); cbn [andb]; lia.
Qed.

Lemma nearest_exact (c k : Z) : 0 ≤ k → nearest (c * 2 ^ k) k = c.
Proof.
  intros Hk. assert (HD : 0 < 2 ^ k) by (apply Z.pow_pos_nonneg; lia).
  unfold nearest. rewrite Z.div_mul, Z.mod_mul by lia.
  destruct (Z.ltb_spec (2 ^ k) (2 * 0)); [lia|].
  destruct (Z.eqb_spec (2 * 0) (2 ^ k)); [lia|]. reflexivity.
Qed.

Lemma nearest_scale (M k j : Z) :
  0 ≤ k → 0 ≤ j → nearest (M * 2 ^ j) (k + j) = nearest M k.
Proof.
  intros Hk Hj.
  assert (HD : 0 < 2 ^ k) by (apply Z.pow_pos_nonneg; lia).
  assert (HJ : 0 < 2 ^ j) by (apply Z.pow_pos_nonneg; lia).
  unfold nearest. rewrite Z.pow_add_r by lia.
  rewrite Z.div_mul_cancel_r, Z.mul_mod_distr_r by lia.
  destruct (Z.ltb_spec (2 ^ k * 2 ^ j) (2 * (M mod 2 ^ k * 2 ^ j))),
    (Z.ltb_spec (2 ^ k) (2 * (M mod 2 ^ k))),
    (Z.eqb_spec (2 * (M mod 2 ^ k * 2 ^ j)) (2 ^ k * 2 ^ j)),
    (Z.eqb_spec (2 * (M mod 2 ^ k)) (2 ^ k)); cbn [andb]; try reflexivity; nia.
Qed.

(** What the rounding step of [binary_round_aux] makes of the shifted
    record. *)
Lemma round_shifted (M k : Z) :
  1 ≤ k →
  round_nearest_even (shr_m (shifted M k)) (loc_of_shr_record (shifted M k)) = nearest M k.
Proof.
  intros Hk. unfold shifted, nearest. cbn [shr_m loc_of_shr_record].
  assert (Hh : 0 < 2 ^ (k - 1)) by (apply Z.pow_pos_nonneg; lia).
  pose proof (mod_pow2_succ M (k - 1) ltac:(lia)) as Hs.
  replace (k - 1 + 1) with k in Hs by lia.
  assert (H2 : 2 ^ k = 2 * 2 ^ (k - 1)).
  { rewrite <- (Z.pow_succ_r 2 (k - 1)) by lia. f_equal. lia. }
  pose proof (Z.mod_pos_bound M (2 ^ (k - 1)) Hh) as Hb.
  pose proof (Z.mod_pos_bound (M / 2 ^ (k - 1)) 2 ltac:(lia)) as Hbit.
  assert (Hcase : (M / 2 ^ (k - 1)) mod 2 = 0 ∨ (M / 2 ^ (k - 1)) mod 2 = 1) by lia.
  rewrite Hs, H2.
  destruct Hcase as [-> | ->];
    destruct (Z.leb_spec (2 ^ (k - 1)) (M mod 2 ^ (k - 1) + 2 ^ (k - 1) * 0)),
      (Z.leb_spec (2 ^ (k - 1)) (M mod 2 ^ (k - 1) + 2 ^ (k - 1) * 1)),
      (Z.eqb_spec (M mod 2 ^ (k - 1)) 0),
      (Z.ltb_spec (2 * 2 ^ (k - 1)) (2 * (M mod 2 ^ (k - 1) + 2 ^ (k - 1) * 0))),
      (Z.ltb_spec (2 * 2 ^ (k - 1)) (2 * (M mod 2 ^ (k - 1) + 2 ^ (k - 1) * 1))),
      (Z.eqb_spec (2 * (M mod 2 ^ (k - 1) + 2 ^ (k - 1) * 0)) (2 * 2 ^ (k - 1))),
      (Z.eqb_spec (2 * (M mod 2 ^ (k - 1) + 2 ^ (k - 1) * 1)) (2 * 2 ^ (k - 1)));
    cbn [negb andb round_nearest_even]; try lia;
    try (rewrite <- Z.negb_odd; destruct (Z.odd _); reflexivity);
    try (destruct (Z.odd _); reflexivity).
Qed.

(** *** The rounded product, in units of [2^-1074] *)

(** The exponent at which a positive integer [P], counted in units of
    [2^-2148], is rounded: 53 bits are kept, and nothing below
    [2^-1074]. *)
Definition exponentOf (P : Z) : Z := Z.max (Z.log2 P + 1 - 53) 1074.

(** The binary64 value of [P * 2^-2148], as a multiple of [2^-1074];
    [2^2200] stands for infinity. *)
Definition rounded (P : Z) : Z :=
  if P =? 0 then 0
  else
    let v := nearest P (exponentOf P) * 2 ^ (exponentOf P - 1074) in
    if v <? 2 ^ 2098 then v else 2 ^ 2200.

Lemma exponentOf_ge (P : Z) : 1074 ≤ exponentOf P.
Proof. unfold exponentOf. lia. Qed.

Lemma nearest_nonneg (P k : Z) : 0 ≤ P → 0 ≤ k → 0 ≤ nearest P k.
Proof.
  intros HP Hk. pose proof (nearest_bounds P k) as [H _].
  assert (0 ≤ P / 2 ^ k) by (apply Z.div_pos; [exact HP|apply Z.pow_pos_nonneg; lia]). lia.
Qed.

Lemma rounded_nonneg (P : Z) : 0 ≤ P → 0 ≤ rounded P.
Proof.
  intros HP. unfold rounded. destruct (P =? 0); [lia|].
  pose proof (exponentOf_ge P) as Hk.
  destruct (_ <? _); [|apply Z.pow_nonneg; lia].
  apply Z.mul_nonneg_nonneg; [apply nearest_nonneg; lia|apply Z.pow_nonneg; lia].
Qed.

Lemma rounded_value_mono (P1 P2 : Z) :
  0 < P1 → P1 ≤ P2 →
  nearest P1 (exponentOf P1) * 2 ^ (exponentOf P1 - 1074)
  ≤ nearest P2 (exponentOf P2) * 2 ^ (exponentOf P2 - 1074).
Proof.
  intros HP1 HP.
  pose proof (Z.log2_le_mono P1 P2 HP) as Hlog.
  pose proof (exponentOf_ge P1) as Hk1. pose proof (exponentOf_ge P2) as Hk2.
  destruct (Z.eq_dec (exponentOf P1) (exponentOf P2)) as [E|N].
  - rewrite E. apply Z.mul_le_mono_nonneg_r; [apply Z.pow_nonneg; lia|].
    apply nearest_mono; lia.
  - assert (Hk : exponentOf P1 < exponentOf P2) by (unfold exponentOf in *; lia).
    set (d1 := Z.log2 P1 + 1). set (d2 := Z.log2 P2 + 1).
    assert (Hk2' : exponentOf P2 = d2 - 53) by (unfold exponentOf, d2 in *; lia).
    assert (Hd : d1 < d2) by (unfold exponentOf, d1, d2 in *; lia).
    pose proof (Z.log2_spec P1 HP1) as [_ Hhi1].
    pose proof (Z.log2_spec P2 ltac:(lia)) as [Hlo2 _].
    set (u := Z.max d1 (exponentOf P1)).
    assert (Hup : nearest P1 (exponentOf P1) ≤ 2 ^ (u - exponentOf P1)).
    { rewrite <- (nearest_exact (2 ^ (u - exponentOf P1)) (exponentOf P1)) by lia.
      apply nearest_mono; [lia|]. rewrite <- Z.pow_add_r by lia.
      replace (u - exponentOf P1 + exponentOf P1) with u by lia.
      transitivity (2 ^ d1); [unfold d1; replace (Z.log2 P1 + 1) with (Z.succ (Z.log2 P1)) by lia; lia|].
      apply Z.pow_le_mono_r; lia. }
    assert (Hlow : 2 ^ 52 ≤ nearest P2 (exponentOf P2)).
    { rewrite <- (nearest_exact (2 ^ 52) (exponentOf P2)) at 1 by lia.
      apply nearest_mono; [lia|]. rewrite <- Z.pow_add_r by lia.
      replace (52 + exponentOf P2) with (Z.log2 P2) by (unfold d2 in *; lia). exact Hlo2. }
    transitivity (2 ^ (u - exponentOf P1) * 2 ^ (exponentOf P1 - 1074)).
    { apply Z.mul_le_mono_nonneg_r; [apply Z.pow_nonneg; lia|exact Hup]. }
    transitivity (2 ^ 52 * 2 ^ (exponentOf P2 - 1074)).
    2:{ apply Z.mul_le_mono_nonneg_r; [apply Z.pow_nonneg; lia|exact Hlow]. }
    rewrite <- !Z.pow_add_r by lia. apply Z.pow_le_mono_r; lia.
Qed.

Lemma rounded_mono (P1 P2 : Z) : 0 ≤ P1 → P1 ≤ P2 → rounded P1 ≤ rounded P2.
Proof.
  intros HP1 HP. destruct (Z.eq_dec P1 0) as [->|N1].
  - change (rounded 0) with 0. apply rounded_nonneg; lia.
  - pose proof (rounded_value_mono P1 P2 ltac:(lia) HP) as Hv.
    unfold rounded.
    destruct (Z.eqb_spec P1 0); [lia|]. destruct (Z.eqb_spec P2 0); [lia|].
    assert (Htop : 2 ^ 2098 ≤ 2 ^ 2200) by (apply Z.pow_le_mono_r; lia).
    cbn zeta.
    destruct (Z.ltb_spec (nearest P1 (exponentOf P1) * 2 ^ (exponentOf P1 - 1074)) (2 ^ 2098)),
      (Z.ltb_spec (nearest P2 (exponentOf P2) * 2 ^ (exponentOf P2 - 1074)) (2 ^ 2098)); lia.
Qed.

(** *** The order of the non-negative floats, and the product *)

(** A float that is not a NaN, as a multiple of [2^-1074]; [2^2200]
    stands for infinity. *)
Definition key (x : spec_float) : Z :=
  match x with
  | S754_zero _ => 0
  | S754_infinity s => if s then - 2 ^ 2200 else 2 ^ 2200
  | S754_nan => 0
  | S754_finite s m e =>
      if s then - (Z.pos m * 2 ^ (e + 1074)) else Z.pos m * 2 ^ (e + 1074)
  end.

(** Zero, a positive finite float, or plus infinity. *)
Definition nonNegative (x : spec_float) : Prop :=
  match x with
  | S754_zero _ | S754_finite false _ _ | S754_infinity false => True
  | _ => False
  end.

Lemma fexp_eq (x : Z) : fexp prec emax x = Z.max (x - 53) (-1074).
Proof. reflexivity. Qed.

Lemma nearest_0 (M : Z) : nearest M 0 = M.
Proof.
  unfold nearest. change (2 ^ 0) with 1. rewrite Z.div_1_r, Z.mod_1_r. reflexivity.
Qed.

Lemma shr_nonpos (mrs : shr_record) (e n : Z) : n ≤ 0 → shr mrs e n = (mrs, e).
Proof. intros Hn. destruct n as [|p|p]; [reflexivity|lia|reflexivity]. Qed.

Lemma shr_exact (M e n : Z) :
  0 ≤ M → 0 ≤ n →
  round_nearest_even
    (shr_m (shr {| shr_m := M; shr_r := false; shr_s := false |} e n).1)
    (loc_of_shr_record (shr {| shr_m := M; shr_r := false; shr_s := false |} e n).1)
  = nearest M n
  ∧ (shr {| shr_m := M; shr_r := false; shr_s := false |} e n).2 = e + n.
Proof.
  intros HM Hn. destruct n as [|p|p]; [| |lia].
  - cbn. rewrite nearest_0. split; [reflexivity|lia].
  - cbn [shr fst snd]. rewrite iter_shr_1_exact by exact HM.
    split; [apply round_shifted; lia|reflexivity].
Qed.

Lemma first_stage (m : positive) (e : Z) :
  e ≤ fexp prec emax (Z.pos (digits2_pos m) + e) →
  ∃ mrs,
    shr_fexp prec emax (Z.pos m) e loc_Exact
    = (mrs, fexp prec emax (Z.pos (digits2_pos m) + e))
    ∧ round_nearest_even (shr_m mrs) (loc_of_shr_record mrs)
      = nearest (Z.pos m) (fexp prec emax (Z.pos (digits2_pos m) + e) - e).
Proof.
  intros Hn. unfold shr_fexp. cbn [Zdigits2 shr_record_of_loc].
  set (n := fexp prec emax (Z.pos (digits2_pos m) + e) - e).
  destruct (shr_exact (Z.pos m) e n ltac:(lia) ltac:(lia)) as [H1 H2].
  destruct (shr {| shr_m := Z.pos m; shr_r := false; shr_s := false |} e n) as [mrs e'].
  cbn [fst snd] in H1, H2. exists mrs. split; [|exact H1].
  f_equal. unfold n in H2. lia.
Qed.

Lemma second_stage_zero (E : Z) :
  -1074 ≤ E →
  shr_fexp prec emax 0 E loc_Exact = ({| shr_m := 0; shr_r := false; shr_s := false |}, E).
Proof.
  intros HE. unfold shr_fexp. cbn [Zdigits2 shr_record_of_loc].
  rewrite fexp_eq. apply shr_nonpos. lia.
Qed.

Lemma second_stage_plain (p : positive) (E : Z) :
  Z.pos p < 2 ^ 53 → -1074 ≤ E →
  shr_fexp prec emax (Z.pos p) E loc_Exact
  = ({| shr_m := Z.pos p; shr_r := false; shr_s := false |}, E).
Proof.
  intros Hp HE. unfold shr_fexp. cbn [Zdigits2 shr_record_of_loc].
  rewrite fexp_eq. apply shr_nonpos.
  pose proof (digits2_pos_bounds p) as [Hlo _].
  destruct (Z.le_gt_cases (Z.pos (digits2_pos p)) 53) as [H|H]; [lia|].
  exfalso. assert (2 ^ 53 ≤ 2 ^ (Z.pos (digits2_pos p) - 1)) by (apply Z.pow_le_mono_r; lia).
  lia.
Qed.

Lemma second_stage_carry (E : Z) :
  -1074 ≤ E →
  shr_fexp prec emax (2 ^ 53) E loc_Exact
  = ({| shr_m := 2 ^ 52; shr_r := false; shr_s := false |}, E + 1).
Proof.
  intros HE. unfold shr_fexp.
  assert (Hd : Zdigits2 (2 ^ 53) = 54) by (vm_compute; reflexivity).
  rewrite Hd, fexp_eq. replace (Z.max (54 + E - 53) (-1074) - E) with 1 by lia.
  reflexivity.
Qed.

Lemma round_aux_key (m : positive) (e : Z) :
  -2148 ≤ e → e ≤ fexp prec emax (Z.pos (digits2_pos m) + e) →
  key (binary_round_aux prec emax false (Z.pos m) e loc_Exact)
  = rounded (Z.pos m * 2 ^ (e + 2148))
  ∧ nonNegative (binary_round_aux prec emax false (Z.pos m) e loc_Exact).
Proof.
  intros He Hn.
  unfold binary_round_aux.
  destruct (first_stage m e Hn) as (mrs & -> & ->).
  rewrite fexp_eq in *.
  set (d := Z.pos (digits2_pos m)) in *.
  set (E := Z.max (d + e - 53) (-1074)) in *.
  set (n := E - e) in *.
  pose proof (digits2_pos_bounds m) as [Hlo Hhi]. fold d in Hlo, Hhi.
  assert (Hj : 0 < 2 ^ (e + 2148)) by (apply Z.pow_pos_nonneg; lia).
  assert (H2n : 0 < 2 ^ n) by (apply Z.pow_pos_nonneg; lia).
  (* the rounded product *)
  assert (Hk : exponentOf (Z.pos m * 2 ^ (e + 2148)) = n + (e + 2148)).
  { unfold exponentOf. rewrite Z.log2_mul_pow2 by lia.
    pose proof (digits2_pos_log2 m) as Hd. fold d in Hd. unfold n, E. lia. }
  assert (Hnear : nearest (Z.pos m * 2 ^ (e + 2148)) (n + (e + 2148)) = nearest (Z.pos m) n)
    by (apply nearest_scale; lia).
  assert (Hround : rounded (Z.pos m * 2 ^ (e + 2148))
                   = if nearest (Z.pos m) n * 2 ^ (E + 1074) <? 2 ^ 2098
                     then nearest (Z.pos m) n * 2 ^ (E + 1074) else 2 ^ 2200).
  { unfold rounded. destruct (Z.eqb_spec (Z.pos m * 2 ^ (e + 2148)) 0); [lia|].
    cbn zeta. rewrite Hk, Hnear.
    replace (n + (e + 2148) - 1074) with (E + 1074) by (unfold n; lia). reflexivity. }
  rewrite Hround. clear Hround Hk Hnear.
  (* the mantissa after rounding *)
  assert (Hq : Z.pos m / 2 ^ n < 2 ^ 53).
  { apply Z.div_lt_upper_bound; [lia|]. rewrite <- Z.pow_add_r by lia.
    apply Z.lt_le_trans with (2 ^ d); [exact Hhi|]. apply Z.pow_le_mono_r; unfold n, E; lia. }
  pose proof (nearest_bounds (Z.pos m) n) as [Hm1 Hm2].
  assert (Hq0 : 0 ≤ Z.pos m / 2 ^ n) by (apply Z.div_pos; lia).
  assert (Hnormal : -1074 < E → 2 ^ 52 ≤ nearest (Z.pos m) n).
  { intros HE. apply Z.le_trans with (Z.pos m / 2 ^ n); [|exact Hm1].
    apply Z.div_le_lower_bound; [lia|]. rewrite <- Z.pow_add_r by lia.
    replace (n + 52) with (d - 1) by (unfold n, E in *; lia). exact Hlo. }
  assert (HE : -1074 ≤ E) by (unfold E; lia).
  assert (Hpow : ∀ a, 0 ≤ a → 0 < 2 ^ a) by (intros a Ha; apply Z.pow_pos_nonneg; lia).
  remember (nearest (Z.pos m) n) as m' eqn:Hm'. clear Hm'.
  destruct (Z.eq_dec m' (2 ^ 53)) as [Hcarry|Hcarry]; [|destruct m' as [|p'|p']; [| |lia]].
  - (* the mantissa has 54 digits *)
    subst m'. rewrite second_stage_carry by exact HE. cbn [shr_m].
    change (2 ^ 52) with (Z.pos 4503599627370496).
    replace (2 ^ 53 * 2 ^ (E + 1074)) with (2 ^ (E + 1127))
      by (rewrite <- Z.pow_add_r by lia; f_equal; lia).
    destruct (Z.leb_spec (E + 1) (emax - prec)) as [Hfin|Hinf];
      change (emax - prec) with 971 in *.
    + destruct (Z.ltb_spec (2 ^ (E + 1127)) (2 ^ 2098)) as [_|Hc].
      * split; [|exact I]. cbn [key].
        change (Z.pos 4503599627370496) with (2 ^ 52).
        rewrite <- Z.pow_add_r by lia. f_equal. lia.
      * exfalso. apply Z.pow_le_mono_r_iff in Hc; lia.
    + destruct (Z.ltb_spec (2 ^ (E + 1127)) (2 ^ 2098)) as [Hc|_].
      * exfalso. apply Z.pow_lt_mono_r_iff in Hc; lia.
      * split; [reflexivity|exact I].
  - (* the product rounds to zero *)
    rewrite second_stage_zero by exact HE. cbn [shr_m].
    rewrite Z.mul_0_l. split; [reflexivity|exact I].
  - (* the mantissa has at most 53 digits *)
    assert (Hp' : Z.pos p' < 2 ^ 53) by lia.
    rewrite second_stage_plain by assumption. cbn [shr_m].
    destruct (Z.leb_spec E (emax - prec)) as [Hfin|Hinf];
      change (emax - prec) with 971 in *.
    + destruct (Z.ltb_spec (Z.pos p' * 2 ^ (E + 1074)) (2 ^ 2098)) as [_|Hc].
      * split; [reflexivity|exact I].
      * exfalso. assert (2 ^ (E + 1074) ≤ 2 ^ 2045) by (apply Z.pow_le_mono_r; lia).
        pose proof (Hpow (E + 1074) ltac:(lia)).
        assert (Z.pos p' * 2 ^ (E + 1074) < 2 ^ 53 * 2 ^ 2045) by nia.
        assert (2 ^ 53 * 2 ^ 2045 = 2 ^ 2098) by (rewrite <- Z.pow_add_r by lia; reflexivity).
        lia.
    + destruct (Z.ltb_spec (Z.pos p' * 2 ^ (E + 1074)) (2 ^ 2098)) as [Hc|_].
      * exfalso. specialize (Hnormal ltac:(lia)).
        assert (2 ^ 2046 ≤ 2 ^ (E + 1074)) by (apply Z.pow_le_mono_r; lia).
        assert (2 ^ 52 * 2 ^ 2046 ≤ Z.pos p' * 2 ^ (E + 1074)) by nia.
        assert (2 ^ 52 * 2 ^ 2046 = 2 ^ 2098) by (rewrite <- Z.pow_add_r by lia; reflexivity).
        lia.
      * split; [reflexivity|exact I].
Qed.

(** Zero or a positive finite float. *)
Definition finiteNonNeg (x : spec_float) : Prop :=
  match x with
  | S754_zero _ | S754_finite false _ _ => True
  | _ => False
  end.

Lemma bounded_digits (m : positive) (e : Z) :
  bounded prec emax m e = true →
  -1074 ≤ e ≤ 971 ∧ Z.pos (digits2_pos m) ≤ 53 ∧ (-1074 < e → Z.pos (digits2_pos m) = 53).
Proof.
  unfold bounded, canonical_mantissa. rewrite fexp_eq. change (emax - prec) with 971.
  intros H. apply andb_prop in H as [H1 H2].
  apply Z.eqb_eq in H1. apply Z.leb_le in H2. lia.
Qed.

Lemma bounded_value (m : positive) (e : Z) :
  bounded prec emax m e = true →
  0 < Z.pos m * 2 ^ (e + 1074) < 2 ^ 2098
  ∧ (-1074 < e → 2 ^ 52 * 2 ^ (e + 1074) ≤ Z.pos m * 2 ^ (e + 1074))
  ∧ Z.pos m * 2 ^ (e + 1074) < 2 ^ 53 * 2 ^ (e + 1074).
Proof.
  intros H. apply bounded_digits in H as (He & Hd & Hn).
  pose proof (digits2_pos_bounds m) as [Hlo Hhi].
  assert (Hp : 0 < 2 ^ (e + 1074)) by (apply Z.pow_pos_nonneg; lia).
  assert (Hm : Z.pos m < 2 ^ 53).
  { apply Z.lt_le_trans with (2 ^ Z.pos (digits2_pos m)); [exact Hhi|].
    apply Z.pow_le_mono_r; lia. }
  assert (Hup : Z.pos m * 2 ^ (e + 1074) < 2 ^ 53 * 2 ^ (e + 1074)) by nia.
  split; [split; [nia|]|split; [|exact Hup]].
  - apply Z.lt_le_trans with (2 ^ 53 * 2 ^ (e + 1074)); [exact Hup|].
    rewrite <- Z.pow_add_r by lia. apply Z.pow_le_mono_r; lia.
  - intros Hnorm. rewrite (Hn Hnorm) in Hlo. change (53 - 1) with 52 in Hlo. nia.
Qed.

Lemma value_lt (m1 m2 : positive) (e1 e2 : Z) :
  bounded prec emax m1 e1 = true → bounded prec emax m2 e2 = true → e1 < e2 →
  Z.pos m1 * 2 ^ (e1 + 1074) < Z.pos m2 * 2 ^ (e2 + 1074).
Proof.
  intros H1 H2 He.
  pose proof (bounded_digits m1 e1 H1) as (He1 & _).
  pose proof (bounded_value m1 e1 H1) as (_ & _ & Hup).
  pose proof (bounded_value m2 e2 H2) as (_ & Hlow & _).
  specialize (Hlow ltac:(lia)).
  apply Z.lt_le_trans with (2 ^ 53 * 2 ^ (e1 + 1074)); [exact Hup|].
  apply Z.le_trans with (2 ^ 52 * 2 ^ (e2 + 1074)); [|exact Hlow].
  rewrite <- !Z.pow_add_r by lia. apply Z.pow_le_mono_r; lia.
Qed.

Lemma SFcompare_key (x y : spec_float) :
  SpecFloat.valid_binary prec emax x = true → SpecFloat.valid_binary prec emax y = true →
  nonNegative x → nonNegative y →
  SFcompare x y = Some (key x ?= key y).
Proof.
  assert (Hbig : 0 < 2 ^ 2200) by (apply Z.pow_pos_nonneg; lia).
  assert (Htop : 2 ^ 2098 < 2 ^ 2200) by (apply Z.pow_lt_mono_r; lia).
  intros Hx Hy Nx Ny.
  destruct x as [sx|[]| |[] mx ex], y as [sy|[]| |[] my ey]; try contradiction;
    cbn [SFcompare key valid_binary] in *.
  - reflexivity.
  - f_equal; symmetry; apply Z.compare_lt_iff; lia.
  - pose proof (bounded_value my ey Hy) as ([H _] & _).
    f_equal; symmetry; apply Z.compare_lt_iff; exact H.
  - f_equal; symmetry; apply Z.compare_gt_iff; lia.
  - rewrite Z.compare_refl. reflexivity.
  - pose proof (bounded_value my ey Hy) as ([_ H] & _).
    f_equal; symmetry; apply Z.compare_gt_iff; lia.
  - pose proof (bounded_value mx ex Hx) as ([H _] & _).
    f_equal; symmetry; apply Z.compare_gt_iff; exact H.
  - pose proof (bounded_value mx ex Hx) as ([_ H] & _).
    f_equal; symmetry; apply Z.compare_lt_iff; lia.
  - f_equal. destruct (Z.compare_spec ex ey) as [->|Hlt|Hgt].
    + assert (Hp : 0 < 2 ^ (ey + 1074)).
      { apply Z.pow_pos_nonneg; [lia|]. apply bounded_digits in Hy. lia. }
      rewrite <- (Zmult_compare_compat_r _ _ _ (Z.lt_gt _ _ Hp)). reflexivity.
    + symmetry. apply Z.compare_lt_iff. by apply value_lt.
    + symmetry. apply Z.compare_gt_iff. by apply value_lt.
Qed.

Lemma digits2_pos_mul (a b : positive) :
  Z.pos (digits2_pos a) + Z.pos (digits2_pos b) - 1 ≤ Z.pos (digits2_pos (a * b)).
Proof.
  pose proof (digits2_pos_bounds a) as [Ha _]. pose proof (digits2_pos_bounds b) as [Hb _].
  pose proof (digits2_pos_bounds (a * b)) as [_ Hab].
  destruct (Z.le_gt_cases (Z.pos (digits2_pos a) + Z.pos (digits2_pos b) - 1)
                          (Z.pos (digits2_pos (a * b)))) as [H|H]; [exact H|].
  exfalso.
  assert (H1 : 2 ^ Z.pos (digits2_pos (a * b))
               ≤ 2 ^ (Z.pos (digits2_pos a) - 1 + (Z.pos (digits2_pos b) - 1)))
    by (apply Z.pow_le_mono_r; lia).
  rewrite Z.pow_add_r in H1 by lia. rewrite Pos2Z.inj_mul in Hab.
  assert (0 < 2 ^ (Z.pos (digits2_pos a) - 1)) by (apply Z.pow_pos_nonneg; lia).
  assert (0 < 2 ^ (Z.pos (digits2_pos b) - 1)) by (apply Z.pow_pos_nonneg; lia).
  nia.
Qed.

(** The product of two non-negative finite floats is the rounded
    product of their values. *)
Lemma SFmul_key (x s : spec_float) :
  SpecFloat.valid_binary prec emax x = true → SpecFloat.valid_binary prec emax s = true →
  finiteNonNeg x → finiteNonNeg s →
  key (SFmul prec emax x s) = rounded (key x * key s)
  ∧ nonNegative (SFmul prec emax x s).
Proof.
  intros Hx Hs Nx Ns.
  destruct x as [sx|[]| |[] mx ex], s as [ss|[]| |[] ms es]; try contradiction;
    cbn [SFmul key valid_binary xorb] in *.
  - split; [reflexivity|exact I].
  - rewrite Z.mul_0_l. split; [reflexivity|exact I].
  - rewrite Z.mul_0_r. split; [reflexivity|exact I].
  - pose proof (bounded_digits mx ex Hx) as (Hex & Hdx & Hnx).
    pose proof (bounded_digits ms es Hs) as (Hes & Hds & Hns).
    pose proof (digits2_pos_mul mx ms) as Hd.
    assert (Hone : ∀ p, 1 ≤ Z.pos (digits2_pos p)) by (intros p; lia).
    pose proof (Hone mx). pose proof (Hone ms).
    replace (Z.pos mx * 2 ^ (ex + 1074) * (Z.pos ms * 2 ^ (es + 1074)))
      with (Z.pos (mx * ms) * 2 ^ (ex + es + 2148)).
    + apply round_aux_key; [lia|]. rewrite fexp_eq. lia.
    + rewrite Pos2Z.inj_mul.
      replace (ex + es + 2148) with (ex + 1074 + (es + 1074)) by lia.
      rewrite Z.pow_add_r by lia. ring.
Qed.

(** *** On the primitive floats *)

Definition valueOf (t : float) : Z := key (Prim2SF t).

Lemma finiteNonNegative_class (t : float) :
  Spec.finiteNonNegative t = true → finiteNonNeg (Prim2SF t).
Proof.
  unfold Spec.finiteNonNegative. rewrite leb_spec, ltb_spec. intros H.
  apply andb_prop in H as [H1 H2].
  change (Prim2SF 0) with (S754_zero false) in H1.
  change (Prim2SF infinity) with (S754_infinity false) in H2.
  destruct (Prim2SF t) as [s|[]| |[] m e]; try exact I; try discriminate H1;
    discriminate H2.
Qed.

Lemma finiteNonNeg_nonNegative (x : spec_float) : finiteNonNeg x → nonNegative x.
Proof. by destruct x as [s|[]| |[] m e]. Qed.

Lemma mul_valueOf (a s : float) :
  Spec.finiteNonNegative a = true → Spec.finiteNonNegative s = true →
  valueOf (a * s) = rounded (valueOf a * valueOf s) ∧ nonNegative (Prim2SF (a * s)).
Proof.
  intros Ha Hs. unfold valueOf. rewrite mul_spec.
  apply SFmul_key; try apply Prim2SF_valid; by apply finiteNonNegative_class.
Qed.

Lemma ltb_valueOf (x y : float) :
  nonNegative (Prim2SF x) → nonNegative (Prim2SF y) →
  (x <? y)%float = (valueOf x <? valueOf y).
Proof.
  intros Nx Ny. rewrite ltb_spec. unfold SFltb, valueOf.
  rewrite (SFcompare_key _ _ (Prim2SF_valid x) (Prim2SF_valid y) Nx Ny).
  unfold Z.ltb. by destruct (_ ?= _).
Qed.

Lemma eqb_valueOf (x y : float) :
  nonNegative (Prim2SF x) → nonNegative (Prim2SF y) →
  (x =? y)%float = (valueOf x =? valueOf y).
Proof.
  intros Nx Ny. rewrite FloatAxioms.eqb_spec. unfold SFeqb, valueOf.
  rewrite (SFcompare_key _ _ (Prim2SF_valid x) (Prim2SF_valid y) Nx Ny).
  rewrite Z.eqb_compare. by destruct (_ ?= _).
Qed.

Lemma finiteNonNeg_value (x : spec_float) :
  SpecFloat.valid_binary prec emax x = true → finiteNonNeg x → 0 ≤ key x.
Proof.
  intros Hx Nx. destruct x as [s|[]| |[] m e]; try contradiction; cbn [key]; [lia|].
  cbn [valid_binary] in Hx. pose proof (bounded_value m e Hx) as ([H _] & _). lia.
Qed.

Lemma eqb_class (a b : float) :
  finiteNonNeg (Prim2SF a) → (a =? b)%float = true → finiteNonNeg (Prim2SF b).
Proof.
  rewrite FloatAxioms.eqb_spec. unfold SFeqb.
  destruct (Prim2SF a) as [sa|[]| |[] ma ea], (Prim2SF b) as [sb|[]| |[] mb eb];
    cbn [SFcompare finiteNonNeg]; try contradiction; try discriminate; by intros.
Qed.

Lemma mul_class_valueOf (a s : float) :
  finiteNonNeg (Prim2SF a) → finiteNonNeg (Prim2SF s) →
  valueOf (a * s) = rounded (valueOf a * valueOf s) ∧ nonNegative (Prim2SF (a * s)).
Proof.
  intros Ha Hs. unfold valueOf. rewrite mul_spec.
  apply SFmul_key; try apply Prim2SF_valid; assumption.
Qed.

(** The product by a non-negative finite scale is monotone. *)
Lemma scaled_mono (a b s : float) :
  finiteNonNeg (Prim2SF a) → finiteNonNeg (Prim2SF b) → finiteNonNeg (Prim2SF s) →
  valueOf a ≤ valueOf b → valueOf (a * s) ≤ valueOf (b * s).
Proof.
  intros Ha Hb Hs Hab.
  destruct (mul_class_valueOf a s Ha Hs) as [-> _].
  destruct (mul_class_valueOf b s Hb Hs) as [-> _].
  pose proof (finiteNonNeg_value _ (Prim2SF_valid a) Ha).
  pose proof (finiteNonNeg_value _ (Prim2SF_valid s) Hs).
  unfold valueOf in *. apply rounded_mono; nia.
Qed.

Lemma maximum_class (l : list float) :
  Forall (λ t, finiteNonNeg (Prim2SF t)) l → finiteNonNeg (Prim2SF (Spec.maximum l)).
Proof.
  induction 1 as [|t l Ht _ IH]; cbn [Spec.maximum foldr]; [exact I|].
  fold (Spec.maximum l). by destruct (_ <? _)%float.
Qed.

(** The maximum of the scaled list is the scaled maximum, as a number. *)
Lemma maximum_scaled (s : float) (l : list float) :
  finiteNonNeg (Prim2SF s) → Forall (λ t, finiteNonNeg (Prim2SF t)) l →
  valueOf (Spec.maximum ((λ t, t * s)%float <$> l)) = valueOf (Spec.maximum l * s)
  ∧ nonNegative (Prim2SF (Spec.maximum ((λ t, t * s)%float <$> l))).
Proof.
  intros Hs. induction 1 as [|t l Ht Hl [IHv IHn]].
  - cbn [fmap list_fmap Spec.maximum foldr]. split; [|exact I].
    destruct (mul_class_valueOf 0 s I Hs) as [-> _].
    change (valueOf 0) with 0. rewrite Z.mul_0_l. reflexivity.
  - rewrite fmap_cons. cbn [Spec.maximum foldr].
    fold (Spec.maximum ((λ t, t * s)%float <$> l)). fold (Spec.maximum l).
    pose proof (maximum_class l Hl) as Hm.
    destruct (mul_class_valueOf t s Ht Hs) as [Hvt Hnt].
    pose proof (scaled_mono t (Spec.maximum l) s Ht Hm Hs) as Hmono1.
    pose proof (scaled_mono (Spec.maximum l) t s Hm Ht Hs) as Hmono2.
    rewrite (ltb_valueOf _ _ IHn Hnt), IHv.
    rewrite (ltb_valueOf _ _ (finiteNonNeg_nonNegative _ Hm) (finiteNonNeg_nonNegative _ Ht)).
    destruct (Z.ltb_spec (valueOf (Spec.maximum l)) (valueOf t)) as [Hlt|Hge];
      destruct (Z.ltb_spec (valueOf (Spec.maximum l * s)) (valueOf (t * s))) as [Hlt'|Hge'].
    + split; [reflexivity|exact Hnt].
    + split; [rewrite IHv; lia|exact IHn].
    + lia.
    + split; [exact IHv|exact IHn].
Qed.

(** *** The quotient *)

(** How far the remainder [r] of a division by [m2] is into the next
    unit, in quarters: 0 for none, 2 for the half, 1 and 3 for below
    and above the half. *)
Definition quarter (m2 r : Z) : Z :=
  if r =? 0 then 0 else if 2 * r <? m2 then 1 else if 2 * r =? m2 then 2 else 3.

Lemma quarter_bounds (m2 r : Z) : 0 ≤ quarter m2 r < 4.
Proof. unfold quarter. repeat destruct (_ : bool); lia. Qed.

Lemma quarter_error (m2 r : Z) :
  0 ≤ r < m2 → - m2 ≤ 4 * r - quarter m2 r * m2 ≤ m2.
Proof.
  intros Hr. unfold quarter.
  destruct (Z.eqb_spec r 0); [lia|]. destruct (Z.ltb_spec (2 * r) m2); [lia|].
  destruct (Z.eqb_spec (2 * r) m2); lia.
Qed.

Lemma shifted_quarter (q c : Z) :
  0 ≤ c < 4 →
  shifted (4 * q + c) 2
  = {| shr_m := q; shr_r := 2 <=? c; shr_s := negb (c mod 2 =? 0) |}.
Proof.
  intros Hc. unfold shifted. change (2 ^ 2) with 4. change (2 ^ (2 - 1)) with 2.
  replace ((4 * q + c) / 4) with q by (apply (Z.div_unique _ 4 q c); lia).
  replace ((4 * q + c) mod 4) with c by (apply (Z.mod_unique _ 4 q c); lia).
  replace ((4 * q + c) mod 2) with (c mod 2).
  2:{ replace (4 * q + c) with (c + (2 * q) * 2) by lia. by rewrite Z.mod_add by lia. }
  reflexivity.
Qed.

Lemma new_location_quarter (q m2 r : Z) :
  0 ≤ r < m2 →
  shr_record_of_loc q (new_location m2 r) = shifted (4 * q + quarter m2 r) 2.
Proof.
  intros Hr. rewrite shifted_quarter by apply quarter_bounds.
  unfold new_location, new_location_even, new_location_odd, quarter.
  destruct (Z.even m2) eqn:Heven; cbv beta.
  - destruct (Z.eqb_spec r 0) as [->|Hr0]; [reflexivity|].
    destruct (Z.compare_spec (2 * r) m2) as [E|L|G].
    + destruct (Z.ltb_spec (2 * r) m2); [lia|]. destruct (Z.eqb_spec (2 * r) m2); [|lia].
      reflexivity.
    + destruct (Z.ltb_spec (2 * r) m2); [|lia]. reflexivity.
    + destruct (Z.ltb_spec (2 * r) m2); [lia|]. destruct (Z.eqb_spec (2 * r) m2); [lia|].
      reflexivity.
  - destruct (Z.eqb_spec r 0) as [->|Hr0]; [reflexivity|].
    assert (Hodd : m2 mod 2 = 1).
    { rewrite Zmod_even, Heven. reflexivity. }
    pose proof (Z.div_mod m2 2 ltac:(lia)) as Hdiv.
    destruct (Z.compare_spec (2 * r + 1) m2) as [E|L|G].
    + destruct (Z.ltb_spec (2 * r) m2); [|lia]. reflexivity.
    + destruct (Z.ltb_spec (2 * r) m2); [|lia]. reflexivity.
    + destruct (Z.ltb_spec (2 * r) m2); [lia|]. destruct (Z.eqb_spec (2 * r) m2); [lia|].
      reflexivity.
Qed.

Lemma nearest_error (M k : Z) :
  0 ≤ k → - 2 ^ k ≤ 2 * (nearest M k * 2 ^ k - M) ≤ 2 ^ k.
Proof.
  intros Hk. assert (HD : 0 < 2 ^ k) by (apply Z.pow_pos_nonneg; lia).
  pose proof (Z.div_mod M (2 ^ k) ltac:(lia)) as Hdiv.
  pose proof (Z.mod_pos_bound M (2 ^ k) HD) as Hmod.
  unfold nearest.
  destruct (Z.ltb_spec (2 ^ k) (2 * (M mod 2 ^ k))); [nia|].
  destruct (Z.eqb_spec (2 * (M mod 2 ^ k)) (2 ^ k)); cbn [andb];
    [destruct (Z.odd _)|]; nia.
Qed.

(** The first stage of [binary_round_aux] on a quotient and the place of
    its remainder. *)
Lemma first_stage_located (q c e : Z) (loc : location) :
  0 ≤ q → shr_record_of_loc q loc = shifted (4 * q + c) 2 → 0 ≤ 4 * q + c →
  e ≤ fexp prec emax (Zdigits2 q + e) →
  ∃ mrs,
    shr_fexp prec emax q e loc = (mrs, fexp prec emax (Zdigits2 q + e))
    ∧ round_nearest_even (shr_m mrs) (loc_of_shr_record mrs)
      = nearest (4 * q + c) (fexp prec emax (Zdigits2 q + e) - e + 2).
Proof.
  intros Hq Hrec HN Hn. unfold shr_fexp. rewrite Hrec.
  set (n := fexp prec emax (Zdigits2 q + e) - e).
  assert (Hn' : 0 ≤ n) by (unfold n; lia).
  destruct n as [|p|p] eqn:En; [| |lia].
  - exists (shifted (4 * q + c) 2). cbn [shr]. split.
    + f_equal. fold n in En. unfold n in En. lia.
    + apply round_shifted. lia.
  - exists (shifted (4 * q + c) (2 + Z.pos p)). cbn [shr]. split.
    + rewrite iter_shr_1_shifted by lia. f_equal. unfold n in En. lia.
    + rewrite round_shifted by lia. f_equal. lia.
Qed.

(** The second stage of [binary_round_aux] on a mantissa of 53 digits,
    or on [2^53]. *)
Lemma second_stage_finite (m' E : Z) :
  -1074 ≤ E → E + 1 ≤ 971 → 2 ^ 52 ≤ m' ≤ 2 ^ 53 →
  ∃ mz ez,
    (let '(mrs, e) := shr_fexp prec emax m' E loc_Exact in
     match shr_m mrs with
     | 0 => S754_zero false
     | Z.pos m => if e <=? emax - prec then S754_finite false m e else S754_infinity false
     | Z.neg _ => S754_nan
     end) = S754_finite false mz ez
    ∧ Z.pos mz * 2 ^ (ez + 1074) = m' * 2 ^ (E + 1074).
Proof.
  intros HE Hfin Hm. destruct (Z.eq_dec m' (2 ^ 53)) as [->|Hc].
  - rewrite second_stage_carry by exact HE. cbn [shr_m].
    change (2 ^ 52) with (Z.pos 4503599627370496).
    destruct (Z.leb_spec (E + 1) (emax - prec)) as [_|Hinf];
      change (emax - prec) with 971 in *; [|lia].
    eexists _, _. split; [reflexivity|].
    change (Z.pos 4503599627370496) with (2 ^ 52).
    rewrite <- !Z.pow_add_r by lia. f_equal. lia.
  - destruct m' as [|p|p]; [lia| |lia]. rewrite second_stage_plain by lia. cbn [shr_m].
    destruct (Z.leb_spec E (emax - prec)) as [_|Hinf];
      change (emax - prec) with 971 in *; [|lia].
    eexists _, _. split; reflexivity.
Qed.

Lemma SFdiv_core_normal (m1 m2 : positive) (e1 e2 : Z) :
  Z.pos (digits2_pos m1) = 53 → Z.pos (digits2_pos m2) = 53 → -1021 ≤ e1 - e2 →
  SFdiv_core_binary prec emax (Z.pos m1) e1 (Z.pos m2) e2
  = ((Z.pos m1 * 2 ^ 53) / Z.pos m2, e1 - e2 - 53,
     new_location (Z.pos m2) ((Z.pos m1 * 2 ^ 53) mod Z.pos m2)).
Proof.
  intros H1 H2 He. unfold SFdiv_core_binary. cbn [Zdigits2]. rewrite H1, H2, fexp_eq.
  replace (Z.min (Z.max (53 + e1 - (53 + e2) - 53) (-1074)) (e1 - e2)) with (e1 - e2 - 53)
    by lia.
  replace (e1 - e2 - (e1 - e2 - 53)) with 53 by lia. cbv iota.
  rewrite Z.shiftl_mul_pow2 by lia.
  unfold Z.div, Z.modulo. by destruct (Z.div_eucl _ _).
Qed.

(** The quotient of two normal floats whose exponents are not too far
    apart is a finite float, off the real quotient by at most [2^-52] of
    it. *)
Lemma SFdiv_normal (m1 m2 : positive) (e1 e2 : Z) :
  Z.pos (digits2_pos m1) = 53 → Z.pos (digits2_pos m2) = 53 →
  -1000 ≤ e1 - e2 ≤ 1000 → -1074 ≤ e1 → -1074 ≤ e2 →
  ∃ mz ez,
    SFdiv prec emax (S754_finite false m1 e1) (S754_finite false m2 e2)
    = S754_finite false mz ez
    ∧ - (Z.pos m1 * 2 ^ (e1 + 1074) * 2 ^ 1074)
      ≤ (Z.pos mz * 2 ^ (ez + 1074) * (Z.pos m2 * 2 ^ (e2 + 1074))
         - Z.pos m1 * 2 ^ (e1 + 1074) * 2 ^ 1074) * 2 ^ 52
      ≤ Z.pos m1 * 2 ^ (e1 + 1074) * 2 ^ 1074.
Proof.
  intros H1 H2 He He1 He2. cbn [SFdiv xorb]. rewrite SFdiv_core_normal by (assumption || lia).
  pose proof (digits2_pos_bounds m1) as B1. rewrite H1 in B1.
  pose proof (digits2_pos_bounds m2) as B2. rewrite H2 in B2.
  change (2 ^ (53 - 1)) with (2 ^ 52) in B1, B2.
  pose proof (Z.div_mod (Z.pos m1 * 2 ^ 53) (Z.pos m2) ltac:(lia)) as Hdiv.
  pose proof (Z.mod_pos_bound (Z.pos m1 * 2 ^ 53) (Z.pos m2) ltac:(lia)) as Hr.
  set (q := Z.pos m1 * 2 ^ 53 / Z.pos m2) in *.
  set (r := (Z.pos m1 * 2 ^ 53) mod Z.pos m2) in *.
  set (e' := e1 - e2 - 53).
  assert (Hq : 2 ^ 52 ≤ q < 2 ^ 54).
  { split.
    - apply Z.div_le_lower_bound; [lia|].
      transitivity (2 ^ 53 * 2 ^ 52); [|lia].
      apply Z.mul_le_mono_nonneg_r; lia.
    - apply Z.div_lt_upper_bound; [lia|].
      apply Z.lt_le_trans with (2 ^ 53 * 2 ^ 53); [apply Z.mul_lt_mono_pos_r; lia|].
      change (2 ^ 54) with (2 * 2 ^ 53). nia. }
  pose proof (new_location_quarter q (Z.pos m2) r Hr) as Hrec.
  pose proof (quarter_bounds (Z.pos m2) r) as Hc.
  pose proof (quarter_error (Z.pos m2) r Hr) as Herr.
  set (c := quarter (Z.pos m2) r) in *.
  destruct q as [|pq|pq] eqn:Eq; [lia| |lia].
  pose proof (digits2_pos_bounds pq) as Bq.
  set (d := Z.pos (digits2_pos pq)) in *.
  assert (Hd : d = 53 ∨ d = 54).
  { assert (52 < d) by (apply (Z.pow_lt_mono_r_iff 2); lia).
    assert (d - 1 < 54) by (apply (Z.pow_lt_mono_r_iff 2); lia). lia. }
  assert (Hfexp : fexp prec emax (Zdigits2 (Z.pos pq) + e') = e' + (d - 53)).
  { rewrite fexp_eq. cbn [Zdigits2]. fold d. unfold e'. lia. }
  unfold binary_round_aux.
  destruct (first_stage_located (Z.pos pq) c e' _ ltac:(lia) Hrec ltac:(lia)
              ltac:(rewrite Hfexp; lia)) as (mrs & -> & ->).
  rewrite Hfexp. replace (e' + (d - 53) - e' + 2) with (d - 51) by lia.
  set (N := 4 * Z.pos pq + c) in *.
  pose proof (nearest_bounds N (d - 51)) as Hnear.
  pose proof (nearest_error N (d - 51) ltac:(lia)) as Hne.
  assert (Hdiv4 : 2 ^ 52 ≤ N / 2 ^ (d - 51) < 2 ^ 53).
  { split.
    - apply Z.div_le_lower_bound; [apply Z.pow_pos_nonneg; lia|].
      rewrite <- Z.pow_add_r by lia. replace (d - 51 + 52) with (2 + (d - 1)) by lia.
      rewrite Z.pow_add_r by lia. change (2 ^ 2) with 4. unfold N. lia.
    - apply Z.div_lt_upper_bound; [apply Z.pow_pos_nonneg; lia|].
      rewrite <- Z.pow_add_r by lia. replace (d - 51 + 53) with (2 + d) by lia.
      rewrite Z.pow_add_r by lia. change (2 ^ 2) with 4. unfold N. lia. }
  set (m' := nearest N (d - 51)) in *.
  destruct (second_stage_finite m' (e' + (d - 53)) ltac:(unfold e'; lia)
              ltac:(unfold e'; lia) ltac:(lia)) as (mz & ez & -> & Hval).
  exists mz, ez. split; [reflexivity|]. rewrite Hval.
  set (W := 2 ^ (e1 + 2095)).
  assert (HW : 0 < W) by (apply Z.pow_pos_nonneg; lia).
  assert (Hp1 : 2 ^ (e' + (d - 53) + 1074) * 2 ^ (e2 + 1074) = 2 ^ (d - 53) * W).
  { unfold W. rewrite <- !Z.pow_add_r by (unfold e'; lia). f_equal. unfold e'. lia. }
  assert (Hp2 : 2 ^ (e1 + 1074) * 2 ^ 1074 = 2 ^ 53 * W).
  { unfold W. rewrite <- !Z.pow_add_r by lia. f_equal. lia. }
  replace (m' * 2 ^ (e' + (d - 53) + 1074) * (Z.pos m2 * 2 ^ (e2 + 1074)))
    with (m' * Z.pos m2 * (2 ^ (e' + (d - 53) + 1074) * 2 ^ (e2 + 1074))) by ring.
  replace (Z.pos m1 * 2 ^ (e1 + 1074) * 2 ^ 1074)
    with (Z.pos m1 * (2 ^ (e1 + 1074) * 2 ^ 1074)) by ring.
  rewrite Hp1, Hp2.
  replace (Z.pos m1 * (2 ^ 53 * W)) with ((Z.pos m1 * 2 ^ 53) * W) by ring.
  rewrite Hdiv.
  replace ((m' * Z.pos m2 * (2 ^ (d - 53) * W) - (Z.pos m2 * Z.pos pq + r) * W) * 2 ^ 52)
    with (((m' * 2 ^ (d - 53) * Z.pos m2 - (Z.pos m2 * Z.pos pq + r)) * 2 ^ 52) * W) by ring.
  assert (Hcore : - (Z.pos m2 * Z.pos pq + r)
                  ≤ (m' * 2 ^ (d - 53) * Z.pos m2 - (Z.pos m2 * Z.pos pq + r)) * 2 ^ 52
                  ≤ Z.pos m2 * Z.pos pq + r).
  { destruct Hd as [Hd|Hd]; rewrite Hd in *.
    - change (2 ^ (53 - 53)) with 1. change (2 ^ (53 - 51)) with 4 in Hne.
      change (2 ^ (53 - 1)) with (2 ^ 52) in Bq. unfold N in Hne. nia.
    - change (2 ^ (54 - 53)) with 2. change (2 ^ (54 - 51)) with 8 in Hne.
      change (2 ^ (54 - 1)) with (2 ^ 53) in Bq. unfold N in Hne. nia. }
  split.
  - rewrite <- Z.mul_opp_l. apply Z.mul_le_mono_nonneg_r; lia.
  - apply Z.mul_le_mono_nonneg_r; lia.
Qed.

Lemma leb_valueOf (x y : float) :
  nonNegative (Prim2SF x) → nonNegative (Prim2SF y) →
  (x <=? y)%float = (valueOf x <=? valueOf y).
Proof.
  intros Nx Ny. rewrite leb_spec. unfold SFleb, valueOf.
  rewrite (SFcompare_key _ _ (Prim2SF_valid x) (Prim2SF_valid y) Nx Ny).
  unfold Z.leb. by destruct (_ ?= _).
Qed.

(** A float between 1e-100 and 1e100 is normal, with an exponent far
    from both ends. *)
Lemma ordinary_class (t : float) :
  Spec.ordinary t = true →
  ∃ m e, Prim2SF t = S754_finite false m e ∧ Z.pos (digits2_pos m) = 53 ∧ -500 ≤ e ≤ 500.
Proof.
  unfold Spec.ordinary. intros H. apply andb_prop in H as [Hlo Hhi].
  assert (Nt : nonNegative (Prim2SF t) ∧ finiteNonNeg (Prim2SF t)).
  { rewrite leb_spec in Hlo, Hhi. unfold SFleb in Hlo, Hhi.
    destruct (Prim2SF 1e-100) as [s|s| |s m e] eqn:E1; vm_compute in E1; try discriminate E1.
    destruct (Prim2SF 1e100) as [s'|s'| |s' m' e'] eqn:E2; vm_compute in E2;
      try discriminate E2.
    injection E1 as <- _ _. injection E2 as <- _ _.
    destruct (Prim2SF t) as [st|[]| |[] mt et]; cbn [SFcompare] in Hlo, Hhi;
      try discriminate Hlo; try discriminate Hhi; split; exact I. }
  destruct Nt as [Nt Ft].
  rewrite leb_valueOf in Hlo by (exact Nt || (vm_compute; exact I)).
  rewrite leb_valueOf in Hhi by (exact Nt || (vm_compute; exact I)).
  apply Z.leb_le in Hlo, Hhi.
  assert (Hlow : 2 ^ 741 ≤ valueOf 1e-100) by (apply Z.leb_le; vm_compute; reflexivity).
  assert (Hhigh : valueOf 1e100 ≤ 2 ^ 1407) by (apply Z.leb_le; vm_compute; reflexivity).
  pose proof (Prim2SF_valid t) as Hv. unfold valueOf in Hlo, Hhi, Hlow, Hhigh.
  destruct (Prim2SF t) as [st|[]| |[] mt et]; [|exfalso; exact Ft..|].
  { exfalso. cbn [key] in Hlo. assert (0 < 2 ^ 741) by (apply Z.pow_pos_nonneg; lia). lia. }
  exists mt, et. split; [reflexivity|]. cbn [SpecFloat.valid_binary] in Hv.
  cbn [key] in Hlo, Hhi.
  destruct (bounded_digits mt et Hv) as (Hrange & _ & Hdigits).
  destruct (bounded_value mt et Hv) as (_ & Hnormal & Hup).
  assert (H1 : 741 < et + 1127).
  { apply (Z.pow_lt_mono_r_iff 2); [lia|lia|].
    replace (et + 1127) with (53 + (et + 1074)) by lia. rewrite Z.pow_add_r by lia. lia. }
  assert (H2 : et + 1126 ≤ 1407).
  { apply (Z.pow_le_mono_r_iff 2); [lia|lia|].
    replace (et + 1126) with (52 + (et + 1074)) by lia. rewrite Z.pow_add_r by lia.
    specialize (Hnormal ltac:(lia)). lia. }
  split; [apply Hdigits; lia|lia].
Qed.

(** Dividing by an ordinary delay and multiplying by it again gives the
    first delay back, up to a relative error of 1e-15. *)
Lemma rescaled_delay_near (dOld dNew : float) :
  Spec.ordinary dOld = true → Spec.ordinary dNew = true →
  finiteNonNeg (Prim2SF (dNew / dOld))
  ∧ nonNegative (Prim2SF (dOld * (dNew / dOld)))
  ∧ valueOf (dNew * (1 - 1e-15)) ≤ valueOf (dOld * (dNew / dOld))
    ≤ valueOf (dNew * (1 + 1e-15))
  ∧ nonNegative (Prim2SF (dNew * (1 - 1e-15)))
  ∧ nonNegative (Prim2SF (dNew * (1 + 1e-15))).
Proof.
  intros Hold Hnew.
  destruct (ordinary_class dOld Hold) as (m2 & e2 & E2 & D2 & R2).
  destruct (ordinary_class dNew Hnew) as (m1 & e1 & E1 & D1 & R1).
  destruct (SFdiv_normal m1 m2 e1 e2 D1 D2 ltac:(lia) ltac:(lia) ltac:(lia))
    as (mz & ez & Ediv & Herr).
  assert (Eq : Prim2SF (dNew / dOld) = S754_finite false mz ez).
  { rewrite div_spec, E1, E2. exact Ediv. }
  assert (Fq : finiteNonNeg (Prim2SF (dNew / dOld))) by (rewrite Eq; exact I).
  assert (Fo : finiteNonNeg (Prim2SF dOld)) by (rewrite E2; exact I).
  assert (Fn : finiteNonNeg (Prim2SF dNew)) by (rewrite E1; exact I).
  assert (Flo : finiteNonNeg (Prim2SF (1 - 1e-15))) by (vm_compute; exact I).
  assert (Fhi : finiteNonNeg (Prim2SF (1 + 1e-15))) by (vm_compute; exact I).
  destruct (mul_class_valueOf dOld (dNew / dOld) Fo Fq) as [Vp Np].
  destruct (mul_class_valueOf dNew (1 - 1e-15) Fn Flo) as [Vlo Nlo].
  destruct (mul_class_valueOf dNew (1 + 1e-15) Fn Fhi) as [Vhi Nhi].
  split; [exact Fq|]. split; [exact Np|]. split; [|split; assumption].
  rewrite Vp, Vlo, Vhi.
  assert (Hlo : valueOf (1 - 1e-15) ≤ 2 ^ 1074 - 2 ^ 1022)
    by (apply Z.leb_le; vm_compute; reflexivity).
  assert (Hhi : 2 ^ 1074 + 2 ^ 1022 ≤ valueOf (1 + 1e-15))
    by (apply Z.leb_le; vm_compute; reflexivity).
  assert (Hlo0 : 0 ≤ valueOf (1 - 1e-15)) by (apply Z.leb_le; vm_compute; reflexivity).
  unfold valueOf in *. rewrite Eq, E1, E2 in *. cbn [key] in *.
  set (A := Z.pos m1 * 2 ^ (e1 + 1074)) in *.
  set (B := Z.pos m2 * 2 ^ (e2 + 1074)) in *.
  set (Q := Z.pos mz * 2 ^ (ez + 1074)) in *.
  assert (HA : 0 < A) by (apply Z.mul_pos_pos; [lia|apply Z.pow_pos_nonneg; lia]).
  assert (HT : 2 ^ 1074 = 2 ^ 52 * 2 ^ 1022) by (rewrite <- Z.pow_add_r by lia; reflexivity).
  assert (H1022 : 0 < 2 ^ 1022) by (apply Z.pow_pos_nonneg; lia).
  assert (H52 : 0 < 2 ^ 52) by lia.
  split.
  - apply rounded_mono; [apply Z.mul_nonneg_nonneg; lia|].
    transitivity (A * (2 ^ 1074 - 2 ^ 1022)); [apply Z.mul_le_mono_nonneg_l; lia|].
    rewrite (Z.mul_comm B Q). nia.
  - apply rounded_mono.
    + rewrite (Z.mul_comm B Q). nia.
    + transitivity (A * (2 ^ 1074 + 2 ^ 1022)); [|apply Z.mul_le_mono_nonneg_l; lia].
      rewrite (Z.mul_comm B Q). nia.
Qed.

Lemma finiteNonNegative_of_class (t : float) :
  finiteNonNeg (Prim2SF t) → Spec.finiteNonNegative t = true.
Proof.
  unfold Spec.finiteNonNegative. rewrite leb_spec, ltb_spec.
  change (Prim2SF 0) with (S754_zero false).
  change (Prim2SF infinity) with (S754_infinity false).
  destruct (Prim2SF t) as [s|[]| |[] m e]; try contradiction; reflexivity.
Qed.

(** When the recorded maximum is the recorded delay, and both delays
    are ordinary, the maximum of the scaled timestamps is the new delay
    up to a relative error of 1e-15. *)
Lemma maximum_near_delay (dOld dNew : float) (l : list float) :
  Spec.ordinary dOld = true → Spec.ordinary dNew = true →
  Forall (λ t, Spec.finiteNonNegative t = true) l →
  (Spec.maximum l =? dOld)%float = true →
  Spec.finiteNonNegative (dNew / dOld) = true
  ∧ Spec.approxRelative 1e-15
      (Spec.maximum ((λ t, t * (dNew / dOld))%float <$> l)) dNew = true.
Proof.
  intros Hold Hnew Hl Hlast.
  destruct (rescaled_delay_near dOld dNew Hold Hnew) as (Fq & Np & [Blo Bhi] & Nlo & Nhi).
  split; [by apply finiteNonNegative_of_class|].
  assert (Hl' : Forall (λ t, finiteNonNeg (Prim2SF t)) l).
  { eapply Forall_impl; [exact Hl|]. intros t. apply finiteNonNegative_class. }
  destruct (maximum_scaled (dNew / dOld)%float l Fq Hl') as [Hv Hn].
  pose proof (maximum_class l Hl') as Hm.
  pose proof (eqb_class _ _ Hm Hlast) as Fo.
  rewrite (eqb_valueOf _ _ (finiteNonNeg_nonNegative _ Hm) (finiteNonNeg_nonNegative _ Fo))
    in Hlast.
  apply Z.eqb_eq in Hlast.
  destruct (mul_class_valueOf (Spec.maximum l) (dNew / dOld) Hm Fq) as [Vm _].
  destruct (mul_class_valueOf dOld (dNew / dOld) Fo Fq) as [Vo _].
  assert (Heq : valueOf (Spec.maximum ((λ t, t * (dNew / dOld))%float <$> l))
                = valueOf (dOld * (dNew / dOld))).
  { rewrite Hv, Vm, Vo, Hlast. reflexivity. }
  unfold Spec.approxRelative.
  rewrite (leb_valueOf _ _ Nlo Hn), (leb_valueOf _ _ Hn Nhi), Heq.
  apply andb_true_intro. split; apply Z.leb_le; assumption.
Qed.

End Binary64.


(** The maximum of the scaled timestamps is the scaled maximum, and the
    scaled delay when the maximum was the delay; [=?] is the equality of
    float64 numbers. *)
Lemma maximum_rescaled (s : float) (l : list float) :
  Spec.finiteNonNegative s = true → Forall (λ t, Spec.finiteNonNegative t = true) l →
  (Spec.maximum ((λ t, t * s)%float <$> l) =? Spec.maximum l * s)%float = true
  ∧ ∀ d, (Spec.maximum l =? d)%float = true →
         (Spec.maximum ((λ t, t * s)%float <$> l) =? d * s)%float = true.
Proof.
  intros Hs Hl. apply Binary64.finiteNonNegative_class in Hs.
  assert (Hl' : Forall (λ t, Binary64.finiteNonNeg (Prim2SF t)) l).
  { eapply Forall_impl; [exact Hl|]. intros t. apply Binary64.finiteNonNegative_class. }
  destruct (Binary64.maximum_scaled s l Hs Hl') as [Hv Hn].
  pose proof (Binary64.maximum_class l Hl') as Hm.
  split.
  - destruct (Binary64.mul_class_valueOf (Spec.maximum l) s Hm Hs) as [_ Hn'].
    rewrite (Binary64.eqb_valueOf _ _ Hn Hn'). by apply Z.eqb_eq.
  - intros d Hd. pose proof (Binary64.eqb_class _ _ Hm Hd) as Hdc.
    destruct (Binary64.mul_class_valueOf d s Hdc Hs) as [Hvd Hnd].
    rewrite (Binary64.eqb_valueOf _ _ Hn Hnd). apply Z.eqb_eq. rewrite Hv, Hvd.
    destruct (Binary64.mul_class_valueOf (Spec.maximum l) s Hm Hs) as [-> _].
    rewrite (Binary64.eqb_valueOf _ _ (Binary64.finiteNonNeg_nonNegative _ Hm)
               (Binary64.finiteNonNeg_nonNegative _ Hdc)) in Hd.
    apply Z.eqb_eq in Hd. by rewrite Hd.
Qed.

(** ** Loading one scenario, and the delay override *)

Section DelayOverride.
Context {RT : GoRuntime} {JF : JsonFilter}.

(** Lines 78-86 of scenario.go: the file of the record. *)
Definition resolvedResponseFile (baseDir : string) (def : scenarioDefinition) : string :=
  let responseFile := Go.TrimSpace (defFile (defResponse def)) in
  if negb (filepath_IsAbs responseFile) then filepath_Join baseDir responseFile
  else responseFile.

(** The record of a scenario is the recorded one, with the delay
    override applied if there is one, under the identity of the
    scenario. *)
Lemma loadScenario_inr (baseDir : string) (idx : nat) (def : scenarioDefinition)
    (sc : mockScenario) :
  loadScenario baseDir idx def = inr sc →
  ∃ recorded,
    loadResponseFromFile (resolvedResponseFile baseDir def) (Go.TrimSpace (defName def))
    = inr recorded
    ∧ response sc
      = renameResponse (path sc) (method sc) (name sc)
          match defDelay (defResponse def) with
          | Some newDelay => applyDelayOverride newDelay recorded
          | None => recorded
          end
    ∧ path sc = Go.TrimSpace (defPath def)
    ∧ methodBytes sc = Go.bytes_of_string (method sc).
Proof.
  unfold loadScenario, resolvedResponseFile. intros H.
  destruct (decide (Go.TrimSpace (defName def) = "")); [done|].
  destruct (decide (Go.TrimSpace (defPath def) = "")); [done|].
  destruct (decide (Go.TrimSpace (defFile (defResponse def)) = "")); [done|].
  destruct (loadResponseFromFile _ _) as [e|recorded] eqn:Hload; [done|].
  destruct (compileFilter _ _) as [e|operator]; [done|]. simpl in H.
  injection H as <-. simpl. exists recorded. by repeat split.
Qed.

Lemma applyDelayOverride_sse (newDelay : float) (r : MockResponse) :
  IsSSE r = true → SSEEvents r ≠ [] → (0 <? Delay r)%float = true →
  SSEEvents (applyDelayOverride newDelay r)
  = rescale (newDelay / Delay r)%float <$> SSEEvents r.
Proof.
  intros Hsse Hne Hpos. unfold applyDelayOverride. simpl. rewrite Hsse, Hpos.
  rewrite bool_decide_eq_true_2; [done|]. destruct (SSEEvents r); [done|simpl; lia].
Qed.

(** C3 (as amended).  When a scenario gives a delay override [d_new]
    for a record that is an event stream with a previous delay
    [d_old > 0] and at least one event, loading replaces every event
    timestamp [t] by the float64 product [t * (d_new / d_old)], keeps
    the events otherwise as they are, and sets the delay of the record
    to [d_new].  The maximum event timestamp is scaled like every
    timestamp: when the recorded timestamps and the ratio
    [d_new / d_old] are non-negative and finite, the maximum afterwards
    is the recorded maximum times [d_new / d_old], as a float64 number;
    so it is [d_old * (d_new / d_old)] when the recorded maximum was
    the recorded delay [d_old]; and then, when [d_old] and [d_new] are
    between 1e-100 and 1e100, it is [d_new] up to a relative error of
    1e-15. *)
Theorem delay_override_rescales (baseDir : string) (idx : nat) (def : scenarioDefinition)
    (sc : mockScenario) (newDelay : float) (recorded : MockResponse) :
  loadScenario baseDir idx def = inr sc →
  defDelay (defResponse def) = Some newDelay →
  loadResponseFromFile (resolvedResponseFile baseDir def) (Go.TrimSpace (defName def))
  = inr recorded →
  IsSSE recorded = true → SSEEvents recorded ≠ [] → (0 <? Delay recorded)%float = true →
  Delay (response sc) = newDelay
  ∧ Timestamp <$> SSEEvents (response sc)
    = (λ t, (t * (newDelay / Delay recorded))%float) <$> (Timestamp <$> SSEEvents recorded)
  ∧ Data <$> SSEEvents (response sc) = Data <$> SSEEvents recorded
  ∧ SerializedData <$> SSEEvents (response sc) = SerializedData <$> SSEEvents recorded
  ∧ (Spec.finiteNonNegative (newDelay / Delay recorded) = true →
     Forall (λ t, Spec.finiteNonNegative t = true) (Timestamp <$> SSEEvents recorded) →
     (Spec.maximum (Timestamp <$> SSEEvents (response sc))
      =? Spec.maximum (Timestamp <$> SSEEvents recorded) * (newDelay / Delay recorded))%float
     = true
     ∧ ((Spec.maximum (Timestamp <$> SSEEvents recorded) =? Delay recorded)%float = true →
        (Spec.maximum (Timestamp <$> SSEEvents (response sc))
         =? Delay recorded * (newDelay / Delay recorded))%float = true))
  ∧ (Spec.ordinary (Delay recorded) = true → Spec.ordinary newDelay = true →
     Forall (λ t, Spec.finiteNonNegative t = true) (Timestamp <$> SSEEvents recorded) →
     (Spec.maximum (Timestamp <$> SSEEvents recorded) =? Delay recorded)%float = true →
     Spec.approxRelative 1e-15
       (Spec.maximum (Timestamp <$> SSEEvents (response sc))) newDelay = true).
Proof.
  intros Hsc Hdelay Hrec Hsse Hne Hpos.
  apply loadScenario_inr in Hsc as (recorded' & Hload & Hresp & _).
  assert (recorded' = recorded) as -> by congruence.
  rewrite Hresp, Hdelay. split; [done|].
  unfold renameResponse. cbn [SSEEvents].
  rewrite (applyDelayOverride_sse newDelay recorded Hsse Hne Hpos).
  rewrite <- !list_fmap_compose.
  split; [done|]. split; [done|]. split; [done|].
  change (Timestamp ∘ rescale (newDelay / Delay recorded)%float <$> SSEEvents recorded)
    with ((λ t, (t * (newDelay / Delay recorded))%float) ∘ Timestamp <$> SSEEvents recorded).
  rewrite list_fmap_compose. split.
  - intros Hscale Htimes.
    destruct (maximum_rescaled (newDelay / Delay recorded)%float
                (Timestamp <$> SSEEvents recorded) Hscale Htimes) as [Hmax Hdelayed].
    split; [exact Hmax|]. intros Hlast. by apply Hdelayed.
  - intros Hold Hnew Htimes Hlast.
    by destruct (Binary64.maximum_near_delay (Delay recorded) newDelay
                   (Timestamp <$> SSEEvents recorded) Hold Hnew Htimes Hlast) as [_ Hnear].
Qed.

End DelayOverride.

Section DelayOverrideExamples.
#[local] Existing Instances Fixture.runtime Fixture.equalsFilter.

(** A stream whose last event comes at the recorded delay: three
    events at 1, 2.5 and 5 seconds and a delay of 5 seconds, overridden
    to 1 second.  The timestamps become 0.2, 0.5 and 1, and the maximum
    is the new delay. *)
Lemma delay_override_witness :
  ∃ sc recorded,
    loadScenario "fixtures" 0 Fixture.pacedDefinition = inr sc
    ∧ defDelay (defResponse Fixture.pacedDefinition) = Some 1%float
    ∧ loadResponseFromFile (resolvedResponseFile "fixtures" Fixture.pacedDefinition)
        (Go.TrimSpace (defName Fixture.pacedDefinition)) = inr recorded
    ∧ IsSSE recorded = true ∧ Delay recorded = 5%float
    ∧ Timestamp <$> SSEEvents recorded = [1; 2.5; 5]%float
    ∧ Spec.maximum (Timestamp <$> SSEEvents recorded) = Delay recorded
    ∧ Delay (response sc) = 1%float
    ∧ Timestamp <$> SSEEvents (response sc)
      = (λ t, (t * (1 / Delay recorded))%float) <$> (Timestamp <$> SSEEvents recorded)
    ∧ (Spec.maximum (Timestamp <$> SSEEvents (response sc))
       =? Delay recorded * (1 / Delay recorded))%float = true
    ∧ Spec.approxRelative 1e-15
        (Spec.maximum (Timestamp <$> SSEEvents (response sc))) 1 = true
    ∧ Spec.maximum (Timestamp <$> SSEEvents (response sc)) = 1%float.
Proof.
  destruct (loadScenario "fixtures" 0 Fixture.pacedDefinition) as [e|sc] eqn:Hsc;
    [vm_compute in Hsc; discriminate Hsc|].
  destruct (loadResponseFromFile (resolvedResponseFile "fixtures" Fixture.pacedDefinition)
              (Go.TrimSpace (defName Fixture.pacedDefinition))) as [e|recorded] eqn:Hrec;
    [vm_compute in Hrec; discriminate Hrec|].
  exists sc, recorded. do 3 (split; [reflexivity|]).
  assert (IsSSE recorded = true ∧ Delay recorded = 5%float
          ∧ Timestamp <$> SSEEvents recorded = [1; 2.5; 5]%float) as (Hsse & Hold & Htimes).
  { pose proof Hrec as Heq. vm_compute in Heq. injection Heq as <-.
    vm_compute. repeat split; reflexivity. }
  assert (Spec.maximum (Timestamp <$> SSEEvents recorded) = Delay recorded) as Hlast
    by (rewrite Htimes, Hold; vm_compute; reflexivity).
  do 4 (split; [assumption|]).
  assert (SSEEvents recorded ≠ []) as Hne
    by (intros Hnil; rewrite Hnil in Htimes; discriminate Htimes).
  assert ((0 <? Delay recorded)%float = true) as Hpos by (rewrite Hold; vm_compute; reflexivity).
  destruct (delay_override_rescales "fixtures" 0 Fixture.pacedDefinition sc 1%float recorded
              Hsc eq_refl Hrec Hsse Hne Hpos) as (Hdelay & Hscale & _ & _ & Hmax & Hnear).
  assert (Forall (λ t, Spec.finiteNonNegative t = true) (Timestamp <$> SSEEvents recorded))
    as Hfinite by (rewrite Htimes; repeat constructor).
  assert ((Spec.maximum (Timestamp <$> SSEEvents recorded) =? Delay recorded)%float = true)
    as Hequal by (rewrite Hlast, Hold; vm_compute; reflexivity).
  split; [exact Hdelay|]. split; [exact Hscale|]. split; [|split].
  - apply Hmax; [rewrite Hold; vm_compute; reflexivity|exact Hfinite|exact Hequal].
  - apply Hnear; [rewrite Hold; vm_compute; reflexivity|vm_compute; reflexivity
                 |exact Hfinite|exact Hequal].
  - rewrite Hscale, Htimes, Hold. vm_compute. reflexivity.
Defined.

(** The claim as stated fails on example E of the specification (five
    events at 0.1, ..., 0.5 seconds, a delay of 5 seconds, overridden to
    1 second): the recorded maximum, 0.5, is not the recorded delay;
    after the override the timestamps are 0.02, ..., 0.10 (within
    1e-6), and the largest of them is 0.10, which is not the new delay
    1.0, not even within half a second. *)
Lemma example_E_maximum_is_not_the_delay :
  ∃ sc recorded,
    loadScenario "fixtures" 0 Fixture.streamDefinition = inr sc
    ∧ defDelay (defResponse Fixture.streamDefinition) = Some 1%float
    ∧ loadResponseFromFile (resolvedResponseFile "fixtures" Fixture.streamDefinition)
        (Go.TrimSpace (defName Fixture.streamDefinition)) = inr recorded
    ∧ IsSSE recorded = true
    ∧ (0 <? Delay recorded)%float = true
    ∧ Delay recorded = 5%float
    ∧ Timestamp <$> SSEEvents recorded = [0.1; 0.2; 0.3; 0.4; 0.5]%float
    ∧ Spec.maximum (Timestamp <$> SSEEvents recorded) = 0.5%float
    ∧ (Spec.maximum (Timestamp <$> SSEEvents recorded) =? Delay recorded)%float = false
    ∧ Delay (response sc) = 1%float
    ∧ Forall2 (λ t expected, Spec.approx 1e-6 t expected = true)
        (Timestamp <$> SSEEvents (response sc)) [0.02; 0.04; 0.06; 0.08; 0.10]%float
    ∧ Spec.approx 1e-6 (Spec.maximum (Timestamp <$> SSEEvents (response sc))) 0.10 = true
    ∧ Spec.approx 0.5 (Spec.maximum (Timestamp <$> SSEEvents (response sc)))
                  (Delay (response sc)) = false
    ∧ Spec.approxRelative 1e-15 (Spec.maximum (Timestamp <$> SSEEvents (response sc)))
                          (Delay (response sc)) = false.
Proof.
  eexists _, _. split; [vm_compute; reflexivity|]. split; [vm_compute; reflexivity|].
  split; [vm_compute; reflexivity|].
  do 7 (split; [vm_compute; reflexivity|]).
  split; [|do 2 (split; [vm_compute; reflexivity|]); vm_compute; reflexivity].
  vm_compute. repeat constructor.
Qed.

End DelayOverrideExamples.

(** ** The handler *)

Lemma equalFoldBytes_lower (a b : string) :
  equalFoldBytes (Go.bytes_of_string a) (Go.bytes_of_string b) = true →
  toLowerASCIISimple a = toLowerASCIISimple b.
Proof.
  revert b. induction a as [|x a IH]; intros [|y b]; simpl; try done.
  destruct (Ascii.eqb_spec (lowerByte x) (lowerByte y)) as [->|]; [|done].
  intros H. by rewrite (IH b H).
Qed.

Lemma find_first {A : Type} (q : A → bool) (l : list A) (x : A) :
  List.find q l = Some x →
  q x = true ∧ ∃ before after, l = before ++ x :: after ∧ ∀ z, z ∈ before → q z = false.
Proof.
  induction l as [|a l IH]; simpl; [done|].
  destruct (q a) eqn:Hq.
  - intros [= <-]. split; [done|]. exists [], l. split; [done|].
    intros z Hz. by apply elem_of_nil in Hz.
  - intros Hf. destruct (IH Hf) as (Hx & before & after & -> & Hb). split; [done|].
    exists (a :: before), after. split; [done|].
    intros z Hz. apply elem_of_cons in Hz as [->|Hz]; [done|by apply Hb].
Qed.

Lemma find_is_Some {A : Type} (q : A → bool) (l : list A) :
  is_Some (List.find q l) ↔ ∃ x, x ∈ l ∧ q x = true.
Proof.
  induction l as [|a l IH]; simpl.
  - split; [by intros [? ?]|]. intros (x & Hx & _). by apply elem_of_nil in Hx.
  - destruct (q a) eqn:Hq.
    + split; [|by eauto]. intros _. exists a. split; [left|done].
    + rewrite IH. split; intros (x & Hx & Hqx).
      * exists x. split; [by right|done].
      * apply elem_of_cons in Hx as [->|Hx]; [congruence|eauto].
Qed.

Section HandlerFacts.
Context {RT : GoRuntime} {JF : JsonFilter}.

(** The records of the index: those of the lists of [Responses]. *)
Definition indexed (s : MockStorage) (r : MockResponse) : Prop :=
  ∃ key candidates, Responses s !! key = Some candidates ∧ r ∈ candidates.

Lemma scan_indexed (s : MockStorage) (r : MockResponse) :
  r ∈ concat (snd <$> mapRange (Responses s)) ↔ indexed s r.
Proof.
  unfold indexed. rewrite list_elem_of_In, in_concat.
  setoid_rewrite <- list_elem_of_In. split.
  - intros (l & Hl & Hr). apply list_elem_of_fmap in Hl as ([key l'] & -> & Hkl).
    rewrite (mapRange_perm _ (Responses s)) in Hkl. apply elem_of_map_to_list in Hkl. eauto.
  - intros (key & l & Hl & Hr). exists l. split; [|done].
    apply list_elem_of_fmap. exists (key, l). split; [done|].
    rewrite (mapRange_perm _ (Responses s)). by apply elem_of_map_to_list.
Qed.

(** C4.  When scenarios are loaded, the handler asks the scenario
    matcher and nothing else: the record it serves is the one
    [MatchScenarioResponse] returns for the path, method and body of the
    request; when that is no match the reply is the 404 reply; and the
    reply is the same whatever the index of paths, mock ids and content
    types holds. *)
Theorem scenarios_exclude_index (store : MockStorage) (logger : bool) (rnd : float)
    (ctx : Handlers.RequestCtx) :
  HasScenarios store = true →
  Handlers.lookupMock store ctx
  = MatchScenarioResponse store (Handlers.ctxPath ctx) (Handlers.ctxMethod ctx)
                          (Handlers.ctxPostBody ctx)
  ∧ (MatchScenarioResponse store (Handlers.ctxPath ctx) (Handlers.ctxMethod ctx)
                           (Handlers.ctxPostBody ctx) = None →
     Handlers.MockHandler store logger rnd ctx = Handlers.notFound logger
     ∧ Handlers.replyStatus (Handlers.MockHandler store logger rnd ctx) = 404)
  ∧ (∀ responses,
       Handlers.MockHandler (setResponses store responses) logger rnd ctx
       = Handlers.MockHandler store logger rnd ctx).
Proof.
  intros Hs.
  assert (∀ st, HasScenarios st = true →
            Handlers.lookupMock st ctx
            = MatchScenarioResponse st (Handlers.ctxPath ctx) (Handlers.ctxMethod ctx)
                                    (Handlers.ctxPostBody ctx)) as Hlookup.
  { intros st Hst. unfold Handlers.lookupMock. by rewrite Hst. }
  split; [by apply Hlookup|]. split.
  - intros Hnone. unfold Handlers.MockHandler. by rewrite (Hlookup store Hs), Hnone.
  - intros responses. unfold Handlers.MockHandler.
    by rewrite (Hlookup store Hs), (Hlookup (setResponses store responses) Hs).
Qed.

(** C7.  Without scenarios, a request whose [Accept] header is exactly
    [*/*] is answered by [FindResponseBytesAnyContentType] on the path,
    the mock id (the [x-mock-id] header, or [default]) and the method:
    it finds a record exactly when the index holds a record with that
    path and mock id, whatever its content type, whose method, when the
    request has one, equals the method of the request up to case; and
    the record found is the first such record of the scan over the
    index entries. *)
Theorem accept_any_ignores_content_type (store : MockStorage) (ctx : Handlers.RequestCtx) :
  HasScenarios store = false →
  Handlers.ctxPeekBytes ctx Handlers.headerAccept = Handlers.acceptAny →
  let mockID :=
    if bool_decide (length (Handlers.ctxPeekBytes ctx Handlers.headerXMockID) = 0%nat)
    then Go.bytes_of_string Handlers.defaultMockID
    else Handlers.ctxPeekBytes ctx Handlers.headerXMockID in
  let matches (r : MockResponse) :=
    Path r = Go.string_of_bytes (Handlers.ctxPath ctx)
    ∧ MockID r = Go.string_of_bytes mockID
    ∧ (Handlers.ctxMethod ctx = []
       ∨ equalFoldBytes (MethodBytes r) (Handlers.ctxMethod ctx) = true) in
  Handlers.lookupMock store ctx
  = FindResponseBytesAnyContentType store (Handlers.ctxPath ctx) mockID (Handlers.ctxMethod ctx)
  ∧ (is_Some (Handlers.lookupMock store ctx) ↔ ∃ r, indexed store r ∧ matches r)
  ∧ (∀ r, Handlers.lookupMock store ctx = Some r →
       indexed store r ∧ matches r
       ∧ ∃ before after,
           concat (snd <$> mapRange (Responses store)) = before ++ r :: after
           ∧ ∀ z, z ∈ before → ¬ matches z).
Proof.
  intros Hs Haccept mockID matches.
  assert (Handlers.lookupMock store ctx
          = FindResponseBytesAnyContentType store (Handlers.ctxPath ctx) mockID
              (Handlers.ctxMethod ctx)) as Hlookup.
  { unfold Handlers.lookupMock. rewrite Hs, Haccept.
    rewrite bool_decide_eq_false_2 by (by vm_compute).
    by rewrite bool_decide_eq_true_2. }
  set (q := λ r : MockResponse,
         bool_decide (Path r = Go.string_of_bytes (Handlers.ctxPath ctx))
         && bool_decide (MockID r = Go.string_of_bytes mockID)
         && (bool_decide (length (Handlers.ctxMethod ctx) = 0%nat)
             || equalFoldBytes (MethodBytes r) (Handlers.ctxMethod ctx))).
  assert (∀ r, q r = true ↔ matches r) as Hq.
  { intros r. unfold q, matches.
    rewrite !andb_true_iff, orb_true_iff, !bool_decide_eq_true.
    assert (length (Handlers.ctxMethod ctx) = 0%nat ↔ Handlers.ctxMethod ctx = []) as ->
      by (destruct (Handlers.ctxMethod ctx); simpl; split; (done || lia)).
    tauto. }
  split; [done|]. rewrite Hlookup. unfold FindResponseBytesAnyContentType. fold q. split.
  - rewrite find_is_Some. split.
    + intros (r & Hr & Hqr). exists r. split; [by apply scan_indexed|by apply Hq].
    + intros (r & Hr & Hm). exists r. split; [by apply scan_indexed|by apply Hq].
  - intros r Hfind. destruct (find_first q _ r Hfind) as (Hqr & before & after & Hl & Hb).
    split; [|split; [by apply Hq|]].
    + apply scan_indexed. rewrite Hl. apply elem_of_app. right. left.
    + exists before, after. split; [done|]. intros z Hz Hm. apply Hq in Hm.
      rewrite (Hb z Hz) in Hm. done.
Qed.

End HandlerFacts.

(** ** The records a store serves, and the headers copied from them *)

Section ServedHeaders.
Context {RT : GoRuntime} {JF : JsonFilter}.

(** The side table of lower-cased header names maps a lower-cased name
    to a header name that it is the lower-casing of. *)
Definition keysLowered (r : MockResponse) : Prop :=
  ∀ keyLower key, HeaderKeysLower r !! keyLower = Some key →
                  keyLower = toLowerASCIISimple key.

(** The records a store can serve: those of the index and those of the
    scenarios. *)
Definition served (s : MockStorage) (r : MockResponse) : Prop :=
  indexed s r ∨ ∃ sc, sc ∈ scenarioOrder s ∧ r = response sc.

Lemma foldl_insert_lowered (l : list (string * string)) :
  ∀ (acc : gmap string string) (keyLower key : string),
    foldl (λ acc kv, <[toLowerASCIISimple kv.1 := kv.1]> acc) acc l !! keyLower = Some key →
    acc !! keyLower = Some key ∨ keyLower = toLowerASCIISimple key.
Proof.
  induction l as [|[k v] l IH]; intros acc keyLower key; simpl; [by left|].
  intros H. apply IH in H as [H|H]; [|by right].
  destruct (decide (toLowerASCIISimple k = keyLower)) as [<-|Hne].
  - rewrite lookup_insert_eq in H. injection H as ->. by right.
  - rewrite lookup_insert_ne in H by done. by left.
Qed.

Lemma parsedFrom_keysLowered (q p : gmap string JSON) (fb : string) (r : MockResponse) :
  parsedFrom q p fb r → keysLowered r.
Proof.
  intros Hpf keyLower key. rewrite (pf_keys _ _ _ _ Hpf). intros H.
  apply foldl_insert_lowered in H as [H|H]; [by rewrite lookup_empty in H|done].
Qed.

Lemma copyHeaders_not_excluded (r : MockResponse) (key value : string) :
  keysLowered r →
  Handlers.HeaderSet key value ∈ (Handlers.copyHeaders r).1 →
  Handlers.excluded (toLowerASCIISimple key) = false.
Proof.
  intros Hkeys. unfold Handlers.copyHeaders.
  assert (∀ keyLower k, (keyLower, k) ∈ mapRange (HeaderKeysLower r) →
                        keyLower = toLowerASCIISimple k) as Hl.
  { intros keyLower k Hin. apply Hkeys.
    rewrite (mapRange_perm _ (HeaderKeysLower r)) in Hin. by apply elem_of_map_to_list. }
  revert Hl. generalize (mapRange (HeaderKeysLower r)). intros l Hl.
  assert (∀ acc : list Handlers.headerOp * bool,
            (∀ k v, Handlers.HeaderSet k v ∈ acc.1 →
                    Handlers.excluded (toLowerASCIISimple k) = false) →
            ∀ k v,
              Handlers.HeaderSet k v
              ∈ (foldl (λ acc entry,
                          if negb (Handlers.excluded entry.1)
                          then (acc.1 ++ [Handlers.HeaderSet entry.2
                                            (indexStr (Headers r) entry.2)],
                                if decide (entry.1 = "content-type") then true else acc.2)
                          else acc) acc l).1 →
              Handlers.excluded (toLowerASCIISimple k) = false) as G.
  { induction l as [|[keyLower k0] l IH]; intros acc Hacc k v; simpl; [apply Hacc|].
    apply IH; [by intros ? ? ?; apply Hl; right|].
    destruct (Handlers.excluded keyLower) eqn:Hex; simpl; [done|].
    intros k' v' Hin. apply elem_of_app in Hin as [Hin|Hin]; [by apply (Hacc k' v')|].
    apply list_elem_of_singleton in Hin. injection Hin as -> _.
    by rewrite <- (Hl keyLower k0) by left. }
  apply G. intros k v Hin. by apply elem_of_nil in Hin.
Qed.

Lemma matchLoop_elem (l : list mockScenario) (m b : bytes) (r : MockResponse) :
  matchLoop l m b = Some r → ∃ sc, sc ∈ l ∧ r = response sc.
Proof.
  induction l as [|x l IH]; simpl; [done|].
  destruct (skipsMethod x m); [|destruct (skipsFilter x b)].
  - intros H. destruct (IH H) as (sc & Hsc & ->). exists sc. split; [by right|done].
  - intros H. destruct (IH H) as (sc & Hsc & ->). exists sc. split; [by right|done].
  - intros [= <-]. exists x. split; [left|done].
Qed.

Lemma FindResponseBytes_indexed (s : MockStorage) (p m c meth : bytes) (r : MockResponse) :
  FindResponseBytes s p m c meth = Some r → indexed s r.
Proof.
  rewrite FindResponseBytes_key. unfold indexed.
  destruct (Responses s !! _) as [l|] eqn:Hl; [|done]. simpl.
  intros Hpick. eexists _, l. split; [exact Hl|].
  unfold pick in Hpick. destruct l as [|first rest]; [done|].
  case_bool_decide; [injection Hpick as <-; left|].
  rewrite firstByMethod_find in Hpick. apply find_first in Hpick as (_ & b & a & -> & _).
  apply elem_of_app. right. left.
Qed.

Lemma lookupMock_served (s : MockStorage) (ctx : Handlers.RequestCtx) (r : MockResponse) :
  byPathConsistent s → Handlers.lookupMock s ctx = Some r → served s r.
Proof.
  intros Hc. unfold Handlers.lookupMock, HasScenarios.
  destruct (scenariosEnabled s) eqn:He.
  - rewrite MatchScenarioResponse_enabled by done. intros Hfound.
    apply matchLoop_elem in Hfound as (sc & Hsc & ->). right. exists sc. split; [|done].
    by apply list_elem_of_filter in Hsc as [_ ?].
  - case_bool_decide; [intros Hfound; left; by eapply FindResponseBytes_indexed|].
    case_bool_decide; [|intros Hfound; left; by eapply FindResponseBytes_indexed].
    unfold FindResponseBytesAnyContentType. intros Hfound. left. apply scan_indexed.
    apply find_first in Hfound as (_ & b & a & -> & _). apply elem_of_app. right. left.
Qed.

Lemma NewMockStorage_inv (baseDir : string) (s : MockStorage) :
  NewMockStorage baseDir = inr s →
  (∀ r, indexed s r → ∃ q p fb, parsedFrom q p fb r)
  ∧ scenariosEnabled s = false ∧ scenarioByPath s = ∅ ∧ scenarioOrder s = [].
Proof.
  destruct (os_Stat_IsNotExist baseDir) eqn:Hstat.
  - unfold NewMockStorage, loadResponses. simpl. rewrite Hstat. intros [= <-]. simpl.
    split; [|done]. intros r (key & l & Hl & _). simpl in Hl. by rewrite lookup_empty in Hl.
  - destruct (os_ReadDir baseDir) as [entries|] eqn:Hdir.
    + destruct (NewMockStorage_loaded baseDir entries Hstat Hdir)
        as (s' & Hs' & Hidx & He & Hb & Ho).
      rewrite Hs'. intros [= <-]. split; [|done].
      intros r (key & l & Hl & Hr). apply (loadedRecords_parsed baseDir entries).
      specialize (Hidx key). rewrite Hl in Hidx. simpl in Hidx. rewrite Hidx in Hr.
      by apply list_elem_of_filter in Hr as [_ ?].
    + unfold NewMockStorage, loadResponses. simpl. by rewrite Hstat, Hdir.
Qed.

Section Startup.
Variable yaml_Unmarshal : bytes → option scenarioFile.

Lemma startup_inv (mockDir scenarioConfig : string) (replayTiming : bool) (jitter : float)
    (store : MockStorage) :
  Main.startup yaml_Unmarshal mockDir scenarioConfig replayTiming jitter = inr store →
  byPathConsistent store ∧ ∀ r, served store r → keysLowered r.
Proof.
  unfold Main.startup. destruct (NewMockStorage mockDir) as [e|s0] eqn:Hnew; [done|]. simpl.
  apply NewMockStorage_inv in Hnew as (Hidx & He & Hb & Ho).
  assert (∀ r, indexed s0 r → keysLowered r) as Hidx'.
  { intros r Hr. destruct (Hidx r Hr) as (q & p & fb & Hpf).
    by eapply parsedFrom_keysLowered. }
  destruct (decide (scenarioConfig ≠ "")) as [Hcfg|Hcfg]; simpl.
  - destruct (LoadScenarioConfig _ _ _) as [s1 [err|]] eqn:Hload; [done|]. simpl.
    intros [= <-].
    apply LoadScenarioConfig_inv in Hload as (Hc & _ & Hr & _ & payload & file & _ & _ & Hall).
    split; [exact Hc|]. intros r [Hin|(sc & Hsc & ->)].
    + apply Hidx'. destruct Hin as (key & l & Hl & Hrl). exists key, l.
      simpl in Hl. by rewrite Hr in Hl.
    + simpl in Hsc. apply list_elem_of_lookup in Hsc as [i Hi].
      destruct (Forall2_lookup_r _ _ _ _ _ Hall Hi) as (def & _ & idx & Hdef).
      apply loadScenario_inr in Hdef as (recorded & Hrec & -> & _).
      assert (keysLowered recorded) as Hk.
      { unfold loadResponseFromFile in Hrec. destruct (os_ReadFile _); [|done].
        simpl in Hrec. apply parseMockRecord_inr in Hrec as (record & _ & Hrec).
        apply parseRecordTree_inr in Hrec as (q & p & _ & _ & Hpf).
        by eapply parsedFrom_keysLowered. }
      by destruct (defDelay _).
  - intros [= <-]. split.
    + intros p. simpl. by rewrite Ho, Hb, lookup_empty, filter_nil.
    + intros r [Hin|(sc & Hsc & ->)]; [by apply Hidx'|].
      simpl in Hsc. rewrite Ho in Hsc. by apply elem_of_nil in Hsc.
Qed.

End Startup.
End ServedHeaders.

Section ServedHeadersClaim.
Context {RT : GoRuntime} {JF : JsonFilter}.
Variable yaml_Unmarshal : bytes → option scenarioFile.

Lemma neverCopied_excluded (n : string) :
  n ∈ Spec.neverCopied → toLowerASCIISimple n = n ∧ Handlers.excluded n = true.
Proof.
  intros H. unfold Spec.neverCopied in H.
  repeat (apply elem_of_cons in H as [->|H]; [by vm_compute|]).
  by apply elem_of_nil in H.
Qed.

(** C6.  For every store that start-up builds and every request, the
    headers that the handler sets by name on the reply, in particular
    all those it copies from the record on a hit, have a name that
    differs, also up to case, from [x-mock-id], [content-length],
    [content-encoding], [connection], [keep-alive],
    [proxy-authenticate], [proxy-authorization], [te], [trailers],
    [transfer-encoding] and [upgrade]. *)
Theorem served_headers_skip_excluded (mockDir scenarioConfig : string) (replayTiming : bool)
    (jitter : float) (store : MockStorage) (logger : bool) (rnd : float)
    (ctx : Handlers.RequestCtx) (key value n : string) :
  Main.startup yaml_Unmarshal mockDir scenarioConfig replayTiming jitter = inr store →
  Handlers.HeaderSet key value
    ∈ Handlers.replyHeaders (Handlers.MockHandler store logger rnd ctx) →
  n ∈ Spec.neverCopied →
  equalFoldBytes (Go.bytes_of_string key) (Go.bytes_of_string n) = false.
Proof.
  intros Hstart Hin Hn. apply startup_inv in Hstart as [Hc Hkeys].
  destruct (neverCopied_excluded n Hn) as [Hlow Hex].
  assert (Handlers.excluded (toLowerASCIISimple key) = false) as Hkey.
  { unfold Handlers.MockHandler in Hin.
    destruct (Handlers.lookupMock store ctx) as [r|] eqn:Hlookup; simpl in Hin.
    - apply elem_of_app in Hin as [Hin|Hin].
      + apply (copyHeaders_not_excluded r key value); [|done].
        apply Hkeys. by eapply lookupMock_served.
      + unfold Handlers.contentTypeHeader in Hin.
        destruct (negb _); [|by apply elem_of_nil in Hin].
        destruct (decide _); by apply list_elem_of_singleton in Hin.
    - apply list_elem_of_singleton in Hin. injection Hin as -> _. by vm_compute. }
  destruct (equalFoldBytes _ _) eqn:Hfold; [|done].
  apply equalFoldBytes_lower in Hfold. congruence.
Qed.

End ServedHeadersClaim.

Section HandlerExamples.
#[local] Existing Instances Fixture.runtime Fixture.equalsFilter.

(** With the scenarios of the fixtures loaded, a [GET /api] matches no
    scenario (both ask for [POST]) and is answered with 404, although
    the index has a record for [/users/1]. *)
Lemma scenarios_exclude_index_witness :
  HasScenarios Fixture.scenarioStore = true
  ∧ Handlers.MockHandler Fixture.scenarioStore false 0%float
      (Fixture.request "GET" "/users/1" "default" "application/json" "")
    = Handlers.notFound false
  ∧ Handlers.MockHandler (setResponses Fixture.scenarioStore ∅) false 0%float
      (Fixture.request "GET" "/users/1" "default" "application/json" "")
    = Handlers.MockHandler Fixture.scenarioStore false 0%float
        (Fixture.request "GET" "/users/1" "default" "application/json" "").
Proof.
  assert (HasScenarios Fixture.scenarioStore = true) as Hs by (vm_compute; reflexivity).
  split; [exact Hs|].
  destruct (scenarios_exclude_index Fixture.scenarioStore false 0%float
              (Fixture.request "GET" "/users/1" "default" "application/json" "") Hs)
    as (_ & Hmiss & Hindex).
  split; [|apply Hindex].
  apply Hmiss. vm_compute. reflexivity.
Defined.

(** Without scenarios, [GET /hello] for the mock id [api] with
    [Accept: */*] finds the record of [hello.json], whose content type
    is [text/plain]. *)
Lemma accept_any_witness :
  HasScenarios Fixture.mockStore = false
  ∧ Handlers.ctxPeekBytes (Fixture.request "GET" "/hello" "api" "*/*" "") Handlers.headerAccept
    = Handlers.acceptAny
  ∧ ∃ r, Handlers.lookupMock Fixture.mockStore (Fixture.request "GET" "/hello" "api" "*/*" "")
         = Some r
         ∧ indexed Fixture.mockStore r ∧ Path r = "/hello" ∧ MockID r = "api".
Proof.
  assert (HasScenarios Fixture.mockStore = false) as Hs by (vm_compute; reflexivity).
  assert (Handlers.ctxPeekBytes (Fixture.request "GET" "/hello" "api" "*/*" "")
            Handlers.headerAccept = Handlers.acceptAny) as Ha by (vm_compute; reflexivity).
  do 2 (split; [assumption|]).
  destruct (accept_any_ignores_content_type Fixture.mockStore
              (Fixture.request "GET" "/hello" "api" "*/*" "") Hs Ha) as (_ & _ & Hfound).
  clear Hs Ha.
  destruct (Handlers.lookupMock Fixture.mockStore _) as [r|] eqn:Hr;
    [|vm_compute in Hr; discriminate Hr].
  exists r. split; [reflexivity|].
  destruct (Hfound r eq_refl) as (Hidx & (Hp & Hm & _) & _).
  split; [exact Hidx|]. split; [exact Hp|exact Hm].
Defined.

(** The record of [hello.json] has the headers [Content-Type],
    [Content-Length] and [X-Trace]; the reply to [GET /hello] sets two
    of them. *)
Lemma served_headers_witness :
  ∃ store,
    Main.startup Fixture.yaml "mocks" "" false 0%float = inr store
    ∧ (∃ r, Handlers.lookupMock store (Fixture.request "GET" "/hello" "api" "text/plain" "")
            = Some r
            ∧ Headers r !! "Content-Length" = Some "5")
    ∧ Handlers.replyHeaders
        (Handlers.MockHandler store false 0%float
           (Fixture.request "GET" "/hello" "api" "text/plain" ""))
      = [Handlers.HeaderSet "Content-Type" "text/plain"; Handlers.HeaderSet "X-Trace" "abc"]
    ∧ ∀ key value n,
        Handlers.HeaderSet key value
          ∈ Handlers.replyHeaders
              (Handlers.MockHandler store false 0%float
                 (Fixture.request "GET" "/hello" "api" "text/plain" "")) →
        n ∈ Spec.neverCopied →
        equalFoldBytes (Go.bytes_of_string key) (Go.bytes_of_string n) = false.
Proof.
  destruct (Main.startup Fixture.yaml "mocks" "" false 0%float) as [e|store] eqn:Hstart;
    [vm_compute in Hstart; discriminate Hstart|].
  exists store. split; [reflexivity|].
  split; [|split].
  - vm_compute in Hstart. injection Hstart as <-. eexists. split; [vm_compute; reflexivity|].
    vm_compute. reflexivity.
  - vm_compute in Hstart. injection Hstart as <-. vm_compute. reflexivity.
  - intros key value n.
    apply (served_headers_skip_excluded Fixture.yaml "mocks" "" false 0%float store false
             0%float _ key value n Hstart).
Defined.

End HandlerExamples.

(** * Further properties of the code *)

(** ** The byte-level helpers of storage.go *)

Lemma toLowerASCIISimple_bytes (a : bytes) :
  toLowerASCIISimple (Go.string_of_bytes a) = Go.string_of_bytes (lowerByte <$> a).
Proof.
  induction a as [|c a IH]; [reflexivity|].
  change (String (lowerByte c) (toLowerASCIISimple (Go.string_of_bytes a))
          = String (lowerByte c) (Go.string_of_bytes (lowerByte <$> a))).
  by rewrite IH.
Qed.

Lemma string_of_bytes_inj (a b : bytes) :
  Go.string_of_bytes a = Go.string_of_bytes b → a = b.
Proof.
  intros E. rewrite <- (bytes_of_string_of_bytes a), <- (bytes_of_string_of_bytes b).
  by rewrite E.
Qed.

Lemma equalFoldBytes_map (a b : bytes) :
  equalFoldBytes a b = true ↔ lowerByte <$> a = lowerByte <$> b.
Proof.
  revert b. induction a as [|x a IH]; intros [|y b]; cbn [equalFoldBytes];
    rewrite ?fmap_nil, ?fmap_cons; try (split; intros; congruence).
  destruct (Ascii.eqb_spec (lowerByte x) (lowerByte y)) as [E|N].
  - rewrite IH, E. split; [intros ->; reflexivity|intros [= E']; exact E'].
  - split; [discriminate|intros [= E' _]; contradiction].
Qed.

(** X1.  [equalFoldBytes a b] holds exactly when [a] and [b] become the
    same string under [toLowerASCIISimple]; it then holds of [b] and
    [a], the two slices have the same length, and it is transitive. *)
Theorem equalFoldBytes_iff_lowered (a b : bytes) :
  (equalFoldBytes a b = true
   ↔ toLowerASCIISimple (Go.string_of_bytes a) = toLowerASCIISimple (Go.string_of_bytes b))
  ∧ equalFoldBytes a b = equalFoldBytes b a
  ∧ (equalFoldBytes a b = true → length a = length b)
  ∧ (∀ c, equalFoldBytes a b = true → equalFoldBytes b c = true → equalFoldBytes a c = true).
Proof.
  split; [|split; [|split]].
  - rewrite equalFoldBytes_map, !toLowerASCIISimple_bytes.
    split; [intros ->; reflexivity|apply string_of_bytes_inj].
  - destruct (equalFoldBytes a b) eqn:E, (equalFoldBytes b a) eqn:E'; try reflexivity.
    + apply equalFoldBytes_map in E. symmetry in E. apply equalFoldBytes_map in E. congruence.
    + apply equalFoldBytes_map in E'. symmetry in E'. apply equalFoldBytes_map in E'. congruence.
  - intros E. apply equalFoldBytes_map in E.
    rewrite <- (length_fmap lowerByte a), <- (length_fmap lowerByte b). by rewrite E.
  - intros c E1 E2. apply equalFoldBytes_map. apply equalFoldBytes_map in E1, E2. congruence.
Qed.

Lemma isBlank_isSpaceASCII (c : ascii) : Spec.isBlank c = isSpaceASCII c.
Proof. reflexivity. Qed.

Lemma dropBlanks_split (s : bytes) :
  ∃ blanks, s = blanks ++ Spec.dropBlanks s ∧ Forall (λ c, isSpaceASCII c = true) blanks.
Proof.
  induction s as [|c s (blanks & E & F)]; [by exists []|].
  simpl. destruct (Spec.isBlank c) eqn:B.
  - exists (c :: blanks). split; [simpl; congruence|].
    constructor; [by rewrite <- isBlank_isSpaceASCII|exact F].
  - by exists [].
Qed.

Lemma head_rev_last (s : bytes) : head (rev s) = last s.
Proof.
  induction s as [|c s _] using rev_ind; [reflexivity|].
  by rewrite rev_app_distr, last_snoc.
Qed.

(** X2.  [trimSpaceASCII s] is [s] without a prefix and a suffix that
    consist of spaces, tabs, carriage returns and line feeds only, and
    it neither starts nor ends with one of these four bytes. *)
Theorem trimSpaceASCII_cuts_blank_ends (s : bytes) :
  (∃ leading trailing,
      s = leading ++ trimSpaceASCII s ++ trailing
      ∧ Forall (λ c, isSpaceASCII c = true) leading
      ∧ Forall (λ c, isSpaceASCII c = true) trailing)
  ∧ (∀ c, head (trimSpaceASCII s) = Some c → isSpaceASCII c = false)
  ∧ (∀ c, last (trimSpaceASCII s) = Some c → isSpaceASCII c = false).
Proof.
  rewrite trimSpaceASCII_trimmed. unfold Spec.trimmed.
  split; [|split].
  - destruct (dropBlanks_split s) as (leading & E1 & F1).
    destruct (dropBlanks_split (rev (Spec.dropBlanks s))) as (trailing & E2 & F2).
    exists leading, (rev trailing). split; [|split; [exact F1|]].
    + rewrite <- rev_app_distr, <- E2, rev_involutive. exact E1.
    + rewrite Forall_forall in F2. apply Forall_forall. intros c Hc.
      apply F2. by apply (proj1 (elem_of_rev trailing c)).
  - intros c Hc.
    destruct (dropBlanks_suffix (rev (Spec.dropBlanks s))) as [k Hk].
    apply (f_equal (@rev ascii)) in Hk. rewrite rev_involutive, rev_app_distr in Hk.
    rewrite <- isBlank_isSpaceASCII. apply (dropBlanks_head s). rewrite Hk.
    destruct (rev (Spec.dropBlanks (rev (Spec.dropBlanks s)))); [discriminate Hc|exact Hc].
  - intros c Hc. rewrite <- head_rev_last, rev_involutive in Hc.
    rewrite <- isBlank_isSpaceASCII. by apply (dropBlanks_head _ _ Hc).
Qed.


(** ** The index key and the lookup *)

Lemma app_sep_inj (c : ascii) (a a' r r' : bytes) :
  c ∉ a → c ∉ a' → a ++ c :: r = a' ++ c :: r' → a = a' ∧ r = r'.
Proof.
  revert a'. induction a as [|x a IH]; intros [|y a'] Ha Ha' E; simpl in E.
  - injection E as E. by split.
  - injection E as E _. subst y. exfalso. apply Ha'. by left.
  - injection E as E _. subst x. exfalso. apply Ha. by left.
  - injection E as E1 E2. subst y.
    destruct (IH a') as [-> ->]; [| |exact E2|by split].
    + intros H. apply Ha. by right.
    + intros H. apply Ha'. by right.
Qed.

Lemma makeIndexKey_bytes (p m c : string) :
  Go.bytes_of_string (makeIndexKey p m c)
  = Go.bytes_of_string p ++ "|"%char :: Go.bytes_of_string m ++ "|"%char :: Go.bytes_of_string c.
Proof.
  rewrite <- makeIndexKeyFromBytes_of_strings. unfold makeIndexKeyFromBytes.
  rewrite bytes_of_string_of_bytes. simpl. by rewrite <- !app_assoc.
Qed.

(** X3.  The index key tells the path, the mock id and the content type
    apart as long as neither the paths nor the mock ids contain the
    separator [|]; a separator inside a path or a mock id makes two
    different requests share one key. *)
Theorem makeIndexKey_separates (p m c p' m' c' : string) :
  "|"%char ∉ Go.bytes_of_string p → "|"%char ∉ Go.bytes_of_string m →
  "|"%char ∉ Go.bytes_of_string p' → "|"%char ∉ Go.bytes_of_string m' →
  (makeIndexKey p m c = makeIndexKey p' m' c' ↔ p = p' ∧ m = m' ∧ c = c')
  ∧ makeIndexKey (p +:+ "|" +:+ m) m' c = makeIndexKey p (m +:+ "|" +:+ m') c.
Proof.
  intros Hp Hm Hp' Hm'. split.
  - split; [|by intros (-> & -> & ->)].
    intros E. apply (f_equal Go.bytes_of_string) in E. rewrite !makeIndexKey_bytes in E.
    apply app_sep_inj in E as [E1 E]; [|exact Hp|exact Hp'].
    apply app_sep_inj in E as [E2 E3]; [|exact Hm|exact Hm'].
    by rewrite (bytes_of_string_inj _ _ E1), (bytes_of_string_inj _ _ E2),
               (bytes_of_string_inj _ _ E3).
  - unfold makeIndexKey. by rewrite !string_app_assoc.
Qed.

Lemma makeIndexKey_separates_witness :
  makeIndexKey "/users/1" "default" "application/json" = makeIndexKey "/users/1" "default" "text/plain"
  ↔ "/users/1" = "/users/1" ∧ "default" = "default" ∧ "application/json" = "text/plain".
Proof.
  apply (makeIndexKey_separates "/users/1" "default" "application/json"
                                "/users/1" "default" "text/plain");
    apply (bool_decide_unpack _); vm_compute; exact I.
Defined.

Lemma find_filter {A : Type} (P : A → Prop) `{!∀ x, Decision (P x)} (q : A → bool)
    (l : list A) :
  List.find q (base.filter P l) = List.find (λ x, bool_decide (P x) && q x) l.
Proof.
  induction l as [|x l IH]; [reflexivity|].
  rewrite filter_cons. simpl. case_bool_decide as HP; case_decide; try contradiction.
  - simpl. by rewrite IH.
  - exact IH.
Qed.

Lemma find_none_iff {A : Type} (q : A → bool) (l : list A) :
  List.find q l = None ↔ ∀ x, x ∈ l → q x = false.
Proof.
  split.
  - intros H x Hx. destruct (q x) eqn:Hq; [|reflexivity].
    assert (Hs : is_Some (List.find q l)) by (apply find_is_Some; eauto).
    rewrite H in Hs. by destruct Hs.
  - intros H. destruct (List.find q l) as [x|] eqn:E; [|reflexivity].
    apply find_first in E as [Hq (before & after & -> & _)].
    rewrite H in Hq; [discriminate|]. apply elem_of_app. right. by left.
Qed.

Section LookupFacts.
Context {RT : GoRuntime} {JF : JsonFilter}.

(** Whether record [r] answers a lookup with key [key] and method
    [methodBytes]. *)
Definition answersb (key : string) (methodBytes : bytes) (r : MockResponse) : bool :=
  bool_decide (keyOf r = key)
  && (bool_decide (length methodBytes = 0%nat) || equalFoldBytes (MethodBytes r) methodBytes).

Lemma pick_find (key : string) (methodBytes : bytes) (rs : list MockResponse) :
  pick (base.filter (λ r, keyOf r = key) rs) methodBytes
  = List.find (answersb key methodBytes) rs.
Proof.
  unfold pick, answersb. case_bool_decide as Hm.
  - induction rs as [|r rs IH]; [reflexivity|].
    rewrite filter_cons. simpl. case_decide; case_bool_decide; try contradiction; simpl.
    + reflexivity.
    + exact IH.
  - transitivity (firstByMethod (base.filter (λ r, keyOf r = key) rs) methodBytes).
    { generalize (base.filter (λ r, keyOf r = key) rs). intros [|first rest]; reflexivity. }
    rewrite firstByMethod_find, find_filter. reflexivity.
Qed.

(** X4.  On a store loaded from a directory, [FindResponseBytes] is a
    search through the records in loading order: it returns the first
    loaded record whose key is the requested one and whose method equals
    the requested one up to ASCII case (any method when none is
    requested), and nil exactly when no loaded record is such. *)
Theorem lookup_is_first_loaded_answer (baseDir : string) (entries : list DirEntry)
    (s : MockStorage) (pathBytes mockIDBytes contentTypeBytes methodBytes : bytes) :
  os_Stat_IsNotExist baseDir = false → os_ReadDir baseDir = Some entries →
  NewMockStorage baseDir = inr s →
  let key := makeIndexKeyFromBytes pathBytes mockIDBytes
               (trimSpaceASCII (Handlers.cutAt ";" contentTypeBytes)) in
  let answers (r : MockResponse) :=
    keyOf r = key
    ∧ (methodBytes = [] ∨ equalFoldBytes (MethodBytes r) methodBytes = true) in
  let found := FindResponseBytes s pathBytes mockIDBytes contentTypeBytes methodBytes in
  (∀ r, found = Some r →
        answers r
        ∧ ∃ before after, loadedRecords baseDir entries = before ++ r :: after
                          ∧ ∀ z, z ∈ before → ¬ answers z)
  ∧ (found = None ↔ ∀ r, r ∈ loadedRecords baseDir entries → ¬ answers r).
Proof.
  intros Hstat Hdir Hnew key answers found.
  destruct (NewMockStorage_loaded baseDir entries Hstat Hdir) as (s' & Hs' & Hidx & _).
  rewrite Hnew in Hs'. injection Hs' as <-.
  assert (Hfound : found = List.find (answersb key methodBytes) (loadedRecords baseDir entries)).
  { unfold found. rewrite FindResponseBytes_key.
    unfold Spec.normalized. rewrite <- cutAt_stripParameters, <- trimSpaceASCII_trimmed.
    fold key. by rewrite Hidx, pick_find. }
  assert (Hanswers : ∀ r, answersb key methodBytes r = true ↔ answers r).
  { intros r. unfold answersb, answers.
    rewrite andb_true_iff, orb_true_iff, !bool_decide_eq_true.
    destruct methodBytes as [|x m]; simpl.
    - split; intros [Hk _]; split; auto.
    - split; intros [Hk [Hd|He]]; try discriminate Hd; split; auto. }
  rewrite Hfound. split.
  - intros r Hr. apply find_first in Hr as [Hq (before & after & E & Hb)].
    split; [by apply Hanswers|]. exists before, after. split; [exact E|].
    intros z Hz Ha. apply Hanswers in Ha. rewrite (Hb z Hz) in Ha. discriminate Ha.
  - rewrite find_none_iff. split; intros H r Hr.
    + intros Ha. apply Hanswers in Ha. rewrite (H r Hr) in Ha. discriminate Ha.
    + destruct (answersb key methodBytes r) eqn:E; [|reflexivity].
      exfalso. apply (H r Hr). by apply Hanswers.
Qed.

(** X5.  [NewMockStorage] fails only when the directory exists and
    cannot be listed; a directory that does not exist gives an empty
    store, and files that cannot be read or parsed are skipped.  The
    store it returns has no scenarios and no replay timing. *)
Theorem NewMockStorage_fails_only_on_listing (baseDir : string) :
  (∀ e, NewMockStorage baseDir = inl e
        ↔ e = errReadDir ∧ os_Stat_IsNotExist baseDir = false ∧ os_ReadDir baseDir = None)
  ∧ (os_Stat_IsNotExist baseDir = true →
     ∃ s, NewMockStorage baseDir = inr s ∧ Responses s = ∅)
  ∧ (∀ s, NewMockStorage baseDir = inr s →
          BaseDir s = baseDir ∧ ReplayTiming s = false ∧ scenariosEnabled s = false
          ∧ scenarioOrder s = []).
Proof.
  unfold NewMockStorage, loadResponses. cbn [BaseDir].
  destruct (os_Stat_IsNotExist baseDir) eqn:Hstat.
  - split; [|split].
    + intros e. split; [discriminate|]. intros (_ & H & _). discriminate H.
    + intros _. eexists. split; [reflexivity|reflexivity].
    + intros s [= <-]. by repeat split.
  - destruct (os_ReadDir baseDir) as [entries|] eqn:Hdir; cbn [orErr bind].
    + split; [|split].
      * intros e. split; [discriminate|]. intros (_ & _ & H). discriminate H.
      * discriminate.
      * intros s [= <-]. rewrite foldl_loadEntry.
        destruct (foldl_addResponse_scenarios
                    (loadedRecords baseDir entries)
                    {| BaseDir := baseDir; Responses := ∅; ReplayTiming := false;
                       Jitter := 0%float; scenariosEnabled := false;
                       scenarioByPath := ∅; scenarioOrder := [] |}) as (H1 & _ & H3).
        cbn [BaseDir] in *. rewrite foldl_addResponse_BaseDir, H1, H3.
        split; [reflexivity|]. split; [|by split].
        generalize (loadedRecords baseDir entries).
        intros rs.
        assert (G : ∀ s0, ReplayTiming (foldl addResponse s0 rs) = ReplayTiming s0).
        { induction rs as [|r rs IH]; intros s0; [reflexivity|]. simpl. by rewrite IH. }
        by rewrite G.
    + split; [|split].
      * intros e. split; [intros [= <-]; by repeat split|]. by intros (-> & _ & _).
      * discriminate.
      * discriminate.
Qed.

End LookupFacts.

Section LookupExamples.
#[local] Existing Instances Fixture.runtime Fixture.equalsFilter.

Lemma lookup_is_first_loaded_answer_witness :
  os_Stat_IsNotExist "mocks" = false
  ∧ NewMockStorage "mocks" = inr Fixture.mockStore
  ∧ (∃ r, FindResponseBytes Fixture.mockStore (Go.bytes_of_string "/users/1")
            (Go.bytes_of_string "default") (Go.bytes_of_string " application/json; q=1")
            (Go.bytes_of_string "get") = Some r
          ∧ Body r = Go.bytes_of_string "first")
  ∧ (FindResponseBytes Fixture.mockStore (Go.bytes_of_string "/users/1")
       (Go.bytes_of_string "default") (Go.bytes_of_string " application/json; q=1")
       (Go.bytes_of_string "get") = None
     ↔ ∀ r, r ∈ loadedRecords "mocks" (default [] (os_ReadDir "mocks")) →
            ¬ (keyOf r = makeIndexKeyFromBytes (Go.bytes_of_string "/users/1")
                           (Go.bytes_of_string "default")
                           (trimSpaceASCII
                              (Handlers.cutAt ";" (Go.bytes_of_string " application/json; q=1")))
               ∧ (Go.bytes_of_string "get" = []
                  ∨ equalFoldBytes (MethodBytes r) (Go.bytes_of_string "get") = true))).
Proof.
  assert (Hstat : os_Stat_IsNotExist "mocks" = false) by (vm_compute; reflexivity).
  assert (Hdir : os_ReadDir "mocks" = Some (default [] (os_ReadDir "mocks")))
    by (vm_compute; reflexivity).
  assert (Hnew : NewMockStorage "mocks" = inr Fixture.mockStore) by (vm_compute; reflexivity).
  split; [exact Hstat|]. split; [exact Hnew|].
  split; [eexists; split; vm_compute; reflexivity|].
  exact (proj2 (lookup_is_first_loaded_answer "mocks" (default [] (os_ReadDir "mocks"))
                  Fixture.mockStore (Go.bytes_of_string "/users/1")
                  (Go.bytes_of_string "default") (Go.bytes_of_string " application/json; q=1")
                  (Go.bytes_of_string "get") Hstat Hdir Hnew)).
Defined.

End LookupExamples.


(** ** Statistics and listings *)

Lemma foldl_snoc_fmap {A B : Type} (f : A → B) (l : list A) (acc : list B) :
  foldl (λ acc x, acc ++ [f x]) acc l = acc ++ (f <$> l).
Proof.
  revert acc. induction l as [|x l IH]; intros acc; [simpl; by rewrite app_nil_r|].
  cbn [foldl].
  rewrite IH, fmap_cons, <- app_assoc. reflexivity.
Qed.

Lemma foldl_app_bind {A B : Type} (f : A → list B) (l : list A) (acc : list B) :
  foldl (λ acc x, acc ++ f x) acc l = acc ++ (l ≫= f).
Proof.
  revert acc. induction l as [|x l IH]; intros acc; [simpl; by rewrite app_nil_r|].
  cbn [foldl].
  rewrite IH, bind_cons, <- app_assoc. reflexivity.
Qed.

(** All the records of an index, key by key. *)
Definition flat (m : gmap string (list MockResponse)) : list MockResponse :=
  map_to_list m ≫= snd.

Lemma flat_insert (m : gmap string (list MockResponse)) (k : string) (r : MockResponse) :
  flat (<[k := default [] (m !! k) ++ [r]]> m) ≡ₚ flat m ++ [r].
Proof.
  unfold flat. destruct (m !! k) as [l|] eqn:E; simpl.
  - rewrite <- insert_delete_eq, map_to_list_insert by apply lookup_delete_eq.
    rewrite <- (map_to_list_delete m k l E).
    rewrite !bind_cons. simpl. rewrite <- !app_assoc.
    apply Permutation_app_head. apply Permutation_app_comm.
  - rewrite map_to_list_insert by exact E. rewrite bind_cons. simpl.
    apply Permutation_cons_append.
Qed.

Section ListingFacts.
Context {RT : GoRuntime} {JF : JsonFilter}.

Lemma flat_foldl_addResponse (rs : list MockResponse) :
  ∀ s, flat (Responses (foldl addResponse s rs)) ≡ₚ flat (Responses s) ++ rs.
Proof.
  induction rs as [|r rs IH]; intros s; simpl; [by rewrite app_nil_r|].
  rewrite IH. unfold addResponse at 1. cbn [Responses setResponses].
  rewrite flat_insert, <- app_assoc. reflexivity.
Qed.

Lemma allResponses_flat (s : MockStorage) : Listing.allResponses s ≡ₚ flat (Responses s).
Proof.
  unfold Listing.allResponses, flat. rewrite foldl_app_bind, app_nil_l.
  by rewrite mapRange_perm.
Qed.

Lemma countResponses_total (l : list (string * list MockResponse)) :
  ∀ acc, (foldl (λ acc entry, Listing.countResponses acc entry.2) acc l).1.1
         = acc.1.1 + Z.of_nat (length (l ≫= snd)).
Proof.
  induction l as [|[k rs] l IH]; intros acc; [simpl; lia|].
  cbn [foldl]. rewrite IH, bind_cons, length_app. cbn [snd].
  unfold Listing.countResponses. destruct rs; simpl; lia.
Qed.

Lemma range_keys {V : Type} (m : gmap string V) :
  foldl (λ paths entry, paths ++ [entry.1]) [] (mapRange m) = (mapRange m).*1.
Proof. by rewrite foldl_snoc_fmap. Qed.

Lemma range_keys_NoDup {V : Type} (m : gmap string V) :
  NoDup (mapRange m).*1 ∧ length (mapRange m).*1 = size m.
Proof.
  split.
  - rewrite (mapRange_perm V m). apply NoDup_fst_map_to_list.
  - rewrite length_fmap, (mapRange_perm V m). apply length_map_to_list.
Qed.

Lemma range_length {V : Type} (m : gmap string V) : length (mapRange m) = size m.
Proof. rewrite (mapRange_perm V m). apply length_map_to_list. Qed.

Lemma range_keys_elem {V : Type} (m : gmap string V) (k : string) :
  k ∈ (mapRange m).*1 ↔ is_Some (m !! k).
Proof.
  rewrite (mapRange_perm V m), list_elem_of_fmap. split.
  - intros ([k' v] & -> & H). apply elem_of_map_to_list in H. by exists v.
  - intros [v H]. exists (k, v). split; [reflexivity|]. by apply elem_of_map_to_list.
Qed.

Lemma total_responses_listed (s : MockStorage) :
  Listing.total_responses (Listing.GetStats s) = Z.of_nat (length (Listing.ListAllMocks s)).
Proof.
  unfold Listing.GetStats, Listing.ListAllMocks. destruct (scenariosEnabled s).
  - unfold Listing.computeScenarioStats. cbn [Listing.total_responses].
    by rewrite foldl_snoc_fmap, app_nil_l, length_fmap.
  - unfold Listing.computeStats. cbn [Listing.total_responses].
    rewrite countResponses_total. unfold Listing.allResponses.
    rewrite foldl_app_bind, app_nil_l. reflexivity.
Qed.


(** X7.  After a directory load, [ListAllMocks] returns the records
    that were loaded, each as often as it was loaded (in the order of
    the map iteration), and [total_responses] is their number: a
    recording that is shadowed by an earlier one with the same key is
    listed and counted. *)
Theorem loaded_records_are_listed (baseDir : string) (entries : list DirEntry)
    (s : MockStorage) :
  os_Stat_IsNotExist baseDir = false → os_ReadDir baseDir = Some entries →
  NewMockStorage baseDir = inr s →
  Listing.ListAllMocks s ≡ₚ loadedRecords baseDir entries
  ∧ Listing.total_responses (Listing.GetStats s)
    = Z.of_nat (length (loadedRecords baseDir entries)).
Proof.
  intros Hstat Hdir Hnew.
  assert (Hlist : Listing.ListAllMocks s ≡ₚ loadedRecords baseDir entries).
  { unfold NewMockStorage, loadResponses in Hnew. cbn [BaseDir] in Hnew.
    rewrite Hstat, Hdir in Hnew. cbn [orErr bind] in Hnew. injection Hnew as <-.
    rewrite foldl_loadEntry. cbn [BaseDir].
    unfold Listing.ListAllMocks.
    destruct (foldl_addResponse_scenarios
                (loadedRecords baseDir entries)
                {| BaseDir := baseDir; Responses := ∅; ReplayTiming := false;
                   Jitter := 0%float; scenariosEnabled := false;
                   scenarioByPath := ∅; scenarioOrder := [] |}) as (-> & _ & _).
    cbn [scenariosEnabled].
    rewrite allResponses_flat, flat_foldl_addResponse. cbn [Responses].
    unfold flat. by rewrite map_to_list_empty. }
  split; [exact Hlist|].
  rewrite total_responses_listed. by rewrite Hlist.
Qed.

Lemma foldl_insert_true {A : Type} (f : A → string) (l : list A) (k : string) :
  ∀ acc : gmap string bool,
    is_Some (foldl (λ acc x, <[f x := true]> acc) acc l !! k)
    ↔ is_Some (acc !! k) ∨ ∃ x, x ∈ l ∧ f x = k.
Proof.
  induction l as [|x l IH]; intros acc; cbn [foldl].
  - split; [by left|]. intros [H|(x & Hx & _)]; [exact H|]. by apply elem_of_nil in Hx.
  - rewrite IH. destruct (decide (f x = k)) as [E|N].
    + split; intros _.
      * right. exists x. split; [by left|exact E].
      * left. rewrite E, lookup_insert_eq. by eexists.
    + rewrite lookup_insert_ne by exact N. split.
      * intros [H|(y & Hy & E)]; [by left|]. right. exists y. split; [by right|exact E].
      * intros [H|(y & Hy & E)]; [by left|]. right. exists y. split; [|exact E].
        apply elem_of_cons in Hy as [->|Hy]; [contradiction|exact Hy].
Qed.

(** The first record of an entry of the index. *)
Definition heads (entry : string * list MockResponse) (first : MockResponse) : Prop :=
  ∃ rest, entry.2 = first :: rest.

Lemma countResponses_paths (l : list (string * list MockResponse)) (k : string) :
  ∀ acc,
    is_Some ((foldl (λ acc entry, Listing.countResponses acc entry.2) acc l).1.2 !! k)
    ↔ is_Some (acc.1.2 !! k) ∨ ∃ entry first, entry ∈ l ∧ heads entry first ∧ Path first = k.
Proof.
  induction l as [|[key rs] l IH]; intros acc; cbn [foldl].
  - split; [by left|]. intros [H|(x & ? & Hx & _)]; [exact H|]. by apply elem_of_nil in Hx.
  - rewrite IH. unfold Listing.countResponses. cbn [snd]. split.
    + intros [H|(entry & first & He & Hh & Hp)].
      * destruct rs as [|resp rest]; cbn [fst snd] in H; [by left|].
        destruct (decide (Path resp = k)) as [E|N].
        -- right. exists (key, resp :: rest), resp. split; [by left|].
           split; [by exists rest|exact E].
        -- rewrite lookup_insert_ne in H by exact N. by left.
      * right. exists entry, first. split; [by right|]. by split.
    + intros [H|(entry & first & He & Hh & Hp)].
      * left. destruct rs as [|resp rest]; cbn [fst snd]; [exact H|].
        destruct (decide (Path resp = k)) as [E|N].
        -- rewrite E, lookup_insert_eq. by eexists.
        -- by rewrite lookup_insert_ne by exact N.
      * apply elem_of_cons in He as [->|He].
        -- left. destruct Hh as [rest Hh]. cbn [snd] in Hh. rewrite Hh. cbn [fst snd].
           rewrite Hp, lookup_insert_eq. by eexists.
        -- right. exists entry, first. by repeat split.
Qed.

Lemma countResponses_ids (l : list (string * list MockResponse)) (k : string) :
  ∀ acc,
    is_Some ((foldl (λ acc entry, Listing.countResponses acc entry.2) acc l).2 !! k)
    ↔ is_Some (acc.2 !! k)
      ∨ ∃ entry first, entry ∈ l ∧ heads entry first ∧ MockID first = k ∧ k ≠ "".
Proof.
  induction l as [|[key rs] l IH]; intros acc; cbn [foldl].
  - split; [by left|]. intros [H|(x & ? & Hx & _)]; [exact H|]. by apply elem_of_nil in Hx.
  - rewrite IH. unfold Listing.countResponses. cbn [snd]. split.
    + intros [H|(entry & first & He & Hh & Hp)].
      * destruct rs as [|resp rest]; cbn [fst snd] in H; [by left|].
        destruct (decide (MockID resp ≠ "")) as [Hne|Hempty]; [|by left].
        destruct (decide (MockID resp = k)) as [E|N].
        -- right. exists (key, resp :: rest), resp. split; [by left|].
           split; [by exists rest|]. split; [exact E|]. by rewrite <- E.
        -- rewrite lookup_insert_ne in H by exact N. by left.
      * right. exists entry, first. split; [by right|]. by split.
    + intros [H|(entry & first & He & Hh & Hp & Hne)].
      * left. destruct rs as [|resp rest]; cbn [fst snd]; [exact H|].
        destruct (decide (MockID resp ≠ "")) as [Hne|Hempty]; [|exact H].
        destruct (decide (MockID resp = k)) as [E|N].
        -- rewrite E, lookup_insert_eq. by eexists.
        -- by rewrite lookup_insert_ne by exact N.
      * apply elem_of_cons in He as [->|He].
        -- left. destruct Hh as [rest Hh]. cbn [snd] in Hh. rewrite Hh. cbn [fst snd].
           rewrite Hp. rewrite decide_True by exact Hne.
           rewrite lookup_insert_eq. by eexists.
        -- right. exists entry, first. by repeat split.
Qed.

Lemma range_elem {V : Type} (m : gmap string V) (k : string) (v : V) :
  (k, v) ∈ mapRange m ↔ m !! k = Some v.
Proof. rewrite (mapRange_perm V m). apply elem_of_map_to_list. Qed.

(** X8.  What the statistics count.  In scenario mode [paths] holds the
    paths of the scenarios and [unique_mock_ids] counts their names.
    Otherwise only the first record of each index entry is looked at:
    [paths] holds the paths of these records, and [unique_mock_ids]
    counts their mock ids, the empty one left out. *)
Theorem stats_count_first_records (s : MockStorage) :
  (∀ p, p ∈ Listing.paths (Listing.GetStats s)
        ↔ if scenariosEnabled s
          then ∃ sc, sc ∈ scenarioOrder s ∧ path sc = p
          else ∃ key first rest, Responses s !! key = Some (first :: rest) ∧ Path first = p)
  ∧ ∃ ids : list string,
      NoDup ids
      ∧ Listing.unique_mock_ids (Listing.GetStats s) = Z.of_nat (length ids)
      ∧ ∀ m, m ∈ ids
             ↔ if scenariosEnabled s
               then ∃ sc, sc ∈ scenarioOrder s ∧ name sc = m
               else ∃ key first rest,
                      Responses s !! key = Some (first :: rest) ∧ MockID first = m ∧ m ≠ "".
Proof.
  unfold Listing.GetStats. destruct (scenariosEnabled s).
  - unfold Listing.computeScenarioStats.
    cbn [Listing.paths Listing.unique_mock_ids]. split.
    + intros p. rewrite foldl_snoc_fmap, app_nil_l, range_keys_elem, foldl_insert_true.
      rewrite lookup_empty. split; [intros [[? H]|H]; [discriminate H|exact H]|by right].
    + match goal with |- context [size ?m] => exists (mapRange m).*1 end.
      split; [apply range_keys_NoDup|].
      split; [by rewrite length_fmap, range_length|].
      intros m. rewrite range_keys_elem, foldl_insert_true, lookup_empty.
      split; [intros [[? H]|H]; [discriminate H|exact H]|by right].
  - unfold Listing.computeStats.
    cbn [Listing.paths Listing.unique_mock_ids]. split.
    + intros p. rewrite foldl_snoc_fmap, app_nil_l, range_keys_elem, countResponses_paths.
      cbn [fst snd]. rewrite lookup_empty. split.
      * intros [[? H]|([key rs] & first & He & [rest Hh] & Hp)]; [discriminate H|].
        cbn [snd] in Hh. subst rs. apply range_elem in He. by exists key, first, rest.
      * intros (key & first & rest & He & Hp). right.
        exists (key, first :: rest), first. split; [by apply range_elem|].
        split; [by exists rest|exact Hp].
    + match goal with |- context [size ?m] => exists (mapRange m).*1 end.
      split; [apply range_keys_NoDup|].
      split; [by rewrite length_fmap, range_length|].
      intros m. rewrite range_keys_elem, countResponses_ids.
      cbn [fst snd]. rewrite lookup_empty. split.
      * intros [[? H]|([key rs] & first & He & [rest Hh] & Hp)]; [discriminate H|].
        cbn [snd] in Hh. subst rs. apply range_elem in He. by exists key, first, rest.
      * intros (key & first & rest & He & Hp). right.
        exists (key, first :: rest), first. split; [by apply range_elem|].
        split; [by exists rest|exact Hp].
Qed.

End ListingFacts.

Section ListingExamples.
#[local] Existing Instances Fixture.runtime Fixture.equalsFilter.

Lemma loaded_records_are_listed_witness :
  os_Stat_IsNotExist "mocks" = false
  ∧ NewMockStorage "mocks" = inr Fixture.mockStore
  ∧ Listing.ListAllMocks Fixture.mockStore
    ≡ₚ loadedRecords "mocks" (default [] (os_ReadDir "mocks"))
  ∧ Listing.total_responses (Listing.GetStats Fixture.mockStore) = 3.
Proof.
  assert (Hstat : os_Stat_IsNotExist "mocks" = false) by (vm_compute; reflexivity).
  assert (Hdir : os_ReadDir "mocks" = Some (default [] (os_ReadDir "mocks")))
    by (vm_compute; reflexivity).
  assert (Hnew : NewMockStorage "mocks" = inr Fixture.mockStore) by (vm_compute; reflexivity).
  split; [exact Hstat|]. split; [exact Hnew|].
  destruct (loaded_records_are_listed "mocks" (default [] (os_ReadDir "mocks"))
              Fixture.mockStore Hstat Hdir Hnew) as [Hlist Htotal].
  split; [exact Hlist|]. rewrite Htotal. vm_compute. reflexivity.
Defined.

End ListingExamples.


(** ** Loading and matching scenarios *)

Section ScenarioFacts.
Context {RT : GoRuntime} {JF : JsonFilter}.





Section Config.
Variable yaml_Unmarshal : bytes → option scenarioFile.



End Config.
End ScenarioFacts.


Section ScenarioIdentity.
Context {RT : GoRuntime} {JF : JsonFilter}.

(** The identity that [loadScenario] gives a scenario and its record. *)
Record identified (sc : mockScenario) : Prop := {
  id_name : name sc ≠ "";
  id_path : path sc ≠ "";
  id_method : method sc ≠ "";
  id_methodBytes : methodBytes sc = Go.bytes_of_string (method sc);
  id_Path : Path (response sc) = path sc;
  id_FullURL : FullURL (response sc) = path sc;
  id_Method : Method (response sc) = method sc;
  id_MethodBytes : MethodBytes (response sc) = methodBytes sc;
  id_MockID : MockID (response sc) = name sc;
}.

Lemma loadScenario_identified (baseDir : string) (idx : nat) (def : scenarioDefinition)
    (sc : mockScenario) :
  loadScenario baseDir idx def = inr sc →
  identified sc
  ∧ name sc = Go.TrimSpace (defName def)
  ∧ (size (filterBody (defFilter def)) = 0%nat → filter sc = None)
  ∧ (strings_ToUpper (Go.TrimSpace (defMethod def)) ≠ "" →
     method sc = strings_ToUpper (Go.TrimSpace (defMethod def))).
Proof.
  unfold loadScenario, compileFilter. intros H.
  destruct (decide (Go.TrimSpace (defName def) = "")) as [|Hname]; [discriminate H|].
  destruct (decide (Go.TrimSpace (defPath def) = "")) as [|Hpath]; [discriminate H|].
  destruct (decide (Go.TrimSpace (defFile (defResponse def)) = "")); [discriminate H|].
  destruct (loadResponseFromFile _ _) as [e|recorded] eqn:Hload; [discriminate H|].
  set (m := if decide (strings_ToUpper (Go.TrimSpace (defMethod def)) = "")
            then strings_ToUpper
                   (Method match defDelay (defResponse def) with
                           | Some newDelay => applyDelayOverride newDelay recorded
                           | None => recorded
                           end)
            else strings_ToUpper (Go.TrimSpace (defMethod def))) in H.
  assert (Hm : (if decide (m = "") then "GET" else m) ≠ "")
    by (destruct (decide (m = "")); [discriminate|assumption]).
  assert (Hgiven : strings_ToUpper (Go.TrimSpace (defMethod def)) ≠ "" →
                   (if decide (m = "") then "GET" else m)
                   = strings_ToUpper (Go.TrimSpace (defMethod def))).
  { intros Hne. unfold m.
    destruct (decide (strings_ToUpper (Go.TrimSpace (defMethod def)) = "")) as [E|_];
      [contradiction|].
    by rewrite decide_False. }
  case_bool_decide as Hsize.
  - destruct (parser_FromMap _) as [operator|]; cbn [orErr bind] in H; [|discriminate H].
    destruct (Validate_Valid operator); [|discriminate H]. cbn [bind] in H.
    injection H as <-. split; [by constructor|]. split; [reflexivity|].
    split; [intros Hz; cbn [filterBody] in *; lia|exact Hgiven].
  - cbn [bind] in H. injection H as <-. split; [by constructor|]. split; [reflexivity|].
    split; [reflexivity|exact Hgiven].
Qed.

Section Config.
Variable yaml_Unmarshal : bytes → option scenarioFile.

Lemma loaded_scenarios_identified (s0 s : MockStorage) (configPath : string) :
  LoadScenarioConfig yaml_Unmarshal s0 configPath = (s, None) →
  ∀ sc, sc ∈ scenarioOrder s → identified sc.
Proof.
  intros Hload sc Hsc.
  destruct (LoadScenarioConfig_inv yaml_Unmarshal s0 s configPath Hload)
    as (_ & _ & _ & _ & payload & file & _ & _ & Hall).
  apply list_elem_of_lookup_1 in Hsc as [i Hi].
  destruct (Forall2_lookup_r _ _ _ _ _ Hall Hi) as (def & _ & idx & Hdef).
  by apply loadScenario_identified in Hdef as [Hid _].
Qed.

(** X11.  After a successful [LoadScenarioConfig] there is at least one
    scenario, one for each definition of the file, and every scenario
    has a non-empty name, path and method; its record carries this
    identity instead of the recorded one: the scenario's path as path
    and URL, its method, and its name as mock id. *)
Theorem loaded_scenarios_have_identity (s0 s : MockStorage) (configPath : string) :
  LoadScenarioConfig yaml_Unmarshal s0 configPath = (s, None) →
  scenarioOrder s ≠ []
  ∧ (∃ payload file, os_ReadFile configPath = Some payload
       ∧ yaml_Unmarshal payload = Some file
       ∧ length (scenarioOrder s) = length (Scenarios file))
  ∧ ∀ sc, sc ∈ scenarioOrder s →
      name sc ≠ "" ∧ path sc ≠ "" ∧ method sc ≠ ""
      ∧ methodBytes sc = Go.bytes_of_string (method sc)
      ∧ Path (response sc) = path sc ∧ FullURL (response sc) = path sc
      ∧ Method (response sc) = method sc ∧ MethodBytes (response sc) = methodBytes sc
      ∧ MockID (response sc) = name sc.
Proof.
  intros Hload.
  pose proof (loaded_scenarios_identified s0 s configPath Hload) as Hid.
  destruct (LoadScenarioConfig_inv yaml_Unmarshal s0 s configPath Hload)
    as (_ & _ & _ & _ & payload & file & Hread & Hyaml & Hall).
  assert (Hlen : length (scenarioOrder s) = length (Scenarios file))
    by (symmetry; exact (Forall2_length _ _ _ Hall)).
  split; [|split].
  - unfold LoadScenarioConfig in Hload. rewrite Hread, Hyaml in Hload.
    case_bool_decide as Hz; [discriminate Hload|].
    intros Hnil. rewrite Hnil in Hlen. cbn [length] in Hlen. by symmetry in Hlen.
  - by exists payload, file.
  - intros sc Hsc. destruct (Hid sc Hsc). by repeat split.
Qed.

End Config.
End ScenarioIdentity.

Section ScenarioFactsExamples.
#[local] Existing Instances Fixture.runtime Fixture.equalsFilter.




Lemma loaded_scenarios_have_identity_witness :
  LoadScenarioConfig Fixture.yaml Fixture.mockStore "fixtures/scenarios.yml"
  = (Fixture.scenarioStore, None)
  ∧ (λ sc, (name sc, path sc, method sc)) <$> scenarioOrder Fixture.scenarioStore
    = [("ready", "/api", "POST"); ("fallback", "/api", "POST")]
  ∧ ∀ sc, sc ∈ scenarioOrder Fixture.scenarioStore →
      Path (response sc) = path sc ∧ MockID (response sc) = name sc.
Proof.
  assert (H : LoadScenarioConfig Fixture.yaml Fixture.mockStore "fixtures/scenarios.yml"
              = (Fixture.scenarioStore, None)) by (vm_compute; reflexivity).
  split; [exact H|]. split; [vm_compute; reflexivity|].
  intros sc Hsc.
  destruct (loaded_scenarios_have_identity Fixture.yaml Fixture.mockStore
              Fixture.scenarioStore "fixtures/scenarios.yml" H) as (_ & _ & Hall).
  destruct (Hall sc Hsc) as (_ & _ & _ & _ & HP & _ & _ & _ & HM).
  split; [exact HP|exact HM].
Defined.

End ScenarioFactsExamples.


(** ** The record codec *)

Lemma asString_Some (v : JSON) (s : string) : asString v = Some s ↔ v = JString s.
Proof. destruct v; simpl; split; congruence. Qed.

Lemma foldl_insert_dom {A V : Type} (f : A → string) (g : A → V) (l : list A) (k : string) :
  ∀ acc : gmap string V,
    is_Some (foldl (λ acc x, <[f x := g x]> acc) acc l !! k)
    ↔ is_Some (acc !! k) ∨ ∃ x, x ∈ l ∧ f x = k.
Proof.
  induction l as [|x l IH]; intros acc; cbn [foldl].
  - split; [by left|]. intros [H|(x & Hx & _)]; [exact H|]. by apply elem_of_nil in Hx.
  - rewrite IH. destruct (decide (f x = k)) as [E|N].
    + split; intros _.
      * right. exists x. split; [by left|exact E].
      * left. rewrite E, lookup_insert_eq. by eexists.
    + rewrite lookup_insert_ne by exact N. split.
      * intros [H|(y & Hy & E)]; [by left|]. right. exists y. split; [by right|exact E].
      * intros [H|(y & Hy & E)]; [by left|]. right. exists y. split; [|exact E].
        apply elem_of_cons in Hy as [->|Hy]; [contradiction|exact Hy].
Qed.

Lemma foldl_insert_lowered_key (l : list (string * string)) :
  ∀ (acc : gmap string string) (keyLower key : string),
    foldl (λ acc kv, <[toLowerASCIISimple kv.1 := kv.1]> acc) acc l !! keyLower = Some key →
    acc !! keyLower = Some key ∨ (key ∈ l.*1 ∧ keyLower = toLowerASCIISimple key).
Proof.
  induction l as [|[k v] l IH]; intros acc keyLower key; cbn [foldl]; [by left|].
  intros H. apply IH in H as [H|[Hin E]].
  - cbn [fst] in H. destruct (decide (toLowerASCIISimple k = keyLower)) as [Ek|N].
    + rewrite Ek, lookup_insert_eq in H. injection H as ->.
      right. split; [rewrite fmap_cons; by left|by symmetry].
    + rewrite lookup_insert_ne in H by exact N. by left.
  - right. split; [rewrite fmap_cons; by right|exact E].
Qed.

Section HeaderFacts.
Context {RT : GoRuntime}.

(** The loop over the response headers, on a list of entries. *)
Definition headerLoop (acc : gmap string string * gmap string string)
    (l : list (string * JSON)) : gmap string string * gmap string string :=
  foldl (λ acc kv,
           match asString kv.2 with
           | Some str => (<[kv.1 := str]> acc.1, <[strings_ToLower kv.1 := str]> acc.2)
           | None => acc
           end) acc l.

Lemma headerLoop_sound (l : list (string * JSON)) :
  ∀ acc k v, (headerLoop acc l).1 !! k = Some v →
             acc.1 !! k = Some v ∨ (k, JString v) ∈ l.
Proof.
  unfold headerLoop.
  induction l as [|[k0 j] l IH]; intros acc k v; cbn [foldl]; [by left|].
  intros H. apply IH in H as [H|H]; [|right; by right].
  cbn [fst snd] in H. destruct (asString j) as [str|] eqn:Hj; [|by left].
  apply asString_Some in Hj. subst j. cbn [fst] in H.
  destruct (decide (k0 = k)) as [->|N].
  - rewrite lookup_insert_eq in H. injection H as ->. right. by left.
  - rewrite lookup_insert_ne in H by exact N. by left.
Qed.

Lemma headerLoop_keep (l : list (string * JSON)) :
  ∀ acc k, k ∉ l.*1 → (headerLoop acc l).1 !! k = acc.1 !! k.
Proof.
  unfold headerLoop.
  induction l as [|[k0 j] l IH]; intros acc k Hk; cbn [foldl]; [reflexivity|].
  rewrite fmap_cons in Hk. apply not_elem_of_cons in Hk as [N Hk]. cbn [fst] in N.
  rewrite IH by exact Hk. cbn [fst snd].
  destruct (asString j); [|reflexivity]. cbn [fst]. by rewrite lookup_insert_ne.
Qed.

Lemma headerLoop_complete (l : list (string * JSON)) :
  NoDup l.*1 → ∀ acc k v, (k, JString v) ∈ l → (headerLoop acc l).1 !! k = Some v.
Proof.
  induction l as [|[k0 j] l IH]; intros Hnd acc k v Hin; [by apply elem_of_nil in Hin|].
  rewrite fmap_cons in Hnd. apply NoDup_cons in Hnd as [Hk0 Hnd]. cbn [fst] in Hk0.
  apply elem_of_cons in Hin as [[= -> <-]|Hin].
  - change (headerLoop acc ((k0, JString v) :: l))
      with (headerLoop (<[k0 := v]> acc.1, <[strings_ToLower k0 := v]> acc.2) l).
    rewrite headerLoop_keep by exact Hk0. cbn [fst]. apply lookup_insert_eq.
  - change (headerLoop acc ((k0, j) :: l))
      with (headerLoop match asString j with
                       | Some str => (<[k0 := str]> acc.1, <[strings_ToLower k0 := str]> acc.2)
                       | None => acc
                       end l).
    by apply IH.
Qed.

Lemma responseHeaderMaps_names (headers : gmap string JSON) (k v : string) :
  (responseHeaderMaps headers).1 !! k = Some v ↔ headers !! k = Some (JString v).
Proof.
  change (responseHeaderMaps headers) with (headerLoop (∅, ∅) (mapRange headers)).
  split.
  - intros H. apply headerLoop_sound in H as [H|H]; [|by apply range_elem].
    cbn [fst] in H. by rewrite lookup_empty in H.
  - intros H. apply headerLoop_complete; [apply range_keys_NoDup|by apply range_elem].
Qed.

Lemma parseMockRecord_parsedFrom (data : bytes) (fallbackMockID : string) (r : MockResponse) :
  parseMockRecord data fallbackMockID = inr r →
  ∃ requestData responseData, parsedFrom requestData responseData fallbackMockID r.
Proof.
  intros H. apply parseMockRecord_inr in H as (record & _ & H).
  apply parseRecordTree_inr in H as (q & p & _ & _ & Hpf). by exists q, p.
Qed.

Lemma parsedFrom_keys (q p : gmap string JSON) (fb : string) (r : MockResponse) :
  parsedFrom q p fb r →
  (∀ keyLower key, HeaderKeysLower r !! keyLower = Some key →
                   keyLower = toLowerASCIISimple key ∧ is_Some (Headers r !! key))
  ∧ (∀ keyLower, is_Some (HeaderKeysLower r !! keyLower)
                 ↔ ∃ key, is_Some (Headers r !! key) ∧ toLowerASCIISimple key = keyLower).
Proof.
  intros Hpf. rewrite (pf_keys _ _ _ _ Hpf). split.
  - intros keyLower key H.
    apply foldl_insert_lowered_key in H as [H|[Hin E]]; [by rewrite lookup_empty in H|].
    split; [exact E|]. apply list_elem_of_fmap in Hin as ([k v] & -> & Hin).
    apply range_elem in Hin. by exists v.
  - intros keyLower.
    rewrite (foldl_insert_dom (λ kv : string * string, toLowerASCIISimple kv.1)
               (λ kv, kv.1) (mapRange (Headers r)) keyLower ∅).
    rewrite lookup_empty. split.
    + intros [[? H]|([k v] & Hin & E)]; [discriminate H|].
      exists k. split; [|exact E]. apply range_elem in Hin. by exists v.
    + intros (key & [v Hv] & E). right. exists (key, v). split; [by apply range_elem|exact E].
Qed.

(** X12.  Every record that [parseMockRecord] returns has a non-empty
    path and method, its [MethodBytes] are the bytes of its method, its
    content type is already in the form that [FindResponseBytes]
    normalizes a requested content type to, and [HeaderKeysLower] maps
    exactly the lower-cased names of its headers, each to a header name
    of the record that it is the lower-cased form of. *)
Theorem parsed_record_invariants (data : bytes) (fallbackMockID : string) (r : MockResponse) :
  parseMockRecord data fallbackMockID = inr r →
  Path r ≠ "" ∧ Method r ≠ "" ∧ MethodBytes r = Go.bytes_of_string (Method r)
  ∧ trimSpaceASCII (Handlers.cutAt ";" (Go.bytes_of_string (ContentType r)))
    = Go.bytes_of_string (ContentType r)
  ∧ (∀ keyLower key, HeaderKeysLower r !! keyLower = Some key →
                     keyLower = toLowerASCIISimple key ∧ is_Some (Headers r !! key))
  ∧ (∀ keyLower, is_Some (HeaderKeysLower r !! keyLower)
                 ↔ ∃ key, is_Some (Headers r !! key) ∧ toLowerASCIISimple key = keyLower).
Proof.
  intros H. apply parseMockRecord_parsedFrom in H as (q & p & Hpf).
  split; [|split; [|split; [|split]]].
  - destruct (pf_path _ _ _ _ Hpf) as (parsedPath & _ & ->).
    destruct (decide (parsedPath = "")); [discriminate|assumption].
  - rewrite (pf_method _ _ _ _ Hpf).
    destruct (decide (default "" (asString (index q "method")) = "")); [discriminate|assumption].
  - exact (pf_methodBytes _ _ _ _ Hpf).
  - rewrite trimSpaceASCII_trimmed, cutAt_stripParameters.
    rewrite (pf_contentType _ _ _ _ Hpf). apply normalizeContentType_normalized.
  - apply (parsedFrom_keys _ _ _ _ Hpf).
Qed.

(** X13.  The headers of a parsed record are exactly the response
    headers of the recording whose value is a string, under their
    recorded names; there are none when the recording has no header
    object. *)
Theorem recorded_string_headers_kept (record responseData : gmap string JSON)
    (fallbackMockID : string) (r : MockResponse) :
  parseRecordTree record fallbackMockID = inr r →
  record !! "response" = Some (JObject responseData) →
  ∀ k v, Headers r !! k = Some v
         ↔ ∃ headers, responseData !! "headers" = Some (JObject headers)
                      ∧ headers !! k = Some (JString v).
Proof.
  intros H Hresp k v.
  apply parseRecordTree_inr in H as (q & p & _ & Hp & Hpf).
  unfold index in Hp. rewrite Hresp in Hp. cbn [default asObject] in Hp. injection Hp as <-.
  rewrite (pf_headers _ _ _ _ Hpf), responseHeaderMaps_names. unfold index.
  destruct (responseData !! "headers") as [[|b|f|str|arr|headers]|] eqn:Hh;
    cbn [default from_option id asObject].
  all: try (rewrite lookup_empty; split; [discriminate|intros (h & [=] & _)]).
  split.
  - intros Hk. by exists headers.
  - intros (h & [= <-] & Hk). exact Hk.
Qed.

End HeaderFacts.

Section CopyFacts.
Context {RT : GoRuntime} {JF : JsonFilter}.

Lemma copyHeaders_fold (r : MockResponse) (l : list (string * string)) :
  ∀ acc : list Handlers.headerOp * bool,
    let copied :=
      foldl (λ acc entry,
               if negb (Handlers.excluded entry.1)
               then (acc.1 ++ [Handlers.HeaderSet entry.2 (indexStr (Headers r) entry.2)],
                     if decide (entry.1 = "content-type") then true else acc.2)
               else acc) acc l in
    (∀ op, op ∈ copied.1
           ↔ op ∈ acc.1
             ∨ ∃ keyLower key, (keyLower, key) ∈ l ∧ Handlers.excluded keyLower = false
                               ∧ op = Handlers.HeaderSet key (indexStr (Headers r) key))
    ∧ (copied.2 = true ↔ acc.2 = true ∨ ∃ key, ("content-type", key) ∈ l).
Proof.
  induction l as [|[keyLower key] l IH]; intros acc; cbn [foldl].
  - split.
    + intros op. split; [by left|]. intros [H|(? & ? & H & _)]; [exact H|].
      by apply elem_of_nil in H.
    + split; [by left|]. intros [H|(? & H)]; [exact H|]. by apply elem_of_nil in H.
  - cbn zeta in IH. cbn zeta. cbn [fst snd].
    destruct (Handlers.excluded keyLower) eqn:Hex; cbn [negb].
    + destruct (IH acc) as [IH1 IH2]. split.
      * intros op. rewrite IH1. split.
        -- intros [H|(kl & k & Hin & He & Hop)]; [by left|].
           right. exists kl, k. split; [by right|]. by split.
        -- intros [H|(kl & k & Hin & He & Hop)]; [by left|].
           apply elem_of_cons in Hin as [[= -> ->]|Hin]; [congruence|].
           right. exists kl, k. by repeat split.
      * rewrite IH2. split.
        -- intros [H|(k & Hin)]; [by left|]. right. exists k. by right.
        -- intros [H|(k & Hin)]; [by left|].
           apply elem_of_cons in Hin as [[= <- ->]|Hin]; [vm_compute in Hex; discriminate Hex|].
           right. by exists k.
    + match goal with |- context [foldl _ ?a l] => destruct (IH a) as [IH1 IH2] end.
      cbn [fst snd] in IH1, IH2. split.
      * intros op. rewrite IH1, elem_of_app, list_elem_of_singleton. split.
        -- intros [[H | ->] | (kl & k & Hin & He & Hop)].
           ++ by left.
           ++ right. exists keyLower, key. split; [by left|]. by split.
           ++ right. exists kl, k. split; [by right|]. by split.
        -- intros [H|(kl & k & Hin & He & Hop)]; [left; by left|].
           apply elem_of_cons in Hin as [[= -> ->]|Hin]; [left; by right|].
           right. exists kl, k. by repeat split.
      * rewrite IH2. destruct (decide (keyLower = "content-type")) as [->|N].
        -- split; intros _; [|by left]. right. exists key. by left.
        -- split.
           ++ intros [H|(k & Hin)]; [by left|]. right. exists k. by right.
           ++ intros [H|(k & Hin)]; [by left|].
              apply elem_of_cons in Hin as [[= <- ->]|Hin]; [contradiction|].
              right. by exists k.
Qed.

(** X14.  The headers that the handler copies from a parsed record are
    exactly its string headers whose lower-cased name is not excluded,
    each with the recorded value and under the recorded name (the name
    that [HeaderKeysLower] keeps, when several names differ in case
    only).  The content type is then set from the record's
    [ContentType] exactly when no header is named content-type in any
    case. *)
Theorem copied_headers_exact (data : bytes) (fallbackMockID : string) (r : MockResponse) :
  parseMockRecord data fallbackMockID = inr r →
  let served := (Handlers.copyHeaders r).1
                ++ Handlers.contentTypeHeader r (Handlers.copyHeaders r).2 in
  (∀ key value,
      Handlers.HeaderSet key value ∈ served
      ↔ Headers r !! key = Some value
        ∧ Handlers.excluded (toLowerASCIISimple key) = false
        ∧ HeaderKeysLower r !! toLowerASCIISimple key = Some key)
  ∧ (∀ contentType,
      Handlers.HeaderSetContentType contentType ∈ served
      ↔ (∀ key, is_Some (Headers r !! key) → toLowerASCIISimple key ≠ "content-type")
        ∧ contentType = if decide (ContentType r ≠ "") then ContentType r
                        else Handlers.defaultContentType).
Proof.
  intros H served. apply parseMockRecord_parsedFrom in H as (q & p & Hpf).
  destruct (parsedFrom_keys _ _ _ _ Hpf) as [Hkeys Hdom].
  destruct (copyHeaders_fold r (mapRange (HeaderKeysLower r)) ([], false)) as [Hc1 Hc2].
  cbn zeta in Hc1, Hc2. fold (Handlers.copyHeaders r) in Hc1, Hc2. cbn [fst snd] in Hc1, Hc2.
  assert (Hset : (Handlers.copyHeaders r).2 = true
                 ↔ ∃ key, is_Some (Headers r !! key) ∧ toLowerASCIISimple key = "content-type").
  { rewrite Hc2, <- Hdom. split.
    - intros [H|(key & Hin)]; [discriminate H|]. apply range_elem in Hin. by exists key.
    - intros [key Hk]. right. exists key. by apply range_elem. }
  split.
  - intros key value. unfold served. rewrite elem_of_app, Hc1. split.
    + intros [[H|(kl & k & Hin & Hex & [= -> ->])]|H].
      * by apply elem_of_nil in H.
      * apply range_elem in Hin. destruct (Hkeys _ _ Hin) as [-> [v Hv]].
        split; [|by split]. unfold indexStr. by rewrite Hv.
      * unfold Handlers.contentTypeHeader in H.
        destruct (negb _); [|by apply elem_of_nil in H].
        destruct (decide _); apply list_elem_of_singleton in H; discriminate H.
    + intros (Hv & Hex & Hk). left. right.
      exists (toLowerASCIISimple key), key. split; [by apply range_elem|].
      split; [exact Hex|]. unfold indexStr. by rewrite Hv.
  - intros contentType. unfold served. rewrite elem_of_app, Hc1. split.
    + intros [[H|(kl & k & _ & _ & [=])]|H]; [by apply elem_of_nil in H|].
      unfold Handlers.contentTypeHeader in H.
      destruct ((Handlers.copyHeaders r).2) eqn:Hb; cbn [negb] in H;
        [by apply elem_of_nil in H|].
      split.
      * intros key Hk E.
        assert (Ht : false = true) by (apply Hset; by exists key).
        discriminate Ht.
      * destruct (decide (ContentType r ≠ "")); apply list_elem_of_singleton in H;
          by injection H.
    + intros [Hno ->]. right. unfold Handlers.contentTypeHeader.
      destruct ((Handlers.copyHeaders r).2) eqn:Hb; cbn [negb].
      * destruct (proj1 Hset eq_refl) as (key & Hk & E). by destruct (Hno key Hk).
      * destruct (decide (ContentType r ≠ "")); by apply list_elem_of_singleton.
Qed.

End CopyFacts.


Lemma foldl_insert_sound {A V : Type} (f : A → string) (g : A → V) (l : list A) (k : string)
    (v : V) :
  ∀ acc : gmap string V,
    foldl (λ acc x, <[f x := g x]> acc) acc l !! k = Some v →
    acc !! k = Some v ∨ ∃ x, x ∈ l ∧ f x = k ∧ g x = v.
Proof.
  induction l as [|x l IH]; intros acc; cbn [foldl]; [by left|].
  intros H. apply IH in H as [H|(y & Hy & E)].
  - destruct (decide (f x = k)) as [E|N].
    + rewrite E, lookup_insert_eq in H. injection H as H.
      right. exists x. split; [by left|by split].
    + rewrite lookup_insert_ne in H by exact N. by left.
  - right. exists y. split; [by right|exact E].
Qed.

Section MockIDFacts.
Context {RT : GoRuntime}.

Lemma lowerKeys_sound (headers : gmap string JSON) (keyLower : string) (v : JSON) :
  lowerKeys headers !! keyLower = Some v →
  ∃ k, headers !! k = Some v ∧ strings_ToLower k = keyLower.
Proof.
  unfold lowerKeys. intros H.
  apply (foldl_insert_sound (λ kv : string * JSON, strings_ToLower kv.1) (λ kv, kv.2))
    in H as [H|([k j] & Hin & E & <-)]; [by rewrite lookup_empty in H|].
  exists k. split; [by apply range_elem|exact E].
Qed.

Lemma lowerKeys_dom (headers : gmap string JSON) (keyLower : string) :
  is_Some (lowerKeys headers !! keyLower)
  ↔ ∃ k, is_Some (headers !! k) ∧ strings_ToLower k = keyLower.
Proof.
  unfold lowerKeys.
  rewrite (foldl_insert_dom (λ kv : string * JSON, strings_ToLower kv.1) (λ kv, kv.2)).
  rewrite lookup_empty. split.
  - intros [[? H]|([k j] & Hin & E)]; [discriminate H|].
    exists k. split; [|exact E]. apply range_elem in Hin. by exists j.
  - intros (k & [j Hj] & E). right. exists (k, j). split; [by apply range_elem|exact E].
Qed.

(** X15.  The mock id of a parsed record is the value of the request
    header [x-mock-id] of the recording, the name compared after
    [strings.ToLower], when that value is a non-empty string; it is the
    fallback (the name of the directory, or of the scenario) when the
    value is empty, when no such header has a string value, and when
    the request has no header object. *)
Theorem mock_id_from_request_header (record requestData : gmap string JSON)
    (fallbackMockID : string) (r : MockResponse) :
  parseRecordTree record fallbackMockID = inr r →
  record !! "request" = Some (JObject requestData) →
  (∀ headers value,
      requestData !! "headers" = Some (JObject headers) →
      (∃ k, headers !! k = Some (JString value) ∧ strings_ToLower k = "x-mock-id") →
      (∀ k v, headers !! k = Some v → strings_ToLower k = "x-mock-id" → v = JString value) →
      MockID r = if decide (value ≠ "") then value else fallbackMockID)
  ∧ ((∀ headers, requestData !! "headers" = Some (JObject headers) →
        ∀ k v, headers !! k = Some v → strings_ToLower k = "x-mock-id" → asString v = None) →
     MockID r = fallbackMockID).
Proof.
  intros H Hreq.
  apply parseRecordTree_inr in H as (q & p & Hq & _ & Hpf).
  unfold index in Hq. rewrite Hreq in Hq. cbn [default from_option id asObject] in Hq.
  injection Hq as <-.
  rewrite (pf_mockID _ _ _ _ Hpf). unfold resolveMockID, index. split.
  - intros headers value Hh (k & Hk & Hl) Hall. rewrite Hh. cbn [default from_option id asObject].
    assert (Hs : is_Some (lowerKeys headers !! "x-mock-id"))
      by (apply lowerKeys_dom; exists k; split; [by eexists|exact Hl]).
    destruct Hs as [v Hv]. rewrite Hv.
    destruct (lowerKeys_sound _ _ _ Hv) as (k' & Hk' & Hl').
    rewrite (Hall k' v Hk' Hl'). reflexivity.
  - intros Hnone.
    destruct (requestData !! "headers") as [[|b|f|str|arr|headers]|] eqn:Hh;
      cbn [default from_option id asObject]; try reflexivity.
    destruct (lowerKeys headers !! "x-mock-id") as [v|] eqn:Hv;
      cbn [default from_option id asString]; [|reflexivity].
    destruct (lowerKeys_sound _ _ _ Hv) as (k' & Hk' & Hl').
    by rewrite (Hnone headers eq_refl k' v Hk' Hl').
Qed.



End MockIDFacts.

Section CodecMoreExamples.
#[local] Existing Instances Fixture.runtime Fixture.equalsFilter.

Lemma parsed_record_invariants_witness :
  ∃ r, parseMockRecord Fixture.helloText "api" = inr r
       ∧ Path r ≠ "" ∧ Method r ≠ "" ∧ MethodBytes r = Go.bytes_of_string (Method r)
       ∧ HeaderKeysLower r !! "x-trace" = Some "X-Trace".
Proof.
  destruct (parseMockRecord Fixture.helloText "api") as [e|r] eqn:H;
    [vm_compute in H; discriminate H|].
  exists r. split; [reflexivity|].
  destruct (parsed_record_invariants Fixture.helloText "api" r H) as (H1 & H2 & H3 & _).
  split; [exact H1|]. split; [exact H2|]. split; [exact H3|].
  clear H1 H2 H3. vm_compute in H. injection H as <-. vm_compute. reflexivity.
Defined.

Lemma recorded_string_headers_kept_witness :
  ∃ r responseData,
    parseRecordTree Fixture.helloRecord "api" = inr r
    ∧ Fixture.helloRecord !! "response" = Some (JObject responseData)
    ∧ Headers r !! "X-Trace" = Some "abc"
    ∧ ∀ k v, Headers r !! k = Some v
             ↔ ∃ headers, responseData !! "headers" = Some (JObject headers)
                          ∧ headers !! k = Some (JString v).
Proof.
  destruct (parseRecordTree Fixture.helloRecord "api") as [e|r] eqn:H;
    [vm_compute in H; discriminate H|].
  set (responseData := default ∅ (asObject (index Fixture.helloRecord "response"))).
  assert (Hresp : Fixture.helloRecord !! "response" = Some (JObject responseData))
    by (vm_compute; reflexivity).
  exists r, responseData. split; [reflexivity|]. split; [exact Hresp|].
  split; [|exact (recorded_string_headers_kept Fixture.helloRecord responseData "api" r
                    H Hresp)].
  clear Hresp. vm_compute in H. injection H as <-. vm_compute. reflexivity.
Defined.

Lemma copied_headers_exact_witness :
  ∃ r, parseMockRecord Fixture.helloText "api" = inr r
       ∧ Headers r !! "Content-Length" = Some "5"
       ∧ Handlers.HeaderSet "Content-Length" "5"
         ∉ (Handlers.copyHeaders r).1
           ++ Handlers.contentTypeHeader r (Handlers.copyHeaders r).2.
Proof.
  destruct (parseMockRecord Fixture.helloText "api") as [e|r] eqn:H;
    [vm_compute in H; discriminate H|].
  exists r. split; [reflexivity|].
  split; [vm_compute in H; injection H as <-; vm_compute; reflexivity|].
  intros Hin.
  apply (proj1 (copied_headers_exact Fixture.helloText "api" r H)) in Hin as (_ & Hex & _).
  vm_compute in Hex. discriminate Hex.
Defined.

(** A recording whose request carries a mock id. *)
Definition aliceRequest : gmap string JSON :=
  list_to_map [ ("url", JString "http://u/ping");
                ("headers", JObject {["X-Mock-Id" := JString "alice"]}) ].

Definition aliceRecord : gmap string JSON :=
  list_to_map [("request", JObject aliceRequest); ("response", JObject Fixture.bareResponse)].

Lemma mock_id_from_request_header_witness :
  ∃ r, parseRecordTree aliceRecord "default" = inr r
       ∧ aliceRecord !! "request" = Some (JObject aliceRequest)
       ∧ MockID r = "alice".
Proof.
  destruct (parseRecordTree aliceRecord "default") as [e|r] eqn:H;
    [vm_compute in H; discriminate H|].
  assert (Hreq : aliceRecord !! "request" = Some (JObject aliceRequest))
    by (vm_compute; reflexivity).
  exists r. split; [reflexivity|]. split; [exact Hreq|].
  apply (proj1 (mock_id_from_request_header aliceRecord aliceRequest "default" r H Hreq)
           {["X-Mock-Id" := JString "alice"]} "alice").
  - vm_compute. reflexivity.
  - exists "X-Mock-Id". split; vm_compute; reflexivity.
  - intros k v Hk _. apply lookup_singleton_Some in Hk as [_ <-]. reflexivity.
Defined.


End CodecMoreExamples.


(** ** Replaying an event stream *)

Section StreamFacts.
Context {RT : GoRuntime}.

(** An element of a recorded event array that both the buffered body
    and the stream can render: an object with a [data] field that is
    [[DONE]] or can be marshalled. *)
Definition renderable (item : JSON) : Prop :=
  ∃ eventMap eventData,
    item = JObject eventMap ∧ eventMap !! "data" = Some eventData
    ∧ (asString eventData = Some "[DONE]" ∨ is_Some (json_Marshal eventData)).

Lemma renderable_frame (item : JSON) :
  renderable item →
  ∃ e, sseEventOf item = Some e
       ∧ sseEventBytes item
         = Replay.sseDataPrefix ++ SerializedData e ++ Replay.sseDataSuffix.
Proof.
  intros (eventMap & eventData & -> & Hd & Hr).
  unfold sseEventOf, sseEventBytes. cbn [asObject]. rewrite Hd.
  eexists. split; [reflexivity|]. cbn [SerializedData].
  destruct (decide (asString eventData = Some "[DONE]")) as [E|N]; [reflexivity|].
  destruct Hr as [E|[b Hb]]; [contradiction|]. rewrite Hb. reflexivity.
Qed.

Lemma stream_of_renderable (arr : list JSON) (jitterScale : float) :
  Forall renderable arr →
  ∀ sseBuilder,
    foldl (λ sseBuilder event, sseBuilder ++ sseEventBytes event) sseBuilder arr
    = sseBuilder ++ concat (Replay.flushed <$> Replay.StreamTo (omap sseEventOf arr) jitterScale)
    ∧ length (omap sseEventOf arr) = length arr.
Proof.
  induction 1 as [|item arr Hitem _ IH]; intros sseBuilder; cbn [foldl omap list_omap].
  - split; [by rewrite app_nil_r|reflexivity].
  - destruct (renderable_frame item Hitem) as (e & -> & ->). cbn [length].
    destruct (IH (sseBuilder ++ Replay.sseDataPrefix ++ SerializedData e
                  ++ Replay.sseDataSuffix)) as [-> ->].
    split; [|reflexivity]. unfold Replay.StreamTo. rewrite !fmap_cons.
    cbn [Replay.flushed concat]. by rewrite <- !app_assoc.
Qed.

(** X17.  Streaming and buffering agree: for a parsed event-stream
    record whose body is an array of objects, each with a [data] field
    that is [[DONE]] or can be marshalled, the bytes that [StreamTo]
    writes, event after event, are the bytes of the buffered [Body],
    whatever the jitter scale; there is one event for each element of
    the array. *)
Theorem streamed_bytes_are_body (data : bytes) (fallbackMockID : string) (r : MockResponse)
    (arr : list JSON) (jitterScale : float) :
  parseMockRecord data fallbackMockID = inr r →
  IsSSE r = true → OriginalBody r = JArray arr → Forall renderable arr →
  concat (Replay.flushed <$> Replay.StreamTo (SSEEvents r) jitterScale) = Body r
  ∧ length (SSEEvents r) = length arr.
Proof.
  intros H Hsse Hbody Harr. apply parseMockRecord_parsedFrom in H as (q & p & Hpf).
  pose proof (pf_bytes _ _ _ _ Hpf) as Hb. pose proof (pf_events _ _ _ _ Hpf) as He.
  rewrite (pf_isSSE _ _ _ _ Hpf) in Hsse. apply bool_decide_eq_true in Hsse.
  rewrite Hbody in Hb, He. rewrite (pf_isSSE _ _ _ _ Hpf) in He.
  rewrite Hsse in Hb, He.
  rewrite bool_decide_eq_true_2 in He by reflexivity.
  change (collectSSEEvents true (JArray arr)) with (omap sseEventOf arr) in He.
  unfold materializeBody in Hb. rewrite decide_True in Hb by reflexivity.
  injection Hb as Hb. rewrite He, <- Hb.
  destruct (stream_of_renderable arr jitterScale Harr []) as [-> ->].
  split; reflexivity.
Qed.

End StreamFacts.

(** ** The handler *)


Section ReplyFacts.
Context {RT : GoRuntime} {JF : JsonFilter}.




(** X19.  Of the [Accept] header only the first media type counts, and
    its parameters and the blanks around it are ignored: unless the
    header is [*/*] (and outside scenario mode), the handler's lookup
    is [FindResponseBytes] on the text before the first comma, or on
    [application/json] when the header is empty. *)
Theorem accept_first_media_type (store : MockStorage) (ctx : Handlers.RequestCtx) :
  HasScenarios store = false →
  Handlers.ctxPeekBytes ctx Handlers.headerAccept ≠ Handlers.acceptAny →
  let accept := Handlers.ctxPeekBytes ctx Handlers.headerAccept in
  let mockID :=
    if bool_decide (length (Handlers.ctxPeekBytes ctx Handlers.headerXMockID) = 0%nat)
    then Go.bytes_of_string Handlers.defaultMockID
    else Handlers.ctxPeekBytes ctx Handlers.headerXMockID in
  Handlers.lookupMock store ctx
  = FindResponseBytes store (Handlers.ctxPath ctx) mockID
      (if bool_decide (length accept = 0%nat)
       then Go.bytes_of_string Handlers.defaultContentType
       else Handlers.cutAt "," accept)
      (Handlers.ctxMethod ctx)
  ∧ ∀ accept',
      Spec.normalized (Handlers.cutAt "," accept') = Spec.normalized (Handlers.cutAt "," accept) →
      accept ≠ [] → accept' ≠ [] → accept' ≠ Handlers.acceptAny →
      Handlers.lookupMock store
        {| Handlers.ctxPath := Handlers.ctxPath ctx; Handlers.ctxMethod := Handlers.ctxMethod ctx;
           Handlers.ctxPeekBytes := λ header,
             if bool_decide (header = Handlers.headerAccept) then accept'
             else Handlers.ctxPeekBytes ctx header;
           Handlers.ctxPostBody := Handlers.ctxPostBody ctx |}
      = Handlers.lookupMock store ctx.
Proof.
  intros Hscen Hany accept mockID.
  assert (Hlookup : ∀ peek a,
            peek Handlers.headerAccept = a → a ≠ Handlers.acceptAny →
            peek Handlers.headerXMockID = Handlers.ctxPeekBytes ctx Handlers.headerXMockID →
            Handlers.lookupMock store
              {| Handlers.ctxPath := Handlers.ctxPath ctx;
                 Handlers.ctxMethod := Handlers.ctxMethod ctx;
                 Handlers.ctxPeekBytes := peek;
                 Handlers.ctxPostBody := Handlers.ctxPostBody ctx |}
            = FindResponseBytes store (Handlers.ctxPath ctx) mockID
                (if bool_decide (length a = 0%nat)
                 then Go.bytes_of_string Handlers.defaultContentType
                 else Handlers.cutAt "," a)
                (Handlers.ctxMethod ctx)).
  { intros peek a Ha Hne Hid. unfold Handlers.lookupMock. rewrite Hscen.
    cbn [Handlers.ctxPath Handlers.ctxMethod Handlers.ctxPeekBytes Handlers.ctxPostBody].
    rewrite Ha, Hid. fold mockID.
    case_bool_decide as Hlen; [reflexivity|].
    rewrite bool_decide_eq_false_2 by exact Hne.
    rewrite FindResponseBytes_key.
    rewrite (FindResponseBytes_key store _ _ (Handlers.cutAt "," a)).
    unfold Handlers.trimSpaceASCII.
    rewrite trimSpaceASCII_trimmed, cutAt_stripParameters.
    fold (Spec.normalized (Handlers.cutAt "," a)). by rewrite normalized_idemp. }
  assert (Hctx : Handlers.lookupMock store ctx
                 = FindResponseBytes store (Handlers.ctxPath ctx) mockID
                     (if bool_decide (length accept = 0%nat)
                      then Go.bytes_of_string Handlers.defaultContentType
                      else Handlers.cutAt "," accept)
                     (Handlers.ctxMethod ctx)).
  { rewrite <- (Hlookup (Handlers.ctxPeekBytes ctx) accept eq_refl Hany eq_refl).
    by destruct ctx. }
  split; [exact Hctx|].
  intros accept' Hsame Hne Hne' Hany'. rewrite Hctx.
  rewrite (Hlookup _ accept'); [|by rewrite bool_decide_eq_true_2|exact Hany'|reflexivity].
  rewrite !bool_decide_eq_false_2
    by (intros E; apply length_zero_iff_nil in E; contradiction).
  rewrite FindResponseBytes_key, Hsame, <- FindResponseBytes_key. reflexivity.
Qed.

Section Startup.
Variable yaml_Unmarshal : bytes → option scenarioFile.

(** X20.  What [main] serves from.  When start-up succeeds the store
    has the timing configuration of the command line, the index that
    [NewMockStorage] loaded, and it is in scenario mode exactly when a
    scenario file was named; start-up fails exactly when
    [NewMockStorage] fails or the named scenario file is refused. *)
Theorem startup_outcome (mockDir scenarioConfig : string) (replayTiming : bool)
    (jitter : float) :
  (∀ store,
      Main.startup yaml_Unmarshal mockDir scenarioConfig replayTiming jitter = inr store →
      ReplayTiming store = replayTiming ∧ Jitter store = jitter
      ∧ (HasScenarios store = true ↔ scenarioConfig ≠ "")
      ∧ ∃ loaded, NewMockStorage mockDir = inr loaded ∧ Responses store = Responses loaded)
  ∧ (∀ e,
      Main.startup yaml_Unmarshal mockDir scenarioConfig replayTiming jitter = inl e
      ↔ NewMockStorage mockDir = inl e
        ∨ (scenarioConfig ≠ ""
           ∧ ∃ loaded s, NewMockStorage mockDir = inr loaded
                         ∧ LoadScenarioConfig yaml_Unmarshal loaded scenarioConfig
                           = (s, Some e))).
Proof.
  unfold Main.startup.
  destruct (NewMockStorage mockDir) as [e0|loaded] eqn:Hnew; cbn [bind].
  - split; [discriminate|]. intros e. split.
    + intros [= <-]. by left.
    + intros [[= <-]|(_ & ? & ? & [=] & _)]. reflexivity.
  - destruct (decide (scenarioConfig ≠ "")) as [Hcfg|Hcfg].
    + destruct (LoadScenarioConfig yaml_Unmarshal loaded scenarioConfig) as [s [err|]] eqn:Hload;
        cbn [bind].
      * split; [discriminate|]. intros e. split.
        -- intros [= <-]. right. split; [exact Hcfg|]. by exists loaded, s.
        -- intros [[=]|(_ & l' & s' & [= <-] & Hl)]. rewrite Hload in Hl. by injection Hl as _ ->.
      * split.
        -- intros store [= <-]. cbn [ReplayTiming Jitter SetTimingConfig].
           destruct (LoadScenarioConfig_inv yaml_Unmarshal loaded s scenarioConfig Hload)
             as (_ & Hen & Hr & _).
           split; [reflexivity|]. split; [reflexivity|]. split.
           ++ unfold HasScenarios. cbn [scenariosEnabled SetTimingConfig]. by rewrite Hen.
           ++ exists loaded. split; [reflexivity|exact Hr].
        -- intros e. split; [discriminate|].
           intros [[=]|(_ & l' & s' & [= <-] & Hl)]. rewrite Hload in Hl. discriminate Hl.
    + cbn [bind]. split.
      * intros store [= <-]. cbn [ReplayTiming Jitter SetTimingConfig].
        split; [reflexivity|]. split; [reflexivity|]. split.
        -- unfold HasScenarios. cbn [scenariosEnabled SetTimingConfig].
           destruct (NewMockStorage_inv mockDir loaded Hnew) as (_ & -> & _).
           split; [discriminate|contradiction].
        -- by exists loaded.
      * intros e. split; [discriminate|]. intros [[=]|(Hc & _)]. contradiction.
Qed.

End Startup.
End ReplyFacts.

(** ** The names of the 404 log files *)

Lemma replaceByte_elem (old new c : ascii) (s : string) :
  c ∈ Go.bytes_of_string (NotFound.replaceByte old new s) →
  c = new ∨ (c ≠ old ∧ c ∈ Go.bytes_of_string s).
Proof.
  induction s as [|x s IH]; [intros H; by apply elem_of_nil in H|].
  change (Go.bytes_of_string (NotFound.replaceByte old new (String x s)))
    with ((if Ascii.eqb x old then new else x)
          :: Go.bytes_of_string (NotFound.replaceByte old new s)).
  change (Go.bytes_of_string (String x s)) with (x :: Go.bytes_of_string s).
  intros H. apply elem_of_cons in H as [->|H].
  - destruct (Ascii.eqb_spec x old) as [E|N]; [by left|]. right. split; [exact N|by left].
  - destruct (IH H) as [E|[N Hin]]; [by left|]. right. split; [exact N|by right].
Qed.

Lemma cutString_elem (sep c : ascii) (s : string) :
  c ∈ Go.bytes_of_string (NotFound.cutString sep s) → c ≠ sep ∧ c ∈ Go.bytes_of_string s.
Proof.
  assert (E : Go.bytes_of_string (NotFound.cutString sep s)
              = Handlers.cutAt sep (Go.bytes_of_string s)).
  { unfold NotFound.cutString, Handlers.cutAt. case_bool_decide; [|reflexivity].
    apply bytes_of_string_of_bytes. }
  rewrite E. intros H. split.
  - intros ->. by apply (cutAt_absent sep (Go.bytes_of_string s)).
  - unfold Handlers.cutAt in H. case_bool_decide; [|exact H].
    rewrite <- (take_drop (Z.to_nat (Go.IndexByte (Go.bytes_of_string s) sep))
                          (Go.bytes_of_string s)).
    apply elem_of_app. by left.
Qed.

Lemma sanitizeContentType_elem (contentType : string) (c : ascii) :
  c ∈ Go.bytes_of_string (NotFound.sanitizeContentType contentType) →
  c ≠ "/"%char ∧ c ≠ "+"%char ∧ c ≠ "."%char ∧ c ≠ ";"%char.
Proof.
  unfold NotFound.sanitizeContentType.
  destruct (decide _) as [_|_].
  - intros H. apply list_elem_of_In in H. cbn in H.
    repeat (destruct H as [<-|H]; [repeat split; discriminate|]). destruct H.
  - intros H.
    apply replaceByte_elem in H as [->|[N3 H]]; [repeat split; discriminate|].
    apply replaceByte_elem in H as [->|[N2 H]]; [repeat split; discriminate|].
    apply replaceByte_elem in H as [->|[N1 H]]; [repeat split; discriminate|].
    apply TrimSpace_elem, cutString_elem in H as [N0 _]. by repeat split.
Qed.

Lemma bytes_of_string_app (a b : string) :
  Go.bytes_of_string (a +:+ b) = Go.bytes_of_string a ++ Go.bytes_of_string b.
Proof.
  rewrite <- (string_of_bytes_of_string a) at 1. rewrite <- (string_of_bytes_of_string b) at 1.
  by rewrite <- string_of_bytes_app, bytes_of_string_of_bytes.
Qed.

(** X21.  [sanitizeContentType] returns a non-empty name without [/],
    [+], [.] and [;], so the name of a 404 log file has no path
    separator unless the time stamp or the random suffix has one. *)
Theorem sanitizeContentType_safe (contentType : string) :
  NotFound.sanitizeContentType contentType ≠ ""
  ∧ (∀ c, c ∈ Go.bytes_of_string (NotFound.sanitizeContentType contentType) →
          c ≠ "/"%char ∧ c ≠ "+"%char ∧ c ≠ "."%char ∧ c ≠ ";"%char)
  ∧ ∀ accept ts randomHex,
      "/"%char ∉ Go.bytes_of_string ts → "/"%char ∉ Go.bytes_of_string randomHex →
      "/"%char ∉ Go.bytes_of_string (NotFound.logFileName accept ts randomHex).
Proof.
  split; [|split].
  - unfold NotFound.sanitizeContentType. destruct (decide _); [discriminate|assumption].
  - apply sanitizeContentType_elem.
  - intros accept ts randomHex Hts Hhex. unfold NotFound.logFileName.
    rewrite !bytes_of_string_app, !elem_of_app. intros [H|[H|[H|[H|[H|H]]]]].
    + by apply sanitizeContentType_elem in H as [N _].
    + apply list_elem_of_singleton in H. discriminate H.
    + contradiction.
    + apply list_elem_of_singleton in H. discriminate H.
    + contradiction.
    + apply list_elem_of_In in H. cbn in H.
      repeat (destruct H as [H|H]; [discriminate H|]). destruct H.
Qed.


Section ReplyExamples.
#[local] Existing Instances Fixture.runtime Fixture.equalsFilter.

Lemma streamed_bytes_are_body_witness :
  ∃ r arr,
    parseMockRecord Fixture.streamText "default" = inr r
    ∧ IsSSE r = true ∧ OriginalBody r = JArray arr ∧ length arr = 5%nat
    ∧ concat (Replay.flushed <$> Replay.StreamTo (SSEEvents r) 1%float) = Body r
    ∧ length (SSEEvents r) = 5%nat.
Proof.
  destruct (parseMockRecord Fixture.streamText "default") as [e|r] eqn:H;
    [vm_compute in H; discriminate H|].
  set (arr := [Fixture.event "a" 0.1; Fixture.event "b" 0.2; Fixture.event "c" 0.3;
               Fixture.event "d" 0.4; Fixture.event "[DONE]" 0.5]).
  assert (Hsse : IsSSE r = true)
    by (pose proof H as H'; vm_compute in H'; injection H' as <-; reflexivity).
  assert (Hbody : OriginalBody r = JArray arr)
    by (pose proof H as H'; vm_compute in H'; injection H' as <-; vm_compute; reflexivity).
  assert (Harr : Forall renderable arr).
  { repeat constructor;
      (eexists _, _; split; [reflexivity|]; split; [vm_compute; reflexivity|];
       first [left; reflexivity|right; vm_compute; eexists; reflexivity]). }
  exists r, arr. split; [reflexivity|]. split; [exact Hsse|]. split; [exact Hbody|].
  split; [reflexivity|].
  destruct (streamed_bytes_are_body Fixture.streamText "default" r arr 1%float
              H Hsse Hbody Harr) as [H1 H2].
  split; [exact H1|]. rewrite H2. reflexivity.
Defined.

Lemma accept_first_media_type_witness :
  HasScenarios Fixture.mockStore = false
  ∧ Handlers.lookupMock Fixture.mockStore
      (Fixture.request "GET" "/hello" "api" "text/plain;q=0.9, text/html" "")
    = FindResponseBytes Fixture.mockStore (Go.bytes_of_string "/hello")
        (Go.bytes_of_string "api") (Go.bytes_of_string "text/plain;q=0.9")
        (Go.bytes_of_string "GET")
  ∧ ContentType <$> Handlers.lookupMock Fixture.mockStore
                      (Fixture.request "GET" "/hello" "api" "text/plain;q=0.9, text/html" "")
    = Some "text/plain".
Proof.
  assert (H1 : HasScenarios Fixture.mockStore = false) by (vm_compute; reflexivity).
  assert (H2 : Handlers.ctxPeekBytes
                 (Fixture.request "GET" "/hello" "api" "text/plain;q=0.9, text/html" "")
                 Handlers.headerAccept ≠ Handlers.acceptAny)
    by (intros E; vm_compute in E; discriminate E).
  split; [exact H1|]. split; [|vm_compute; reflexivity].
  exact (proj1 (accept_first_media_type Fixture.mockStore
                  (Fixture.request "GET" "/hello" "api" "text/plain;q=0.9, text/html" "")
                  H1 H2)).
Defined.

End ReplyExamples.
